(** * miniNN: tensors, tensor kernels, layers, model loader and inference engine

    A shallow embedding of the C++ sources of miniNN
    ([src/tensor.cpp], [src/tensor_ops.cpp], [src/model_loader.cpp],
    [src/inference_engine.cpp] and their headers) together with the
    properties claimed of them.

    Conventions of the embedding:
    - [float] is IEEE-754 binary32, modelled by [spec_float] at precision 24
      and maximal exponent 128 (round to nearest even); NaN payloads are not
      represented;
    - [size_t] is a 64-bit unsigned integer, modelled by [N] with the
      wrap-around written out ([wrap64]);
    - a [std::unique_ptr<float[]>] is an optional address into a heap of
      float arrays ([None] is [nullptr]); the fields of a C++ object are
      passed by value, its buffer lives in the heap;
    - a function that may throw returns a [Result]; the world (heap,
      clock and the memory the allocator can grant) is threaded through and
      survives an exception;
    - [std::exp] and [std::chrono::high_resolution_clock::now] belong to
      the platform and are parameters ([Platform]). *)

From Stdlib Require Import ZArith NArith Lia SpecFloat.
From Stdlib Require Import Strings.Byte.
From stdpp Require Import gmap list.

(** ** IEEE-754 binary32 *)

Definition float32 : Type := spec_float.

Definition f32_prec : Z := 24.
Definition f32_emax : Z := 128.

Definition f32_add : float32 -> float32 -> float32 := SFadd f32_prec f32_emax.
Definition f32_sub : float32 -> float32 -> float32 := SFsub f32_prec f32_emax.
Definition f32_mul : float32 -> float32 -> float32 := SFmul f32_prec f32_emax.
Definition f32_div : float32 -> float32 -> float32 := SFdiv f32_prec f32_emax.
Definition f32_neg : float32 -> float32 := SFopp.
(** [a < b] and [a == b] on floats: false as soon as one side is a NaN;
    the two zeros compare equal. *)
Definition f32_ltb : float32 -> float32 -> bool := SFltb.
Definition f32_eqb : float32 -> float32 -> bool := SFeqb.

(** [0.0f] and [1.0f]. *)
Definition f32_zero : float32 := S754_zero false.
Definition f32_one : float32 := S754_finite false 8388608 (-23).

(** [std::max(a, b)] is [(a < b) ? b : a]. *)
Definition f32_max (a b : float32) : float32 := if f32_ltb a b then b else a.

(** The float nearest to an integer, and the float literal [n/d] for small
    integers (the quotient of two exactly represented integers is rounded
    once, as the compiler rounds the decimal literal). *)
Definition f32_of_Z (z : Z) : float32 := binary_normalize f32_prec f32_emax z 0 false.
Definition f32_lit (n d : Z) : float32 := f32_div (f32_of_Z n) (f32_of_Z d).

(** The float whose bit pattern is the 32-bit word [w]. *)
Definition f32_of_bits (w : Z) : float32 :=
  let s := Z.testbit w 31 in
  let e := Z.land (Z.shiftr w 23) 255 in
  let m := Z.land w 8388607 in
  if (e =? 0)%Z then
    match m with
    | Zpos p => S754_finite s p (-149)
    | _ => S754_zero s
    end
  else if (e =? 255)%Z then
    (if (m =? 0)%Z then S754_infinity s else S754_nan)
  else
    match (m + 8388608)%Z with
    | Zpos p => S754_finite s p (e - 150)
    | _ => S754_nan
    end.

(** A float that is neither a NaN nor an infinity, in canonical form. *)
Definition f32_finite (x : float32) : bool :=
  match x with
  | S754_zero _ => true
  | S754_finite _ m e => bounded f32_prec f32_emax m e
  | _ => false
  end.

(** ** The platform: what the sources take from the C++ library *)

Class Platform := {
  (** [std::exp] on [float]. *)
  std_exp : float32 -> float32;
  (** The reading of [high_resolution_clock::now()] at its k-th call, in
      clock ticks. *)
  clock_now : nat -> Z
}.

(** ** Errors and the monad of the embedding *)

(** The layer kinds of [model_loader.h]. *)
Inductive LayerType := LINEAR | RELU | SIGMOID | SOFTMAX.

(** One constructor per kind of failure of the specification; the comment
    gives the exception and message thrown by the source. *)
Inductive Error :=
| InvalidShape          (* invalid_argument: Shape cannot be empty / Shape dimensions cannot be zero *)
| SizeMismatch          (* invalid_argument: Data size does not match tensor shape /
                           Pixel data size doesn't match dimensions *)
| InvalidArgument       (* invalid_argument: Number of indices must match tensor rank /
                           New shape must preserve total number of elements /
                           Standard deviation cannot be zero for normalization *)
| OutOfRange            (* out_of_range: Index out of bounds *)
| ShapeMismatch         (* invalid_argument: Tensor shapes must match for ... /
                           Input tensor rank/shape mismatch /
                           Tensor shape validation failed *)
| DivisionByZero        (* invalid_argument: Division by zero *)
| InvalidRank           (* invalid_argument: Matrix multiplication requires 2D tensors /
                           Linear layer input must be 1D or 2D tensor /
                           Linear layer weights must be 2D, bias must be 1D /
                           getArgMax requires 1D tensor /
                           runtime_error: Invalid tensor rank *)
| DimensionMismatch     (* invalid_argument: Inner dimensions must match ... /
                           Input features must match weight input dimension /
                           Weight output dimension must match bias dimension *)
| EmptyInput            (* invalid_argument: Cannot compute Softmax on empty tensor /
                           Cannot find argmax of empty tensor *)
| EmptyBatch            (* invalid_argument: Cannot process empty batch *)
| EmptyModel            (* runtime_error: Model must contain at least one layer /
                           invalid_argument: Cannot create inference engine with empty model *)
| TooManyLayers         (* runtime_error: Model contains too many layers *)
| NullModel             (* invalid_argument: Cannot create inference engine with null model *)
| NullLayer             (* invalid_argument: Cannot add null layer to model *)
| UndeclaredShapes      (* invalid_argument: Model must have defined input and output shapes *)
| FormatError           (* runtime_error: Invalid model file format (magic number mismatch) *)
| UnsupportedVersion    (* runtime_error: Unsupported model version *)
| UnknownLayerType      (* runtime_error: Unknown layer type *)
| TruncatedFile         (* runtime_error: Failed to read binary data from file /
                           Failed to read tensor data *)
| UnsupportedDType      (* runtime_error: Only FLOAT32 tensors are currently supported /
                           invalid_argument: Input tensor must be FLOAT32 type *)
| OpenFailed            (* runtime_error: Failed to open model file *)
| OutputShapeMismatch   (* runtime_error: Output shape mismatch *)
| LayerExecutionError (index : nat) (type : LayerType) (cause : Error)
                        (* runtime_error: Error in layer i (type: t): cause *)
| LoadFailed (cause : Error)
                        (* runtime_error: Failed to load model from path: cause *)
| BadAlloc              (* std::bad_alloc or std::bad_array_new_length from new float[n] *)
| UndefinedBehavior.    (* no exception: a read or write outside a live buffer *)

Inductive Result (A : Type) :=
| Ok (a : A)
| Err (e : Error).
Arguments Ok {A} a.
Arguments Err {A} e.

(** The heap of float arrays owned through [unique_ptr<float[]>], the
    number of clock readings taken so far, and the length of the longest
    array the allocator has memory for: [new float[n]] throws
    [std::bad_alloc] for a longer one. That length depends on the machine
    and on the process, and no length is granted in every world. *)
Record World := mkWorld {
  w_heap : gmap nat (list float32);
  w_ticks : nat;
  w_alloc_limit : N
}.

(** A computation over a state [S] that returns or throws; the state reached
    is kept in both cases. *)
Definition St (S A : Type) : Type := S -> S * Result A.
Definition M (A : Type) : Type := St World A.

Definition ret {S A} (a : A) : St S A := fun s => (s, Ok a).
Definition throw {S A} (e : Error) : St S A := fun s => (s, Err e).
Definition bind {S A B} (m : St S A) (k : A -> St S B) : St S B :=
  fun s => match m s with
           | (s', Ok a) => k a s'
           | (s', Err e) => (s', Err e)
           end.

Notation "'let*' x ':=' c 'in' k" := (bind c (fun x => k))
  (at level 10, x pattern, c at level 100, k at level 200).
Notation "c1 '>>' c2" := (bind c1 (fun _ => c2))
  (at level 100, c2 at level 200, right associativity).

(** [try { m } catch (...) { h; throw; }]: run [h] when [m] throws, and
    rethrow. This is how the destructors of locals run during unwinding. *)
Definition on_throw {S A} (m : St S A) (h : St S unit) : St S A :=
  fun s => match m s with
           | (s', Ok a) => (s', Ok a)
           | (s', Err e) => (fst (h s'), Err e)
           end.

(** [try { m } catch (const std::exception& e) { throw wrap(e); }]. A read
    or write outside a live buffer is not an exception and is not caught. *)
Definition catch_wrap {S A} (m : St S A) (wrap : Error -> Error) : St S A :=
  fun s => match m s with
           | (s', Ok a) => (s', Ok a)
           | (s', Err UndefinedBehavior) => (s', Err UndefinedBehavior)
           | (s', Err e) => (s', Err (wrap e))
           end.

(** A method or a function with an out-parameter runs over the world and
    the object it may change, [St (World * T)]. [lift] runs a computation
    that leaves the object alone, [self] reads the object, [set_self]
    overwrites it. *)
Definition lift {S T A} (m : St S A) : St (S * T) A :=
  fun s => match m (fst s) with
           | (s', r) => ((s', snd s), r)
           end.
Definition self {S T} : St (S * T) T := fun s => (s, Ok (snd s)).
Definition set_self {S T} (t : T) : St (S * T) unit := fun s => ((fst s, t), Ok tt).

(** A local object [obj] handed to [m] as its object. When [m] throws, the
    local is destroyed by [dtor] during unwinding; otherwise the caller gets
    it back in the state [m] left it in. *)
Definition with_local {T T' A} (obj : T') (m : St (World * T') A)
    (dtor : T' -> M unit) : St (World * T) (T' * A) :=
  fun s => match m (fst s, obj) with
           | ((w', obj'), Ok a) => ((w', snd s), Ok (obj', a))
           | ((w', obj'), Err e) => ((fst (dtor obj' w'), snd s), Err e)
           end.

(** The same for a method of the current object that takes the local as an
    out-parameter: [m] runs over the current object and the local. *)
Definition with_out {T T' A} (obj : T') (m : St (World * (T * T')) A)
    (dtor : T' -> M unit) : St (World * T) (T' * A) :=
  fun s => match m (fst s, (snd s, obj)) with
           | ((w', (t', obj')), Ok a) => ((w', t'), Ok (obj', a))
           | ((w', (t', obj')), Err e) => ((fst (dtor obj' w'), t'), Err e)
           end.

(** [for (size_t i = first; count-- > 0; ++i) acc = body(i, acc)]. *)
Fixpoint for_loop {S A} (count : nat) (i : N) (body : N -> A -> St S A) (acc : A)
  : St S A :=
  match count with
  | O => ret acc
  | S count' => let* acc' := body i acc in for_loop count' (N.succ i) body acc'
  end.

(** [for (size_t i = 0; i < n; ++i) acc = body(i, acc)]. *)
Definition for_range {S A} (n : N) (body : N -> A -> St S A) (acc : A) : St S A :=
  for_loop (N.to_nat n) 0%N body acc.

(** The same loop without loop-carried state. *)
Definition for_each {S} (n : N) (body : N -> St S unit) : St S unit :=
  for_range n (fun i _ => body i) tt.

(** ** size_t *)

Definition wrap64 (n : N) : N := (n mod 2 ^ 64)%N.

(** ** The heap *)

(** The largest [n] for which [new float[n]] succeeds in the world [w]:
    from [2 ^ 61 - 1] floats on it throws [std::bad_array_new_length]
    whatever the memory, and below that [std::bad_alloc] when the allocator
    has no room for [n] floats. *)
Definition max_array_len (w : World) : N := N.min (2 ^ 61 - 2) (w_alloc_limit w).

Definition set_heap (h : gmap nat (list float32)) (w : World) : World :=
  {| w_heap := h; w_ticks := w_ticks w; w_alloc_limit := w_alloc_limit w |}.

(** [std::make_unique<float[]>(n)]: a fresh array of [n] zeros, or the
    exception of [new float[n]]. *)
Definition make_unique (n : N) : M (option nat) :=
  fun w =>
    if (max_array_len w <? n)%N then (w, Err BadAlloc)
    else
      let p := fresh (dom (w_heap w)) in
      (set_heap (<[p := replicate (N.to_nat n) f32_zero]> (w_heap w)) w, Ok (Some p)).

(** [~unique_ptr] and [reset]: [delete[]] of a non-null pointer. Deleting a
    pointer that is not live is undefined. *)
Definition release (p : option nat) : M unit :=
  fun w =>
    match p with
    | None => (w, Ok tt)
    | Some a =>
        match w_heap w !! a with
        | Some _ => (set_heap (delete a (w_heap w)) w, Ok tt)
        | None => (w, Err UndefinedBehavior)
        end
    end.

(** [p[i]] as an rvalue. *)
Definition load (p : option nat) (i : N) : M float32 :=
  fun w =>
    match p with
    | None => (w, Err UndefinedBehavior)
    | Some a =>
        match w_heap w !! a with
        | Some buf =>
            match buf !! N.to_nat i with
            | Some v => (w, Ok v)
            | None => (w, Err UndefinedBehavior)
            end
        | None => (w, Err UndefinedBehavior)
        end
    end.

(** [p[i] = v]. *)
Definition store (p : option nat) (i : N) (v : float32) : M unit :=
  fun w =>
    match p with
    | None => (w, Err UndefinedBehavior)
    | Some a =>
        match w_heap w !! a with
        | Some buf =>
            if decide (N.to_nat i < length buf)
            then (set_heap (<[a := <[N.to_nat i := v]> buf]> (w_heap w)) w, Ok tt)
            else (w, Err UndefinedBehavior)
        | None => (w, Err UndefinedBehavior)
        end
    end.

(** The first [n] floats of the array at [p]; with [n = 0] nothing is read. *)
Definition load_range (p : option nat) (n : N) : M (list float32) :=
  fun w =>
    if (n =? 0)%N then (w, Ok [])
    else
      match p with
      | None => (w, Err UndefinedBehavior)
      | Some a =>
          match w_heap w !! a with
          | Some buf =>
              if decide (N.to_nat n <= length buf)
              then (w, Ok (take (N.to_nat n) buf))
              else (w, Err UndefinedBehavior)
          | None => (w, Err UndefinedBehavior)
          end
      end.

(** [std::copy(vals.begin(), vals.end(), p)], also [memcpy] and
    [istream::read] into [p]: the floats [vals] overwrite the front of the
    array at [p]; with no float to write nothing is touched. *)
Definition store_range (p : option nat) (vals : list float32) : M unit :=
  fun w =>
    match vals with
    | [] => (w, Ok tt)
    | _ =>
        match p with
        | None => (w, Err UndefinedBehavior)
        | Some a =>
            match w_heap w !! a with
            | Some buf =>
                if decide (length vals <= length buf)
                then (set_heap (<[a := vals ++ drop (length vals) buf]> (w_heap w)) w, Ok tt)
                else (w, Err UndefinedBehavior)
            | None => (w, Err UndefinedBehavior)
            end
        end
    end.

(** ** Tensor (tensor.h, tensor.cpp) *)

(** The enumeration of tensor.h; [DataType_raw v] is a value of its
    underlying type that names no enumerator (a [static_cast] of a byte of a
    model file can produce one). *)
Inductive DataType := FLOAT32 | INT8 | INT4 | DataType_raw (v : N).

Record Tensor := mkTensor {
  shape_ : list N;            (* std::vector<size_t> shape_ *)
  total_size_ : N;            (* size_t total_size_ *)
  dtype_ : DataType;
  data_ : option nat          (* std::unique_ptr<float[]> data_ *)
}.

#[global] Instance DataType_eq_dec : EqDecision DataType.
Proof. solve_decision. Defined.

(** Accessors of tensor.h. *)
Definition shape (t : Tensor) : list N := shape_ t.
Definition rank (t : Tensor) : N := N.of_nat (length (shape_ t)).
Definition size (t : Tensor) : N := total_size_ t.
Definition dtype (t : Tensor) : DataType := dtype_ t.
Definition data (t : Tensor) : option nat := data_ t.

(** [std::accumulate(first, last, 1ULL, std::multiplies<size_t>())]. *)
Definition accumulate_product (dims : list N) : N :=
  fold_left (fun acc d => wrap64 (acc * d)) dims 1%N.

(** [Tensor::calculateTotalSize], on the member [shape_]. *)
Definition calculateTotalSize (shape_ : list N) : N := accumulate_product shape_.

(** [Tensor::validateShape]. *)
Definition validateShape {S} (shape : list N) : St S unit :=
  match shape with
  | [] => throw InvalidShape
  | _ => if existsb (fun dim => (dim =? 0)%N) shape then throw InvalidShape else ret tt
  end.

(** [Tensor::Tensor()]. *)
Definition Tensor_default : Tensor :=
  {| shape_ := []; total_size_ := 0; dtype_ := FLOAT32; data_ := None |}.

(** [Tensor::Tensor(const std::vector<size_t>& shape, DataType dtype)]. *)
Definition Tensor_new (shape : list N) (dtype : DataType) : M Tensor :=
  validateShape shape >>
  let total_size := calculateTotalSize shape in
  let* data := make_unique total_size in
  ret {| shape_ := shape; total_size_ := total_size; dtype_ := dtype; data_ := data |}.

(** [Tensor::Tensor(shape, data, dtype)]. *)
Definition Tensor_new_data (shape : list N) (values : list float32) (dtype : DataType)
  : M Tensor :=
  validateShape shape >>
  let total_size := calculateTotalSize shape in
  if decide (N.of_nat (length values) = total_size) then
    let* data := make_unique total_size in
    store_range data values >>
    ret {| shape_ := shape; total_size_ := total_size; dtype_ := dtype; data_ := data |}
  else throw SizeMismatch.

(** [Tensor::~Tensor]: the buffer goes with its owner. *)
Definition Tensor_destroy (t : Tensor) : M unit := release (data_ t).

(** [Tensor::Tensor(const Tensor& other)]. *)
Definition Tensor_copy (other : Tensor) : M Tensor :=
  let* data := make_unique (total_size_ other) in
  let* values := load_range (data_ other) (total_size_ other) in
  store_range data values >>
  ret {| shape_ := shape_ other; total_size_ := total_size_ other;
         dtype_ := dtype_ other; data_ := data |}.

(** [Tensor::operator=(const Tensor& other)] for [this != &other]; a
    self-assignment changes nothing. The new array is allocated before the
    old one is released. *)
Definition Tensor_copy_assign (self other : Tensor) : M Tensor :=
  let* data := make_unique (total_size_ other) in
  release (data_ self) >>
  let* values := load_range (data_ other) (total_size_ other) in
  store_range data values >>
  ret {| shape_ := shape_ other; total_size_ := total_size_ other;
         dtype_ := dtype_ other; data_ := data |}.

(** What a move leaves behind in [other]: [shape_] and [data_] were moved
    from and are empty, [total_size_] and [dtype_] were only read. *)
Definition moved_from (other : Tensor) : Tensor :=
  {| shape_ := []; total_size_ := total_size_ other;
     dtype_ := dtype_ other; data_ := None |}.

(** [Tensor::Tensor(Tensor&& other) noexcept]: the new tensor and what is
    left of [other]. *)
Definition Tensor_move (other : Tensor) : Tensor * Tensor :=
  ({| shape_ := shape_ other; total_size_ := total_size_ other;
      dtype_ := dtype_ other; data_ := data_ other |},
   moved_from other).

(** [Tensor::operator=(Tensor&& other) noexcept] for [this != &other]: the
    assigned tensor and what is left of [other]; the array [self] owned is
    released. *)
Definition Tensor_move_assign (self other : Tensor) : M (Tensor * Tensor) :=
  release (data_ self) >>
  ret ({| shape_ := shape_ other; total_size_ := total_size_ other;
          dtype_ := dtype_ other; data_ := data_ other |},
       moved_from other).

(** [static_cast<int>(n)] for a [size_t] [n]. *)
Definition int_of_size_t (n : N) : Z :=
  ((Z.of_N n + 2 ^ 31) mod 2 ^ 32 - 2 ^ 31)%Z.

(** The second loop of [calculateIndex], from the last index down to the
    first: one step for index [i] and dimension [d]. *)
Definition index_step (acc : N * N) (id : N * N) : N * N :=
  let '(index, multiplier) := acc in
  let '(i, d) := id in
  (wrap64 (index + wrap64 (i * multiplier)), wrap64 (multiplier * d)).

(** [Tensor::calculateIndex]. *)
Definition calculateIndex {S} (t : Tensor) (indices : list N) : St S N :=
  if decide (length indices = length (shape_ t)) then
    if existsb (fun id => (snd id <=? fst id)%N) (zip indices (shape_ t))
    then throw OutOfRange
    else
      let n := Z.to_nat (int_of_size_t (N.of_nat (length indices))) in
      ret (fst (fold_left index_step (rev (take n (zip indices (shape_ t)))) (0%N, 1%N)))
  else throw InvalidArgument.

(** [Tensor::at] read through: [t.at(indices)] as an rvalue. *)
Definition Tensor_at (t : Tensor) (indices : list N) : M float32 :=
  let* idx := calculateIndex t indices in
  load (data_ t) idx.

(** [Tensor::at] written through: [t.at(indices) = v]. *)
Definition Tensor_at_put (t : Tensor) (indices : list N) (v : float32) : M unit :=
  let* idx := calculateIndex t indices in
  store (data_ t) idx v.

(** [Tensor::reshape]: the tensor after the call. *)
Definition Tensor_reshape {S} (t : Tensor) (new_shape : list N) : St S Tensor :=
  let new_total_size := accumulate_product new_shape in
  if decide (new_total_size = total_size_ t) then
    ret {| shape_ := new_shape; total_size_ := total_size_ t;
           dtype_ := dtype_ t; data_ := data_ t |}
  else throw InvalidArgument.

(** The loops of [operator+=], [operator-=] and [operator*=]:
    [data_[i] = data_[i] op other.data_[i]] for [i < total_size_]. *)
Definition elementwise (op : float32 -> float32 -> float32) (self other : Tensor)
  : M unit :=
  for_each (total_size_ self)
    (fun i =>
       let* a := load (data_ self) i in
       let* b := load (data_ other) i in
       store (data_ self) i (op a b)).

Definition Tensor_add_assign (self other : Tensor) : M unit :=
  if decide (shape_ self = shape_ other) then elementwise f32_add self other
  else throw ShapeMismatch.

Definition Tensor_sub_assign (self other : Tensor) : M unit :=
  if decide (shape_ self = shape_ other) then elementwise f32_sub self other
  else throw ShapeMismatch.

Definition Tensor_mul_assign (self other : Tensor) : M unit :=
  if decide (shape_ self = shape_ other) then elementwise f32_mul self other
  else throw ShapeMismatch.

(** The body of the loop of [operator/=]:
    [if (other.data_[i] == 0.0f) throw ...; data_[i] /= other.data_[i];]. *)
Definition div_body (self other : Tensor) (i : N) : M unit :=
  let* b := load (data_ other) i in
  if f32_eqb b f32_zero then throw DivisionByZero
  else
    let* a := load (data_ self) i in
    store (data_ self) i (f32_div a b).

(** [Tensor::operator/=]. *)
Definition Tensor_div_assign (self other : Tensor) : M unit :=
  if decide (shape_ self = shape_ other) then
    for_each (total_size_ self) (div_body self other)
  else throw ShapeMismatch.

(** The binary operators: [Tensor result(lhs); result op= rhs; return result;].
    When [op=] throws, [result] is destroyed on the way out. *)
Definition binary_operator (op_assign : Tensor -> Tensor -> M unit) (lhs rhs : Tensor)
  : M Tensor :=
  let* result := Tensor_copy lhs in
  on_throw (op_assign result rhs) (Tensor_destroy result) >>
  ret result.

Definition Tensor_add : Tensor -> Tensor -> M Tensor := binary_operator Tensor_add_assign.
Definition Tensor_sub : Tensor -> Tensor -> M Tensor := binary_operator Tensor_sub_assign.
Definition Tensor_mul : Tensor -> Tensor -> M Tensor := binary_operator Tensor_mul_assign.
Definition Tensor_div : Tensor -> Tensor -> M Tensor := binary_operator Tensor_div_assign.

(** [v[i]] on a [std::vector<size_t>], unchecked. *)
Definition vector_at {S} (v : list N) (i : nat) : St S N :=
  match v !! i with
  | Some d => ret d
  | None => throw UndefinedBehavior
  end.

(** ** TensorOps (tensor_ops.h, tensor_ops.cpp) *)

(** The innermost loop of [matmul]:
    [sum = 0.0f; for (k < n) sum += tensor1.at({i, k}) * tensor2.at({k, j})]. *)
Definition matmul_cell (tensor1 tensor2 : Tensor) (n i j : N) : M float32 :=
  for_range n
    (fun k sum =>
       let* a := Tensor_at tensor1 [i; k] in
       let* b := Tensor_at tensor2 [k; j] in
       ret (f32_add sum (f32_mul a b)))
    f32_zero.

(** [TensorOps::matmul(tensor1, tensor2, result)], over the world and
    [result]. [result] must not be one of the operands. *)
Definition matmul (tensor1 tensor2 : Tensor) : St (World * Tensor) unit :=
  if decide (rank tensor1 <> 2%N \/ rank tensor2 <> 2%N) then throw InvalidRank
  else
    let shape1 := shape tensor1 in
    let shape2 := shape tensor2 in
    let* s11 := vector_at shape1 1 in
    let* s20 := vector_at shape2 0 in
    if decide (s11 <> s20) then throw DimensionMismatch
    else
      let* m := vector_at shape1 0 in
      let* n := vector_at shape1 1 in
      let* p := vector_at shape2 1 in
      (* result = Tensor({m, p}); the temporary is left empty and its
         destructor has nothing to release *)
      let* fresh_result := lift (Tensor_new [m; p] FLOAT32) in
      let* old_result := self in
      let* moved := lift (Tensor_move_assign old_result fresh_result) in
      set_self (fst moved) >>
      let* result := self in
      lift
        (for_each m (fun i =>
           for_each p (fun j =>
             let* sum := matmul_cell tensor1 tensor2 n i j in
             Tensor_at_put result [i; j] sum))).

(** The body of the loop of [relu]:
    [if (tensor.data()[i] < 0.0f) tensor.data()[i] = 0.0f;]. *)
Definition relu_body (tensor : Tensor) (i : N) : M unit :=
  let* x := load (data tensor) i in
  if f32_ltb x f32_zero then store (data tensor) i f32_zero else ret tt.

(** [TensorOps::relu]. *)
Definition relu (tensor : Tensor) : M unit :=
  for_each (size tensor) (relu_body tensor).

(** [TensorOps::sigmoid]. *)
Definition sigmoid `{Platform} (tensor : Tensor) : M unit :=
  for_each (size tensor)
    (fun i =>
       let* x := load (data tensor) i in
       store (data tensor) i
         (f32_div f32_one (f32_add f32_one (std_exp (f32_neg x))))).

(** [TensorOps::softmax]. *)
Definition softmax `{Platform} (tensor : Tensor) : M unit :=
  if decide (size tensor = 0%N) then throw EmptyInput
  else
    let* first := load (data tensor) 0 in
    let* max_val :=
      for_loop (N.to_nat (size tensor) - 1) 1%N
        (fun i max_val =>
           let* x := load (data tensor) i in
           ret (f32_max max_val x))
        first in
    let* sum :=
      for_range (size tensor)
        (fun i sum =>
           let* x := load (data tensor) i in
           store (data tensor) i (std_exp (f32_sub x max_val)) >>
           let* e := load (data tensor) i in
           ret (f32_add sum e))
        f32_zero in
    let inverse_sum := f32_div f32_one sum in
    for_each (size tensor)
      (fun i =>
         let* x := load (data tensor) i in
         store (data tensor) i (f32_mul x inverse_sum)).

(** ** Layers and Model (model_loader.h, model_loader.cpp) *)

Inductive Layer :=
| LinearLayer (weights_ bias_ : Tensor)
| ReLULayer
| SigmoidLayer
| SoftmaxLayer.

Definition getType (l : Layer) : LayerType :=
  match l with
  | LinearLayer _ _ => LINEAR
  | ReLULayer => RELU
  | SigmoidLayer => SIGMOID
  | SoftmaxLayer => SOFTMAX
  end.

(** [~Layer]: a linear layer owns its two tensors; members go in reverse
    order of declaration. *)
Definition Layer_destroy (l : Layer) : M unit :=
  match l with
  | LinearLayer weights_ bias_ => Tensor_destroy bias_ >> Tensor_destroy weights_
  | _ => ret tt
  end.

(** [LinearLayer::LinearLayer(weights, bias)]: the members are copies of the
    arguments; when the body throws they are destroyed. *)
Definition LinearLayer_new (weights bias : Tensor) : M Layer :=
  let* weights_ := Tensor_copy weights in
  let* bias_ := on_throw (Tensor_copy bias) (Tensor_destroy weights_) in
  on_throw
    (if decide (rank weights <> 2%N) then throw InvalidRank
     else if decide (rank bias <> 1%N) then throw InvalidRank
     else
       let* w1 := vector_at (shape weights) 1 in
       let* b0 := vector_at (shape bias) 0 in
       if decide (w1 <> b0) then throw DimensionMismatch else ret tt)
    (Layer_destroy (LinearLayer weights_ bias_)) >>
  ret (LinearLayer weights_ bias_).

(** [LinearLayer::forward(input, output)], over the world and [output]. *)
Definition LinearLayer_forward (weights_ bias_ : Tensor) (input : Tensor)
  : St (World * Tensor) unit :=
  if decide (rank input = 1%N) then
    let* in0 := vector_at (shape input) 0 in
    let* w0 := vector_at (shape weights_) 0 in
    if decide (in0 <> w0) then throw DimensionMismatch
    else
      let* input_2d := lift (Tensor_new [1%N; in0] FLOAT32) in
      on_throw
        ((* std::memcpy(input_2d.data(), input.data(), input.size() * sizeof(float)) *)
         let* values := lift (load_range (data input) (size input)) in
         lift (store_range (data input_2d) values) >>
         let* temp := with_local Tensor_default (matmul input_2d weights_) Tensor_destroy in
         let output_temp := fst temp in
         on_throw
           (let* w1 := vector_at (shape weights_) 1 in
            (* output = Tensor({weights_.shape()[1]}) *)
            let* fresh_output := lift (Tensor_new [w1] FLOAT32) in
            let* old_output := self in
            let* moved := lift (Tensor_move_assign old_output fresh_output) in
            set_self (fst moved) >>
            let* output := self in
            lift
              (for_each (size output) (fun i =>
                 let* a := load (data output_temp) i in
                 let* b := load (data bias_) i in
                 store (data output) i (f32_add a b))))
           (lift (Tensor_destroy output_temp)) >>
         lift (Tensor_destroy output_temp))
        (lift (Tensor_destroy input_2d)) >>
      lift (Tensor_destroy input_2d)
  else if decide (rank input = 2%N) then
    let* in1 := vector_at (shape input) 1 in
    let* w0 := vector_at (shape weights_) 0 in
    if decide (in1 <> w0) then throw DimensionMismatch
    else
      matmul input weights_ >>
      let* output := self in
      let* batch_size := vector_at (shape output) 0 in
      let* output_features := vector_at (shape output) 1 in
      lift
        (for_each batch_size (fun batch =>
           for_each output_features (fun feature =>
             (* output.at({batch, feature}) += bias_.at({feature}) *)
             let* b := Tensor_at bias_ [feature] in
             let* x := Tensor_at output [batch; feature] in
             Tensor_at_put output [batch; feature] (f32_add x b))))
  else throw InvalidRank.

(** [output = input;] for two distinct tensors, over the world and [output]. *)
Definition assign_output (input : Tensor) : St (World * Tensor) unit :=
  let* old_output := self in
  let* output := lift (Tensor_copy_assign old_output input) in
  set_self output.

(** [ReLULayer::forward], [SigmoidLayer::forward], [SoftmaxLayer::forward]. *)
Definition ReLULayer_forward (input : Tensor) : St (World * Tensor) unit :=
  assign_output input >>
  let* output := self in
  lift (relu output).

Definition SigmoidLayer_forward `{Platform} (input : Tensor) : St (World * Tensor) unit :=
  assign_output input >>
  let* output := self in
  lift (sigmoid output).

Definition SoftmaxLayer_forward `{Platform} (input : Tensor) : St (World * Tensor) unit :=
  assign_output input >>
  let* output := self in
  lift (softmax output).

(** The virtual call [layer->forward(input, output)]. *)
Definition forward `{Platform} (l : Layer) (input : Tensor) : St (World * Tensor) unit :=
  match l with
  | LinearLayer weights_ bias_ => LinearLayer_forward weights_ bias_ input
  | ReLULayer => ReLULayer_forward input
  | SigmoidLayer => SigmoidLayer_forward input
  | SoftmaxLayer => SoftmaxLayer_forward input
  end.

Record Model := mkModel {
  layers_ : list Layer;          (* std::vector<std::unique_ptr<Layer>> *)
  input_shape_ : list N;
  output_shape_ : list N
}.

(** [Model::Model()]. *)
Definition Model_default : Model :=
  {| layers_ := []; input_shape_ := []; output_shape_ := [] |}.

(** [Model::addLayer]; the argument is a [unique_ptr] and may be null. *)
Definition addLayer {S} (layer : option Layer) : St (S * Model) unit :=
  match layer with
  | None => throw NullLayer
  | Some l =>
      let* model := self in
      set_self {| layers_ := layers_ model ++ [l];
                  input_shape_ := input_shape_ model;
                  output_shape_ := output_shape_ model |}
  end.

Definition getLayers (m : Model) : list Layer := layers_ m.
Definition getInputShape (m : Model) : list N := input_shape_ m.
Definition getOutputShape (m : Model) : list N := output_shape_ m.

Definition setInputShape {S} (shape : list N) : St (S * Model) unit :=
  let* model := self in
  set_self {| layers_ := layers_ model; input_shape_ := shape;
              output_shape_ := output_shape_ model |}.

Definition setOutputShape {S} (shape : list N) : St (S * Model) unit :=
  let* model := self in
  set_self {| layers_ := layers_ model; input_shape_ := input_shape_ model;
              output_shape_ := shape |}.

(** [~Model]: every layer is destroyed. *)
Definition Model_destroy (m : Model) : M unit :=
  fold_right (fun l rest => Layer_destroy l >> rest) (ret tt) (layers_ m).

(** ** ModelLoader (model_loader.h, model_loader.cpp) *)

(** [ModelFormat]. *)
Definition MAGIC_NUMBER : N := 0x4E4E494D.
Definition VERSION_MAJOR : N := 1.
Definition VERSION_MINOR : N := 0.

Record Header := mkHeader {
  magic : N;            (* uint32_t *)
  version_major : N;    (* uint16_t *)
  version_minor : N;    (* uint16_t *)
  num_layers : N;       (* uint32_t *)
  reserved : N          (* uint32_t *)
}.

(** An open [std::ifstream] in binary mode: the bytes not read yet. *)
Definition ifstream : Type := list byte.

(** The value of an unsigned integer stored least significant byte first. *)
Definition le_decode (bs : list byte) : N :=
  fold_right (fun b acc => (Byte.to_N b + 256 * acc)%N) 0%N bs.

(** [file.read(buffer, n); if (!file.good()) throw ...]: the [n] bytes read.
    A read that finds fewer than [n] bytes takes what is left, sets the
    fail bit and the caller throws. *)
Definition read_bytes (n : N) : St (World * ifstream) (list byte) :=
  fun s =>
    let file := snd s in
    if decide (N.to_nat n <= length file)
    then ((fst s, drop (N.to_nat n) file), Ok (take (N.to_nat n) file))
    else ((fst s, []), Err TruncatedFile).

(** [ModelLoader::readBinary<T>] at [uint8_t], [uint32_t] and [Header]. *)
Definition readBinary_u8 : St (World * ifstream) N :=
  let* bs := read_bytes 1 in ret (le_decode bs).

Definition readBinary_u32 : St (World * ifstream) N :=
  let* bs := read_bytes 4 in ret (le_decode bs).

Definition readBinary_Header : St (World * ifstream) Header :=
  let* bs := read_bytes 16 in
  ret {| magic := le_decode (take 4 bs);
         version_major := le_decode (take 2 (drop 4 bs));
         version_minor := le_decode (take 2 (drop 6 bs));
         num_layers := le_decode (take 4 (drop 8 bs));
         reserved := le_decode (take 4 (drop 12 bs)) |}.

(** [ModelLoader::validateHeader]. *)
Definition validateHeader {S} (header : Header) : St S unit :=
  if decide (magic header <> MAGIC_NUMBER) then throw FormatError
  else if decide (version_major header <> VERSION_MAJOR) then throw UnsupportedVersion
  else if decide (num_layers header = 0%N) then throw EmptyModel
  else if decide (1000 < num_layers header)%N then throw TooManyLayers
  else ret tt.

(** [std::vector<size_t> v(rank); for (i < rank) { readBinary(file, dim); v[i] = dim; }]. *)
Definition read_dims (rank : N) : St (World * ifstream) (list N) :=
  for_range rank
    (fun i v => let* dim := readBinary_u32 in ret (<[N.to_nat i := dim]> v))
    (replicate (N.to_nat rank) 0%N).

(** [static_cast<DataType>(dtype_raw)]. *)
Definition DataType_of_raw (raw : N) : DataType :=
  match raw with
  | 0%N => FLOAT32
  | 1%N => INT8
  | 2%N => INT4
  | _ => DataType_raw raw
  end.

(** The floats stored in a run of bytes, four bytes each. *)
Fixpoint floats_of_bytes (bs : list byte) : list float32 :=
  match bs with
  | b0 :: b1 :: b2 :: b3 :: rest =>
      f32_of_bits (Z.of_N (le_decode [b0; b1; b2; b3])) :: floats_of_bytes rest
  | _ => []
  end.

(** [ModelLoader::loadTensor]. *)
Definition loadTensor : St (World * ifstream) Tensor :=
  let* dtype_raw := readBinary_u8 in
  let dtype := DataType_of_raw dtype_raw in
  let* rank := readBinary_u32 in
  if decide (rank = 0%N \/ (8 < rank)%N) then throw InvalidRank
  else
    let* shape := read_dims rank in
    let* tensor := lift (Tensor_new shape dtype) in
    on_throw
      (if decide (dtype <> FLOAT32) then throw UnsupportedDType
       else
         (* file.read(tensor.data(), tensor.size() * sizeof(float)) *)
         let* bs := read_bytes (wrap64 (size tensor * 4)) in
         lift (store_range (data tensor) (floats_of_bytes bs)))
      (lift (Tensor_destroy tensor)) >>
    ret tensor.

(** [ModelLoader::loadLayer]; the result is never a null pointer. *)
Definition loadLayer : St (World * ifstream) Layer :=
  let* layer_type_raw := readBinary_u8 in
  match layer_type_raw with
  | 0%N =>
      let* weights := loadTensor in
      let* bias := on_throw loadTensor (lift (Tensor_destroy weights)) in
      let* layer :=
        on_throw (lift (LinearLayer_new weights bias))
          (lift (Tensor_destroy bias >> Tensor_destroy weights)) in
      lift (Tensor_destroy bias >> Tensor_destroy weights) >>
      ret layer
  | 1%N => ret ReLULayer
  | 2%N => ret SigmoidLayer
  | 3%N => ret SoftmaxLayer
  | _ => throw UnknownLayerType
  end.

(** The body of the [try] block of [loadFromFile]. *)
Definition loadFromFile_body : St (World * ifstream) Model :=
  let* header := readBinary_Header in
  validateHeader header >>
  let* model :=
    for_range (num_layers header)
      (fun i model =>
         let* layer := on_throw loadLayer (lift (Model_destroy model)) in
         let* added := with_local model (addLayer (Some layer)) Model_destroy in
         ret (fst added))
      Model_default in
  on_throw
    (let* input_rank := readBinary_u32 in
     let* input_shape := read_dims input_rank in
     let* output_rank := readBinary_u32 in
     let* output_shape := read_dims output_rank in
     let* set := with_local model
                   (setInputShape input_shape >> setOutputShape output_shape)
                   (fun _ => ret tt) in
     ret (fst set))
    (lift (Model_destroy model)).

(** [ModelLoader::loadFromFile(filepath)], given what is found at
    [filepath]: [None] when the file cannot be opened, its bytes otherwise.
    The stream is a local and is closed on the way out. *)
Definition loadFromFile (found : option (list byte)) : M Model :=
  match found with
  | None => throw OpenFailed
  | Some bytes =>
      catch_wrap
        (fun w => match loadFromFile_body (w, bytes) with
                  | ((w', _), r) => (w', r)
                  end)
        LoadFailed
  end.

(** ** InferenceEngine (inference_engine.h, inference_engine.cpp) *)

(** Durations are counted in clock ticks: the difference of two readings
    of the clock. *)
Record InferenceStats := mkStats {
  total_time : Z;
  layer_times : list Z;
  memory_usage_bytes : N
}.

(** [InferenceStats{}]. *)
Definition InferenceStats_default : InferenceStats :=
  {| total_time := 0; layer_times := []; memory_usage_bytes := 0 |}.

Record InferenceEngine := mkEngine {
  model_ : Model;
  profiling_enabled_ : bool;
  last_stats_ : InferenceStats;
  intermediate_tensors_ : list Tensor;
  buffers_allocated_ : bool
}.

Definition set_last_stats (stats : InferenceStats) (e : InferenceEngine) : InferenceEngine :=
  {| model_ := model_ e; profiling_enabled_ := profiling_enabled_ e;
     last_stats_ := stats; intermediate_tensors_ := intermediate_tensors_ e;
     buffers_allocated_ := buffers_allocated_ e |}.

(** [InferenceEngine::InferenceEngine(std::unique_ptr<Model> model)]; when
    the body throws, the member [model_] is destroyed. *)
Definition InferenceEngine_new (model : option Model) : M InferenceEngine :=
  match model with
  | None => throw NullModel
  | Some m =>
      on_throw
        (if decide (getLayers m = []) then throw EmptyModel
         else if decide (getInputShape m = [] \/ getOutputShape m = [])
              then throw UndeclaredShapes
              else ret tt)
        (Model_destroy m) >>
      ret {| model_ := m; profiling_enabled_ := false;
             last_stats_ := InferenceStats_default;
             intermediate_tensors_ := []; buffers_allocated_ := false |}
  end.

(** [enableProfiling] and [getLastInferenceStats] of the header. *)
Definition enableProfiling (enable : bool) (e : InferenceEngine) : InferenceEngine :=
  {| model_ := model_ e; profiling_enabled_ := enable;
     last_stats_ := last_stats_ e; intermediate_tensors_ := intermediate_tensors_ e;
     buffers_allocated_ := buffers_allocated_ e |}.

Definition getLastInferenceStats (e : InferenceEngine) : InferenceStats := last_stats_ e.

(** [std::chrono::high_resolution_clock::now()]. *)
Definition now `{Platform} {T} : St (World * T) Z :=
  fun s =>
    let w := fst s in
    (({| w_heap := w_heap w; w_ticks := S (w_ticks w);
         w_alloc_limit := w_alloc_limit w |}, snd s),
     Ok (clock_now (w_ticks w))).

(** [InferenceEngine::validateInput]. *)
Definition validateInput {S} (e : InferenceEngine) (input : Tensor) : St S unit :=
  let expected_shape := getInputShape (model_ e) in
  if decide (rank input <> N.of_nat (length expected_shape)) then throw ShapeMismatch
  else
    let input_shape := shape input in
    if existsb (fun d => negb (fst d =? snd d)%N) (zip input_shape expected_shape)
    then throw ShapeMismatch
    else if decide (dtype input <> FLOAT32) then throw UnsupportedDType
    else ret tt.

(** [InferenceEngine::updateMemoryUsage]. *)
Definition updateMemoryUsage (e : InferenceEngine) : InferenceEngine :=
  let linear_bytes :=
    fold_left
      (fun total_bytes layer =>
         match getType layer with
         | LINEAR => wrap64 (total_bytes + 1000000)
         | _ => total_bytes
         end)
      (getLayers (model_ e)) 0%N in
  let total_bytes :=
    fold_left
      (fun total_bytes tensor => wrap64 (total_bytes + wrap64 (size tensor * 4)))
      (intermediate_tensors_ e) linear_bytes in
  set_last_stats
    {| total_time := total_time (last_stats_ e);
       layer_times := layer_times (last_stats_ e);
       memory_usage_bytes := total_bytes |} e.

(** One turn of the loop of [executeForwardPass], over the world, the
    engine and [output]; the locals [current_input] and [layer_output] are
    carried from turn to turn. *)
Definition run_layer `{Platform} (i : N) (locals : Tensor * Tensor)
  : St (World * (InferenceEngine * Tensor)) (Tensor * Tensor) :=
  let current_input := fst locals in
  let layer_output := snd locals in
  let* this := self in
  let engine := fst this in
  match getLayers (model_ engine) !! N.to_nat i with
  | None => throw UndefinedBehavior
  | Some layer =>
      let* layer_start := now in
      on_throw
        (catch_wrap
           (let* ran := with_local layer_output (forward layer current_input)
                          Tensor_destroy in
            let layer_output := fst ran in
            (if profiling_enabled_ engine then
               let* layer_end := now in
               let stats := last_stats_ engine in
               if decide (N.to_nat i < length (layer_times stats)) then
                 let* this := self in
                 set_self
                   (set_last_stats
                      {| total_time := total_time (last_stats_ (fst this));
                         layer_times :=
                           <[N.to_nat i := (layer_end - layer_start)%Z]>
                             (layer_times (last_stats_ (fst this)));
                         memory_usage_bytes := memory_usage_bytes (last_stats_ (fst this)) |}
                      (fst this),
                    snd this)
               else throw UndefinedBehavior
             else ret tt) >>
            (* current_input = std::move(layer_output); layer_output = Tensor(); *)
            let* moved := lift (Tensor_move_assign current_input layer_output) in
            let* cleared := lift (Tensor_move_assign (snd moved) Tensor_default) in
            ret (fst moved, fst cleared))
           (LayerExecutionError (N.to_nat i) (getType layer)))
        (lift (Tensor_destroy current_input))
  end.

(** [InferenceEngine::executeForwardPass(input, output)]. *)
Definition executeForwardPass `{Platform} (input : Tensor)
  : St (World * (InferenceEngine * Tensor)) unit :=
  let* this := self in
  let layers := getLayers (model_ (fst this)) in
  let* current_input := lift (Tensor_copy input) in
  let layer_output := Tensor_default in
  let* locals :=
    for_range (N.of_nat (length layers)) run_layer (current_input, layer_output) in
  (* output = std::move(current_input); the locals hold nothing any more *)
  let* this := self in
  let* moved := lift (Tensor_move_assign (snd this) (fst locals)) in
  set_self (fst this, fst moved) >>
  let expected_output_shape := getOutputShape (model_ (fst this)) in
  if decide (shape (fst moved) <> expected_output_shape) then throw OutputShapeMismatch
  else ret tt.

(** [InferenceEngine::predict]. *)
Definition predict `{Platform} (input : Tensor) : St (World * InferenceEngine) Tensor :=
  let* start_time := now in
  let* this := self in
  (if profiling_enabled_ this then
     set_self
       (set_last_stats
          {| total_time := 0;
             layer_times := replicate (length (getLayers (model_ this))) 0%Z;
             memory_usage_bytes := 0 |} this)
   else ret tt) >>
  let* this := self in
  validateInput this input >>
  let* ran := with_out Tensor_default (executeForwardPass input) Tensor_destroy in
  let output := fst ran in
  let* this := self in
  (if profiling_enabled_ this then
     let* end_time := now in
     set_self
       (updateMemoryUsage
          (set_last_stats
             {| total_time := (end_time - start_time)%Z;
                layer_times := layer_times (last_stats_ this);
                memory_usage_bytes := memory_usage_bytes (last_stats_ this) |} this))
   else ret tt) >>
  ret output.

(** [~Tensor] on every element of a [std::vector<Tensor>]. *)
Definition destroy_tensors (ts : list Tensor) : M unit :=
  fold_right (fun t rest => Tensor_destroy t >> rest) (ret tt) ts.

(** [InferenceEngine::predictBatch]; the outputs gathered so far are
    destroyed when a later call throws. *)
Definition predictBatch `{Platform} (inputs : list Tensor)
  : St (World * InferenceEngine) (list Tensor) :=
  match inputs with
  | [] => throw EmptyBatch
  | _ =>
      fold_left
        (fun acc input =>
           let* outputs := acc in
           let* output := on_throw (predict input) (lift (destroy_tensors outputs)) in
           ret (outputs ++ [output]))
        inputs (ret [])
  end.

(** [preallocateBuffers] and [clearBuffers]. *)
Definition preallocateBuffers : St (World * InferenceEngine) unit :=
  let* this := self in
  if buffers_allocated_ this then ret tt
  else
    lift (destroy_tensors (intermediate_tensors_ this)) >>
    set_self
      {| model_ := model_ this; profiling_enabled_ := profiling_enabled_ this;
         last_stats_ := last_stats_ this;
         intermediate_tensors_ :=
           replicate (length (getLayers (model_ this))) Tensor_default;
         buffers_allocated_ := true |}.

Definition clearBuffers : St (World * InferenceEngine) unit :=
  let* this := self in
  lift (destroy_tensors (intermediate_tensors_ this)) >>
  set_self
    {| model_ := model_ this; profiling_enabled_ := profiling_enabled_ this;
       last_stats_ := last_stats_ this; intermediate_tensors_ := [];
       buffers_allocated_ := false |}.

(** ** InferenceUtils (inference_engine.h, inference_engine.cpp) *)

Definition getNumLayers (e : InferenceEngine) : N :=
  N.of_nat (length (getLayers (model_ e))).

(** [InferenceUtils::normalizeInput(input, mean, std)]; a zero [std] is
    refused with [invalid_argument] (Standard deviation cannot be zero for
    normalization). The loop works on the copy and throws nothing. *)
Definition normalizeInput (input : Tensor) (mean std : float32) : M Tensor :=
  if f32_eqb std f32_zero then throw InvalidArgument
  else
    let* normalized := Tensor_copy input in
    for_each (size normalized)
      (fun i =>
         let* x := load (data normalized) i in
         store (data normalized) i (f32_div (f32_sub x mean) std)) >>
    ret normalized.

(** [InferenceUtils::preprocessImage(pixel_data, width, height, channels)];
    the product [width * height * channels] is computed in [size_t]. *)
Definition preprocessImage (pixel_data : list float32) (width height channels : N)
  : M Tensor :=
  if decide (N.of_nat (length pixel_data) <> wrap64 (wrap64 (width * height) * channels))
  then throw SizeMismatch
  else Tensor_new_data [height; width; channels] pixel_data FLOAT32.

(** [InferenceUtils::getArgMax(output)]: the index of the first element
    that no later element exceeds. [data[i] > max_val] is [max_val < data[i]]. *)
Definition getArgMax (output : Tensor) : M N :=
  if decide (rank output <> 1%N) then throw InvalidRank
  else if decide (size output = 0%N) then throw EmptyInput
  else
    let* first := load (data output) 0 in
    let* best :=
      for_loop (N.to_nat (size output) - 1) 1%N
        (fun i best =>
           let '(max_idx, max_val) := best in
           let* x := load (data output) i in
           if f32_ltb max_val x then ret (i, x) else ret (max_idx, max_val))
        (0%N, first) in
    ret (fst best).

(** [InferenceUtils::isValidModelFile(filepath)], given what is found at
    [filepath]: [file.read(&magic, 4); return file.good() && magic ==
    MAGIC_NUMBER;] on a file that opens. A read that finds fewer than four
    bytes leaves the stream not good. *)
Definition isValidModelFile (found : option (list byte)) : bool :=
  match found with
  | None => false
  | Some bytes =>
      if decide (4 <= length bytes)
      then (le_decode (take 4 bytes) =? MAGIC_NUMBER)%N
      else false
  end.

(** [InferenceUtils::validateTensorShape(tensor, expected_shape)]. *)
Definition validateTensorShape {S} (tensor : Tensor) (expected_shape : list N) : St S unit :=
  if decide (shape tensor <> expected_shape) then throw ShapeMismatch else ret tt.

(** ** Specification-level notions *)

(** The product of the dimensions of a shape, without wrap-around. *)
Definition product (dims : list N) : N := fold_right N.mul 1%N dims.

(** The row-major position of the specification:
    the sum over [i] of [indices[i]] times the product of [shape[j]], [j > i]. *)
Fixpoint row_major (indices shape : list N) : N :=
  match indices, shape with
  | i :: indices', _ :: shape' => (i * product shape' + row_major indices' shape')%N
  | _, _ => 0%N
  end.

(** The four invariants the specification states of a tensor. *)
Record Tensor_invariants (w : World) (t : Tensor) : Prop := {
  inv_shape_nonempty : shape_ t <> [];
  inv_dims_nonzero : Forall (fun d => d <> 0%N) (shape_ t);
  inv_total_size : total_size_ t = product (shape_ t);
  inv_buffer :
    exists a buf, data_ t = Some a /\ w_heap w !! a = Some buf /\
                  N.of_nat (length buf) = total_size_ t
}.

(** The array a tensor owns, when it is live in the heap. *)
Definition buffer_of (w : World) (t : Tensor) : option (list float32) :=
  match data_ t with
  | Some a => w_heap w !! a
  | None => None
  end.

(** A tensor as the constructors make it: the four invariants, an array
    that [new float[n]] can allocate in this world, and a rank that fits an
    [int]. *)
Record tensor_ok (w : World) (t : Tensor) : Prop := {
  ok_invariants : Tensor_invariants w t;
  ok_alloc : (total_size_ t <= max_array_len w)%N;
  ok_rank : (rank t < 2 ^ 31)%N
}.

(** A tensor that holds its elements: its buffer is a live array of as
    many floats as the product of its dimensions, a product that fits a
    [size_t], and its rank fits an [int]. A tensor made by a constructor
    with a shape has it, and so has a copy and a reshaped tensor, of rank 0
    too; a default-constructed or moved-from tensor, whose buffer is null,
    has not. *)
Record tensor_backed (w : World) (t : Tensor) : Prop := {
  backed_buffer :
    exists buf, buffer_of w t = Some buf /\
                N.of_nat (length buf) = product (shape_ t);
  backed_size : (product (shape_ t) < 2 ^ 64)%N;
  backed_rank : (rank t < 2 ^ 31)%N
}.

(** What [relu] makes of one element. *)
Definition relu_elem (x : float32) : float32 :=
  if f32_ltb x f32_zero then f32_zero else x.

(** The array of the left operand of [operator/=] after [j] turns of its
    loop: the first [j] elements are divided, the others are as they were. *)
Definition divided (bufA bufB : list float32) (j : nat) : list float32 :=
  take j (zip_with f32_div bufA bufB) ++ drop j bufA.

(** The world after [j] turns of that loop on the array at [a]. *)
Definition div_state (w : World) (a : nat) (bufA bufB : list float32) (j : nat) : World :=
  set_heap (<[a := divided bufA bufB j]> (w_heap w)) w.

(** The array at [a] after [j] turns of the loop of [relu]. *)
Definition relu_state (w : World) (a : nat) (buf : list float32) (j : nat) : World :=
  set_heap (<[a := take j (map relu_elem buf) ++ drop j buf]> (w_heap w)) w.

(** The indices [0, 1, ..., n-1] of a loop over [size_t]. *)
Definition N_range (n : N) : list N := map N.of_nat (seq 0 (N.to_nat n)).

(** Element [(i, j)] of a row-major matrix with [cols] columns stored in
    [buf]. *)
Definition mat_elem (buf : list float32) (cols i j : N) : float32 :=
  default f32_zero (buf !! N.to_nat (i * cols + j)).

(** The sum over [k < n] of [A[i,k] * B[k,j]], added up from [0.0f] in the
    order of [k], each product and each sum rounded to [float]. *)
Definition dot_product (bufA bufB : list float32) (n p i j : N) : float32 :=
  fold_left
    (fun sum k => f32_add sum (f32_mul (mat_elem bufA n i k) (mat_elem bufB p k j)))
    (N_range n) f32_zero.

(** The row-major contents of the product of an [m x n] by an [n x p]
    matrix. *)
Definition matmul_values (bufA bufB : list float32) (m n p : N) : list float32 :=
  map (fun c => dot_product bufA bufB n p (c / p) (c mod p)) (N_range (m * p)).

(** The row-major contents of the [n x n] identity matrix. *)
Definition identity_values (n : N) : list float32 :=
  map (fun c => if (c / n =? c mod n)%N then f32_one else f32_zero) (N_range (n * n)).

(** A float with the sign of a zero forgotten: [-0.0f] becomes [0.0f], any
    other float is itself. The two compare equal. *)
Definition unsigned_zero (x : float32) : float32 :=
  match x with
  | S754_zero _ => S754_zero false
  | _ => x
  end.

(** A value that a [float] holds: a finite float in canonical form, an
    infinity or a NaN. *)
Definition f32_valid (x : float32) : bool :=
  match x with
  | S754_finite _ m e => bounded f32_prec f32_emax m e
  | _ => true
  end.


(** The heap once the array behind [p] is released. *)
Definition released (p : option nat) (h : gmap nat (list float32))
  : gmap nat (list float32) :=
  match p with
  | Some a => delete a h
  | None => h
  end.

(** An array that can be released: null or live. *)
Definition releasable (w : World) (p : option nat) : Prop :=
  match p with
  | Some a => is_Some (w_heap w !! a)
  | None => True
  end.

(** The world in which the first [c] elements of the array at [q], which
    held [L], have been overwritten by those of [R]. *)
Definition fill_state (w : World) (q : nat) (R L : list float32) (c : nat) : World :=
  set_heap (<[q := take c R ++ drop c L]> (w_heap w)) w.

(** The world after [matmul] has computed the first [c] cells of the
    result, whose array is at [q]. *)
Definition matmul_progress (w : World) (q : nat) (bufA bufB : list float32)
    (m n p c : N) : World :=
  fill_state w q (matmul_values bufA bufB m n p)
    (replicate (N.to_nat (m * p)) f32_zero) (N.to_nat c).

(** Element [j] of a vector stored in [buf]. *)
Definition vec_elem (buf : list float32) (j : N) : float32 :=
  default f32_zero (buf !! N.to_nat j).

(** The row-major contents of the output of an affine layer on [batch]
    rows: element [(r, j)] is [(sum_i x[r,i] * W[i,j]) + b[j]]. *)
Definition affine_values (bufX bufW bufb : list float32) (batch in_f out_f : N)
  : list float32 :=
  map (fun c => f32_add (dot_product bufX bufW in_f out_f (c / out_f) (c mod out_f))
                        (vec_elem bufb (c mod out_f)))
      (N_range (batch * out_f)).

(** The members of a linear layer as its constructor leaves them: a weight
    of shape [[in_f; out_f]] and a bias of shape [[out_f]], each with the
    invariants of a tensor. *)
Record linear_ok (w : World) (weights_ bias_ : Tensor) (in_f out_f : N) : Prop := {
  lin_weights_shape : shape_ weights_ = [in_f; out_f];
  lin_bias_shape : shape_ bias_ = [out_f];
  lin_weights_ok : tensor_ok w weights_;
  lin_bias_ok : tensor_ok w bias_
}.

(** ** Scenarios *)

(** The world before anything is allocated, with memory for arrays of up
    to [2 ^ 20] floats. *)
Definition empty_world : World :=
  {| w_heap := ∅; w_ticks := 0; w_alloc_limit := 2 ^ 20 |}.

(** A function with an out-parameter called on a local tensor that is
    then handed back together with its contents. *)
Definition run_with_output (m : St (World * Tensor) unit) : M (Tensor * list float32) :=
  fun w =>
    match m (w, Tensor_default) with
    | ((w', output), Ok _) =>
        (let* values := load_range (data output) (size output) in
         ret (output, values)) w'
    | ((w', _), Err e) => (w', Err e)
    end.

(** The scenario of the specification: a linear layer with weight
    [[1,2,3],[4,5,6]] and bias [0.1,0.2,0.3] applied to the input [1,2]. *)
Definition affine_scenario : M (list N * list float32) :=
  let* weights := Tensor_new_data [2; 3]%N (map f32_of_Z [1; 2; 3; 4; 5; 6]%Z) FLOAT32 in
  let* bias :=
    Tensor_new_data [3%N] [f32_lit 1 10; f32_lit 2 10; f32_lit 3 10] FLOAT32 in
  let* layer := LinearLayer_new weights bias in
  let* input := Tensor_new_data [2%N] (map f32_of_Z [1; 2]%Z) FLOAT32 in
  match layer with
  | LinearLayer weights_ bias_ =>
      let* out := run_with_output (LinearLayer_forward weights_ bias_ input) in
      ret (shape (fst out), snd out)
  | _ => throw UndefinedBehavior
  end.

(** A computation over the engine and an out-parameter that leaves an
    engine with profiling disabled as it is, whatever else it does. *)
Definition engine_frame {A} (m : St (World * (InferenceEngine * Tensor)) A) : Prop :=
  forall w e o, profiling_enabled_ e = false ->
    exists w' o' r, m (w, (e, o)) = ((w', (e, o')), r).

(** The header stored in the first 16 bytes of a model file. *)
Definition header_of (bytes : list byte) : Header :=
  {| magic := le_decode (take 4 bytes);
     version_major := le_decode (take 2 (drop 4 bytes));
     version_minor := le_decode (take 2 (drop 6 bytes));
     num_layers := le_decode (take 4 (drop 8 bytes));
     reserved := le_decode (take 4 (drop 12 bytes)) |}.

(** A computation over an open stream reads a run of bytes from its front
    and nothing else of it: with another tail it does the same, and cut
    short inside that run it fails with TruncatedFile. *)
Definition reads_front {A} (m : St (World * ifstream) A) : Prop :=
  forall w bytes w' rest a,
    m (w, bytes) = ((w', rest), Ok a) ->
    exists used,
      bytes = used ++ rest /\
      (forall rest2, m (w, used ++ rest2) = ((w', rest2), Ok a)) /\
      (forall k, k < length used ->
         exists w'' rest'', m (w, take k used) = ((w'', rest''), Err TruncatedFile)).

(** The same of a computation that throws: it has read a run of bytes from
    the front of the stream (all of it, when a read found too few bytes),
    and cut short inside that run it fails with TruncatedFile. *)
Definition fails_front {A} (m : St (World * ifstream) A) : Prop :=
  forall w bytes w' rest e,
    m (w, bytes) = ((w', rest), Err e) ->
    exists used,
      bytes = used ++ rest /\
      (forall k, k < length used ->
         exists w'' rest'', m (w, take k used) = ((w'', rest''), Err TruncatedFile)).

(** The number of bytes of a file that [loadFromFile] has read when it
    returns or throws. *)
Definition bytes_read (bytes : list byte) (w : World) : nat :=
  length bytes - length (snd (fst (loadFromFile_body (w, bytes)))).

(** A tensor of shape [[2; 3]] holding 1, ..., 6, as
    [Tensor({2, 3}, {1, 2, 3, 4, 5, 6})] builds it in the empty world. *)
Definition example_world : World :=
  {| w_heap := {[ 0 := map f32_of_Z [1; 2; 3; 4; 5; 6]%Z ]};
     w_ticks := 0; w_alloc_limit := 2 ^ 20 |}.

Definition example_tensor : Tensor :=
  {| shape_ := [2; 3]%N; total_size_ := 6; dtype_ := FLOAT32; data_ := Some 0 |}.

(** A platform whose clock advances by one tick at every reading. The
    scenarios below have no sigmoid and no softmax layer and never call its
    [std_exp]. *)
Definition ticking_platform : Platform :=
  {| std_exp := fun x => x; clock_now := fun k => Z.of_nat k |}.

(** The engine of the fixture of the tests: a linear layer with weight
    [[1,2,3],[4,5,6]] and bias [0.1,0.2,0.3] followed by a ReLU layer,
    input shape [[2]], output shape [[3]]. *)
Definition fixture_engine : M InferenceEngine :=
  let* weights := Tensor_new_data [2; 3]%N (map f32_of_Z [1; 2; 3; 4; 5; 6]%Z) FLOAT32 in
  let* bias :=
    Tensor_new_data [3%N] [f32_lit 1 10; f32_lit 2 10; f32_lit 3 10] FLOAT32 in
  let* linear := LinearLayer_new weights bias in
  Tensor_destroy bias >>
  Tensor_destroy weights >>
  InferenceEngine_new
    (Some {| layers_ := [linear; ReLULayer]; input_shape_ := [2%N];
             output_shape_ := [3%N] |}).

(** Two calls of [predict] on that engine, the first with profiling
    enabled, the second with profiling disabled; the statistics read after
    each call. *)
Definition stale_stats_scenario : M (InferenceStats * InferenceStats) :=
  let* engine := fixture_engine in
  let* input := Tensor_new_data [2%N] (map f32_of_Z [1; 2]%Z) FLOAT32 in
  fun w =>
    match @predict ticking_platform input (w, enableProfiling true engine) with
    | ((w1, engine1), Ok output1) =>
        match @predict ticking_platform input (w1, enableProfiling false engine1) with
        | ((w2, engine2), Ok output2) =>
            (w2, Ok (getLastInferenceStats engine1, getLastInferenceStats engine2))
        | ((w2, _), Err e) => (w2, Err e)
        end
    | ((w1, _), Err e) => (w1, Err e)
    end.

(** A world with a [2 x 2] matrix [[1,2],[3,4]] at address 0 and the
    [2 x 2] identity at address 1. *)
Definition matrix_world : World :=
  {| w_heap := {[ 0 := map f32_of_Z [1; 2; 3; 4]%Z; 1 := identity_values 2 ]};
     w_ticks := 0; w_alloc_limit := 2 ^ 20 |}.

Definition matrix_A : Tensor :=
  {| shape_ := [2; 2]%N; total_size_ := 4; dtype_ := FLOAT32; data_ := Some 0 |}.

Definition matrix_I : Tensor :=
  {| shape_ := [2; 2]%N; total_size_ := 4; dtype_ := FLOAT32; data_ := Some 1 |}.



(** A world with the weight [[1,2,3],[4,5,6]] at address 0, the bias
    [0.1,0.2,0.3] at address 1 and the input [1,2] at address 2. *)
Definition affine_world : World :=
  {| w_heap := {[ 0 := map f32_of_Z [1; 2; 3; 4; 5; 6]%Z;
                  1 := [f32_lit 1 10; f32_lit 2 10; f32_lit 3 10];
                  2 := map f32_of_Z [1; 2]%Z ]};
     w_ticks := 0; w_alloc_limit := 2 ^ 20 |}.

Definition affine_weights : Tensor :=
  {| shape_ := [2; 3]%N; total_size_ := 6; dtype_ := FLOAT32; data_ := Some 0 |}.

Definition affine_bias : Tensor :=
  {| shape_ := [3%N]; total_size_ := 3; dtype_ := FLOAT32; data_ := Some 1 |}.

Definition affine_input : Tensor :=
  {| shape_ := [2%N]; total_size_ := 2; dtype_ := FLOAT32; data_ := Some 2 |}.

(** A world with the dividend [2,2,3,4] at address 0 and the divisor
    [2,0,3,4] at address 1, both of shape [[2; 2]]. *)
Definition division_world : World :=
  {| w_heap := {[ 0 := map f32_of_Z [2; 2; 3; 4]%Z; 1 := map f32_of_Z [2; 0; 3; 4]%Z ]};
     w_ticks := 0; w_alloc_limit := 2 ^ 20 |}.

Definition dividend : Tensor :=
  {| shape_ := [2; 2]%N; total_size_ := 4; dtype_ := FLOAT32; data_ := Some 0 |}.

Definition divisor : Tensor :=
  {| shape_ := [2; 2]%N; total_size_ := 4; dtype_ := FLOAT32; data_ := Some 1 |}.

(** A world with the tensor [-1, 0, 2] of shape [[3]] at address 0. *)
Definition relu_world : World :=
  {| w_heap := {[ 0 := map f32_of_Z [-1; 0; 2]%Z ]};
     w_ticks := 0; w_alloc_limit := 2 ^ 20 |}.

Definition relu_input : Tensor :=
  {| shape_ := [3%N]; total_size_ := 3; dtype_ := FLOAT32; data_ := Some 0 |}.

(** The bytes of an unsigned integer, least significant first. *)
Fixpoint le_encode (nbytes : nat) (v : N) : list byte :=
  match nbytes with
  | O => []
  | S n =>
      match Byte.of_N (v mod 256) with
      | Some b => b :: le_encode n (v / 256)
      | None => []
      end
  end.

(** A model file with one ReLU layer, input shape [[2]] and output shape
    [[2]]. *)
Definition relu_model_file : list byte :=
  le_encode 4 MAGIC_NUMBER ++ le_encode 2 VERSION_MAJOR ++ le_encode 2 VERSION_MINOR ++
  le_encode 4 1 ++ le_encode 4 0 ++
  le_encode 1 1 ++
  le_encode 4 1 ++ le_encode 4 2 ++
  le_encode 4 1 ++ le_encode 4 2.

(** A model file with one linear layer whose weight has shape [[1; 1]] and
    whose bias has rank 2, the shape [[1; 1]]; each holds the float 1.0. The
    payload of the bias is the bytes 47 to 50. *)
Definition rank2_bias_file : list byte :=
  le_encode 4 MAGIC_NUMBER ++ le_encode 2 VERSION_MAJOR ++ le_encode 2 VERSION_MINOR ++
  le_encode 4 1 ++ le_encode 4 0 ++
  le_encode 1 0 ++
  le_encode 1 0 ++ le_encode 4 2 ++ le_encode 4 1 ++ le_encode 4 1 ++
  le_encode 4 0x3F800000 ++
  le_encode 1 0 ++ le_encode 4 2 ++ le_encode 4 1 ++ le_encode 4 1 ++
  le_encode 4 0x3F800000 ++
  le_encode 4 1 ++ le_encode 4 1 ++
  le_encode 4 1 ++ le_encode 4 1.

(** Sixteen bytes that start with the magic 0x12345678. *)
Definition bad_magic_file : list byte :=
  le_encode 4 0x12345678 ++ le_encode 2 VERSION_MAJOR ++ le_encode 2 VERSION_MINOR ++
  le_encode 4 1 ++ le_encode 4 0.

(** An engine over a model of one ReLU layer on vectors of length 3, as
    its constructor leaves it: profiling disabled, statistics at their
    defaults. *)
Definition relu_engine : InferenceEngine :=
  {| model_ := {| layers_ := [ReLULayer]; input_shape_ := [3%N];
                  output_shape_ := [3%N] |};
     profiling_enabled_ := false;
     last_stats_ := InferenceStats_default;
     intermediate_tensors_ := [];
     buffers_allocated_ := false |}.

(** ** Specification-level notions for the kernels and the utilities *)

(** What [sigmoid] makes of one element. *)
Definition sigmoid_elem `{Platform} (x : float32) : float32 :=
  f32_div f32_one (f32_add f32_one (std_exp (f32_neg x))).

(** The three passes of [softmax] over an array: the running maximum from
    the first element on, the exponentials of the differences, their sum
    added up from [0.0f] in the order of the array, and the exponentials
    scaled by the reciprocal of the sum. *)
Definition softmax_max (buf : list float32) : float32 :=
  fold_left f32_max (tail buf) (default f32_zero (head buf)).

Definition softmax_exps `{Platform} (buf : list float32) : list float32 :=
  map (fun x => std_exp (f32_sub x (softmax_max buf))) buf.

Definition softmax_sum (exps : list float32) : float32 :=
  fold_left f32_add exps f32_zero.

Definition softmax_values `{Platform} (buf : list float32) : list float32 :=
  map (fun e => f32_mul e (f32_div f32_one (softmax_sum (softmax_exps buf))))
      (softmax_exps buf).





(** A platform whose [std::exp] is correctly rounded at the arguments the
    scenarios below call it with: 1 at zero, the float nearest to [e^-1]
    (0x3EBC5AB2) at -1 and the float nearest to [e^-2] (0x3E0A9555) at -2.
    At any other argument it returns a NaN, which would show in the
    results. *)
Definition rounded_exp_platform : Platform :=
  {| std_exp := fun x =>
       match x with
       | S754_zero _ => f32_one
       | _ =>
           if f32_eqb x (f32_of_Z (-1)) then f32_of_bits 0x3EBC5AB2
           else if f32_eqb x (f32_of_Z (-2)) then f32_of_bits 0x3E0A9555
           else S754_nan
       end;
     clock_now := fun k => Z.of_nat k |}.






(** The tensor [0, 1, 2] of shape [[3]]. *)
Definition small_world : World :=
  {| w_heap := {[ 0 := map f32_of_Z [0; 1; 2]%Z ]};
     w_ticks := 0; w_alloc_limit := 2 ^ 20 |}.

Definition small_input : Tensor :=
  {| shape_ := [3%N]; total_size_ := 3; dtype_ := FLOAT32; data_ := Some 0 |}.

(** ** The model file format, as [loadFromFile] reads it *)

(** The sixteen bytes of a header that declares [n] layers. *)
Definition encode_header (n : N) : list byte :=
  le_encode 4 MAGIC_NUMBER ++ le_encode 2 VERSION_MAJOR ++ le_encode 2 VERSION_MINOR ++
  le_encode 4 n ++ le_encode 4 0.

(** A rank followed by that many dimensions, four bytes each. *)
Definition encode_dims (dims : list N) : list byte :=
  le_encode 4 (N.of_nat (length dims)) ++ flat_map (le_encode 4) dims.

(** A FLOAT32 tensor: the dtype byte, the shape and the floats. *)
Definition encode_tensor (dims : list N) (payload : list byte) : list byte :=
  le_encode 1 0 ++ encode_dims dims ++ payload.

(** What a file says of one layer: a linear layer with its dimensions and
    the bytes of its weights and bias, or an activation given by its type. *)
Inductive LayerImage :=
| LinearImage (in_f out_f : N) (weights bias : list byte)
| ActivationImage (type : LayerType).

Definition LayerType_code (type : LayerType) : N :=
  match type with
  | LINEAR => 0
  | RELU => 1
  | SIGMOID => 2
  | SOFTMAX => 3
  end.

Definition encode_layer (image : LayerImage) : list byte :=
  match image with
  | LinearImage in_f out_f weights bias =>
      le_encode 1 (LayerType_code LINEAR) ++
      encode_tensor [in_f; out_f] weights ++ encode_tensor [out_f] bias
  | ActivationImage type => le_encode 1 (LayerType_code type)
  end.

Definition encode_model (images : list LayerImage) (input_shape output_shape : list N)
  : list byte :=
  encode_header (N.of_nat (length images)) ++ flat_map encode_layer images ++
  encode_dims input_shape ++ encode_dims output_shape.

(** A shape that fits the format: fewer than [2^32] dimensions, each below
    [2^32]. *)
Definition dims_ok (dims : list N) : Prop :=
  (N.of_nat (length dims) < 2 ^ 32)%N /\ Forall (fun d => (d < 2 ^ 32)%N) dims.

(** A layer image the loader accepts in a world: an activation other than
    through the code of a linear layer; a linear layer with non-zero
    dimensions, arrays that can be allocated in that world, and four bytes
    for each float. *)
Definition image_ok (w : World) (image : LayerImage) : Prop :=
  match image with
  | LinearImage in_f out_f weights bias =>
      (0 < in_f < 2 ^ 32)%N /\ (0 < out_f < 2 ^ 32)%N /\
      (in_f * out_f <= max_array_len w)%N /\
      length weights = N.to_nat (4 * (in_f * out_f)) /\
      length bias = N.to_nat (4 * out_f)
  | ActivationImage type => type <> LINEAR
  end.

(** The layer a loaded model holds for a layer image, in a world. *)
Definition layer_loaded (w : World) (layer : Layer) (image : LayerImage) : Prop :=
  match image, layer with
  | LinearImage in_f out_f weights bias, LinearLayer weights_ bias_ =>
      linear_ok w weights_ bias_ in_f out_f /\
      dtype weights_ = FLOAT32 /\ dtype bias_ = FLOAT32 /\
      buffer_of w weights_ = Some (floats_of_bytes weights) /\
      buffer_of w bias_ = Some (floats_of_bytes bias)
  | ActivationImage type, LinearLayer _ _ => False
  | ActivationImage type, _ => getType layer = type
  | _, _ => False
  end.

(** ** The clock and the statistics *)

(** A computation that does not read the clock: the count of readings is
    the same after it as before, whether it returns or throws. [world]
    projects the world out of the state. *)
Definition keeps_ticks {S A} (world : S -> World) (m : St S A) : Prop :=
  forall s s' r, m s = (s', r) -> w_ticks (world s') = w_ticks (world s).

(** The durations measured around [n] layers run one after the other when
    the first reading is the [t]-th of the clock: two readings per layer. *)
Definition layer_durations `{Platform} (t n : nat) : list Z :=
  map (fun j => (clock_now (t + 2 * j + 1) - clock_now (t + 2 * j))%Z) (seq 0 n).

(** The estimate of [updateMemoryUsage]: a million bytes per linear layer
    and four bytes per element of the intermediate tensors, in [size_t]. *)
Definition is_linear (layer : Layer) : bool :=
  match getType layer with
  | LINEAR => true
  | _ => false
  end.

Definition memory_estimate (e : InferenceEngine) : N :=
  ((1000000 * N.of_nat (length (List.filter is_linear (getLayers (model_ e))))
    + 4 * fold_right N.add 0 (map size (intermediate_tensors_ e))) mod 2 ^ 64)%N.

(** ** Arrays a computation may write to or release *)

(** With respect to a heap [h0] of arrays to be left alone, a value is
    [owned] when every array it gives write access to is outside [h0]; a
    world, when it still holds every array of [h0] as it was. Values that
    hold no pointer, or only pointers that are read through, are owned. *)
Class Owned (A : Type) := owned : gmap nat (list float32) -> A -> Prop.

#[global] Instance Owned_pointer : Owned (option nat) :=
  fun h0 p => match p with Some a => h0 !! a = None | None => True end.
#[global] Instance Owned_Tensor : Owned Tensor := fun h0 t => owned h0 (data_ t).
#[global] Instance Owned_World : Owned World := fun h0 w => h0 ⊆ w_heap w.
#[global] Instance Owned_prod {A B} `{Owned A, Owned B} : Owned (A * B) :=
  fun h0 p => owned h0 (fst p) /\ owned h0 (snd p).
#[global] Instance Owned_unit : Owned unit := fun _ _ => True.
#[global] Instance Owned_N : Owned N := fun _ _ => True.
#[global] Instance Owned_Z : Owned Z := fun _ _ => True.
#[global] Instance Owned_float : Owned float32 := fun _ _ => True.
#[global] Instance Owned_floats : Owned (list float32) := fun _ _ => True.
#[global] Instance Owned_engine : Owned InferenceEngine := fun _ _ => True.

(** A computation that leaves the arrays of [h0] alone: from an owned
    state it reaches an owned state, and what it returns is owned. *)
Definition safe {S A} `{Owned S, Owned A} (h0 : gmap nat (list float32)) (m : St S A)
  : Prop :=
  forall s s' r, m s = (s', r) -> owned h0 s ->
                 owned h0 s' /\ forall a, r = Ok a -> owned h0 a.

(** * Properties *)

(** * Properties *)

(** ** The monad *)

Lemma bind_ok {S A B} (m : St S A) (k : A -> St S B) s s' a :
  m s = (s', Ok a) -> bind m k s = k a s'.
Proof. intros H. unfold bind. by rewrite H. Qed.

Lemma bind_err {S A B} (m : St S A) (k : A -> St S B) s s' e :
  m s = (s', Err e) -> bind m k s = (s', Err e).
Proof. intros H. unfold bind. by rewrite H. Qed.

Lemma bind_ret_l {S A B} (a : A) (k : A -> St S B) s : bind (ret a) k s = k a s.
Proof. done. Qed.

Lemma lift_ok {S T A} (m : St S A) (s s' : S) (t : T) r :
  m s = (s', r) -> lift m (s, t) = ((s', t), r).
Proof. intros H. unfold lift. simpl. by rewrite H. Qed.

Lemma bind_self {S T B} (k : T -> St (S * T) B) s t :
  bind self k (s, t) = k t (s, t).
Proof. done. Qed.

Lemma bind_set_self {S T B} (t' : T) (k : unit -> St (S * T) B) s t :
  bind (set_self t') k (s, t) = k tt (s, t').
Proof. done. Qed.

Lemma on_throw_ok {S A} (m : St S A) h s s' a :
  m s = (s', Ok a) -> on_throw m h s = (s', Ok a).
Proof. intros H. unfold on_throw. by rewrite H. Qed.

Lemma for_loop_S {S A} count i (body : N -> A -> St S A) acc s :
  for_loop (Datatypes.S count) i body acc s
  = bind (body i acc) (fun acc' => for_loop count (N.succ i) body acc') s.
Proof. done. Qed.

(** The invariant rule for a counted loop whose turns all succeed: [I k]
    holds of the state and the accumulator after [k] turns. *)
Lemma for_loop_inv {S A} (body : N -> A -> St S A) (I : nat -> S -> A -> Prop) :
  forall count i acc s,
    I 0 s acc ->
    (forall k s1 acc1, k < count -> I k s1 acc1 ->
       exists s2 acc2, body (i + N.of_nat k)%N acc1 s1 = (s2, Ok acc2) /\ I (Datatypes.S k) s2 acc2) ->
    exists s' acc', for_loop count i body acc s = (s', Ok acc') /\ I count s' acc'.
Proof.
  intros count. revert I.
  induction count as [|count IH]; intros I i acc s H0 Hstep.
  - exists s, acc. done.
  - destruct (Hstep 0 s acc) as (s1 & acc1 & Hb & H1); [lia | done |].
    rewrite N.add_0_r in Hb.
    destruct (IH (fun k => I (Datatypes.S k)) (N.succ i) acc1 s1 H1) as (s' & acc' & Hl & HI).
    { intros k s2 acc2 Hk HIk.
      destruct (Hstep (Datatypes.S k) s2 acc2) as (s3 & acc3 & Hb' & HI'); [lia | done |].
      exists s3, acc3. split; [|done].
      rewrite <- Hb'. f_equal. lia. }
    exists s', acc'. split; [|done].
    rewrite for_loop_S. by erewrite bind_ok.
Qed.

Lemma for_range_inv {S A} (body : N -> A -> St S A) (I : N -> S -> A -> Prop) n acc s :
  I 0%N s acc ->
  (forall k s1 acc1, (k < n)%N -> I k s1 acc1 ->
     exists s2 acc2, body k acc1 s1 = (s2, Ok acc2) /\ I (N.succ k) s2 acc2) ->
  exists s' acc', for_range n body acc s = (s', Ok acc') /\ I n s' acc'.
Proof.
  intros H0 Hstep. unfold for_range.
  destruct (for_loop_inv body (fun k => I (N.of_nat k)) (N.to_nat n) 0%N acc s)
    as (s' & acc' & Hl & HI); [done | |].
  - intros k s1 acc1 Hk HI. simpl.
    destruct (Hstep (N.of_nat k) s1 acc1) as (s2 & acc2 & Hb & HI'); [lia | done |].
    exists s2, acc2. split; [done|]. by rewrite Nat2N.inj_succ.
  - exists s', acc'. split; [done|]. by rewrite N2Nat.id in HI.
Qed.

Lemma for_each_inv {S} (body : N -> St S unit) (I : N -> S -> Prop) n s :
  I 0%N s ->
  (forall k s1, (k < n)%N -> I k s1 ->
     exists s2, body k s1 = (s2, Ok tt) /\ I (N.succ k) s2) ->
  exists s', for_each n body s = (s', Ok tt) /\ I n s'.
Proof.
  intros H0 Hstep. unfold for_each.
  destruct (for_range_inv (fun i _ => body i) (fun k s _ => I k s) n tt s)
    as (s' & [] & Hl & HI); [done | | by exists s'].
  intros k s1 [] Hk HI. destruct (Hstep k s1) as (s2 & Hb & HI'); [done..|].
  by exists s2, tt.
Qed.

(** ** size_t arithmetic *)

Lemma wrap64_small n : (n < 2 ^ 64)%N -> wrap64 n = n.
Proof. intros H. unfold wrap64. by apply N.mod_small. Qed.

Lemma wrap64_lt n : (wrap64 n < 2 ^ 64)%N.
Proof. unfold wrap64. by apply N.mod_lt. Qed.

Lemma product_pos dims : Forall (fun d => d <> 0%N) dims -> (0 < product dims)%N.
Proof. induction 1 as [|d dims Hd _ IH]; simpl; [lia | nia]. Qed.

Lemma accumulate_from dims : forall acc,
  (acc * product dims < 2 ^ 64)%N -> Forall (fun d => d <> 0%N) dims ->
  fold_left (fun acc d => wrap64 (acc * d)) dims acc = (acc * product dims)%N.
Proof.
  induction dims as [|d dims IH]; intros acc Hlt Hnz; simpl in *; [lia|].
  inversion Hnz as [|? ? Hd Hnz']; subst.
  pose proof (product_pos dims Hnz') as Hp.
  rewrite wrap64_small by nia.
  rewrite IH; [lia | | done].
  by replace (acc * d * product dims)%N with (acc * (d * product dims))%N by lia.
Qed.

(** Without overflow [std::accumulate] computes the product. *)
Lemma accumulate_product_exact dims :
  (product dims < 2 ^ 64)%N -> Forall (fun d => d <> 0%N) dims ->
  accumulate_product dims = product dims.
Proof.
  intros. unfold accumulate_product. rewrite accumulate_from; [lia | lia | done].
Qed.

Lemma row_major_lt indices shape :
  Forall2 (fun i d => (i < d)%N) indices shape ->
  (row_major indices shape < product shape)%N.
Proof. induction 1 as [|i d indices shape Hid _ IH]; simpl; [lia | nia]. Qed.

Lemma index_fold indices shape :
  Forall2 (fun i d => (i < d)%N) indices shape ->
  (product shape < 2 ^ 64)%N ->
  fold_right (fun id acc => index_step acc id) (0%N, 1%N) (zip indices shape)
  = (row_major indices shape, product shape).
Proof.
  induction 1 as [|i d indices shape Hid Hrest IH]; intros Hlt; simpl in *; [done|].
  pose proof (row_major_lt _ _ Hrest) as Hrm.
  assert (0 < product shape)%N as Hp by lia.
  rewrite IH by nia. simpl.
  rewrite (wrap64_small (i * product shape)) by nia.
  rewrite !wrap64_small by nia.
  f_equal; lia.
Qed.

Lemma int_of_size_t_small n : (n < 2 ^ 31)%N -> int_of_size_t n = Z.of_N n.
Proof.
  intros H. unfold int_of_size_t.
  rewrite Z.mod_small; lia.
Qed.

(** The bounds check of [calculateIndex] passes exactly when every index
    is below its dimension. *)
Lemma bounds_check_false indices shape :
  Forall2 (fun i d => (i < d)%N) indices shape ->
  existsb (fun id => (snd id <=? fst id)%N) (zip indices shape) = false.
Proof.
  induction 1 as [|i d indices shape Hid _ IH]; simpl; [done|].
  rewrite IH, orb_false_r. apply N.leb_gt. done.
Qed.

Lemma bounds_check_true indices : forall shape k i d,
  indices !! k = Some i -> shape !! k = Some d -> (d <= i)%N ->
  existsb (fun id => (snd id <=? fst id)%N) (zip indices shape) = true.
Proof.
  induction indices as [|i0 indices IH]; intros [|d0 shape] [|k] i d Hi Hd Hle;
    simpl in *; try done.
  - simplify_eq. apply orb_true_iff. left. by apply N.leb_le.
  - apply orb_true_iff. right. eauto.
Qed.

(** [calculateIndex] on indices within bounds. *)
Lemma calculateIndex_ok {S} (t : Tensor) indices (s : S) :
  Forall2 (fun i d => (i < d)%N) indices (shape_ t) ->
  (product (shape_ t) < 2 ^ 64)%N ->
  (rank t < 2 ^ 31)%N ->
  calculateIndex t indices s = (s, Ok (row_major indices (shape_ t))).
Proof.
  intros Hb Hp Hr. unfold calculateIndex.
  pose proof (Forall2_length _ _ _ Hb) as Hlen.
  rewrite decide_True by done.
  rewrite bounds_check_false by done.
  unfold rank in Hr. rewrite Hlen, int_of_size_t_small by done.
  rewrite firstn_all2 by (rewrite length_zip; lia).
  rewrite <- fold_left_rev_right, rev_involutive.
  by rewrite index_fold.
Qed.

(** ** Floats: the facts of IEEE arithmetic the properties rest on *)

Lemma digits2_pos_shift m k :
  digits2_pos (Pos.iter xO m k) = (digits2_pos m + k)%positive.
Proof.
  induction k using Pos.peano_ind.
  - simpl. lia.
  - rewrite Pos.iter_succ. simpl. rewrite IHk. lia.
Qed.

(** [x * 1.0f] is [x] for a finite [x]: the product is exact. *)
Lemma f32_mul_one_r x : f32_finite x = true -> f32_mul x f32_one = x.
Proof.
  destruct x as [s|s| |s m e]; try done.
  { intros _. by destruct s. }
  intros Hb. unfold f32_finite, bounded, canonical_mantissa in Hb.
  apply andb_true_iff in Hb as [Hc He]. apply Z.eqb_eq in Hc.
  unfold f32_mul, f32_one, f32_prec, f32_emax, SFmul in *. rewrite xorb_false_r.
  replace (m * 8388608)%positive with (Pos.iter xO m 23) by (simpl; lia).
  unfold binary_round_aux, shr_fexp.
  unfold Zdigits2 at 1. rewrite digits2_pos_shift.
  replace (fexp 24 128 (Z.pos (digits2_pos m + 23) + (e + -23)) - (e + -23))%Z with 23%Z
    by (unfold fexp in *; lia).
  unfold shr.
  assert (SpecFloat.iter_pos shr_1 23
            (shr_record_of_loc (Z.pos (Pos.iter xO m 23)) loc_Exact)
          = {| shr_m := Z.pos m; shr_r := false; shr_s := false |}) as -> by reflexivity.
  cbn [shr_m loc_of_shr_record round_nearest_even Zdigits2].
  replace (e + -23 + 23)%Z with e by lia.
  replace (fexp 24 128 (Z.pos (digits2_pos m) + e) - e)%Z with 0%Z by lia.
  cbn [shr_record_of_loc shr_m]. by rewrite He.
Qed.

Lemma f32_mul_comm x y : f32_mul x y = f32_mul y x.
Proof.
  unfold f32_mul, SFmul.
  destruct x as [sx|sx| |sx mx ex], y as [sy|sy| |sy my ey]; try done;
    rewrite ?(xorb_comm sx sy); try done.
  by rewrite (Pos.mul_comm mx my), (Z.add_comm ex ey).
Qed.

Lemma f32_mul_one_l x : f32_finite x = true -> f32_mul f32_one x = x.
Proof. intros. rewrite f32_mul_comm. by apply f32_mul_one_r. Qed.




Lemma f32_add_zero_l x : f32_finite x = true -> f32_add f32_zero x = unsigned_zero x.
Proof. destruct x as [s|s| |s m e]; try done; intros _; by destruct s. Qed.

Lemma f32_add_unsigned_zero x s :
  f32_finite x = true -> f32_add (unsigned_zero x) (S754_zero s) = unsigned_zero x.
Proof. destruct x as [s'|s'| |s' m e]; try done; intros _; by destruct s. Qed.

Lemma f32_eqb_refl x : x <> S754_nan -> f32_eqb x x = true.
Proof.
  intros Hx. unfold f32_eqb, SFeqb, SFcompare.
  destruct x as [s|s| |s m e]; try done.
  - by destruct s.
  - rewrite Z.compare_refl, Pos.compare_cont_refl. by destruct s.
Qed.

(** Forgetting the sign of a zero gives a float that compares equal. *)
Lemma unsigned_zero_eqb x : f32_finite x = true -> f32_eqb (unsigned_zero x) x = true.
Proof.
  destruct x as [s|s| |s m e]; try done; intros _.
  simpl. by apply f32_eqb_refl.
Qed.

(** The same facts beyond the finite floats. *)










Lemma f32_finite_valid x : f32_finite x = true -> f32_valid x = true.
Proof. by destruct x. Qed.

Lemma f32_finite_not_nan x : f32_finite x = true -> x <> S754_nan.
Proof. by destruct x. Qed.

(** ** The heap *)

Lemma load_ok a buf i v w :
  w_heap w !! a = Some buf -> buf !! N.to_nat i = Some v ->
  load (Some a) i w = (w, Ok v).
Proof. intros Ha Hi. unfold load. by rewrite Ha, Hi. Qed.

Lemma store_ok a buf i v w :
  w_heap w !! a = Some buf -> N.to_nat i < length buf ->
  store (Some a) i v w
  = (set_heap (<[a := <[N.to_nat i := v]> buf]> (w_heap w)) w, Ok tt).
Proof. intros Ha Hi. unfold store. rewrite Ha. by rewrite decide_True. Qed.

Lemma fresh_not_live (h : gmap nat (list float32)) : h !! fresh (dom h) = None.
Proof. apply not_elem_of_dom. apply is_fresh. Qed.

Lemma make_unique_ok n w :
  (n <= max_array_len w)%N ->
  make_unique n w
  = (set_heap (<[fresh (dom (w_heap w)) := replicate (N.to_nat n) f32_zero]> (w_heap w)) w,
     Ok (Some (fresh (dom (w_heap w))))).
Proof.
  intros Hn. unfold make_unique.
  destruct (max_array_len w <? n)%N eqn:E; [|done].
  apply N.ltb_lt in E. lia.
Qed.

Lemma release_ok a buf w :
  w_heap w !! a = Some buf ->
  release (Some a) w = (set_heap (delete a (w_heap w)) w, Ok tt).
Proof. intros Ha. unfold release. by rewrite Ha. Qed.

Lemma load_range_ok a buf n w :
  w_heap w !! a = Some buf -> N.to_nat n <= length buf ->
  load_range (Some a) n w = (w, Ok (take (N.to_nat n) buf)).
Proof.
  intros Ha Hn. unfold load_range.
  destruct (n =? 0)%N eqn:E.
  - apply N.eqb_eq in E. by subst.
  - rewrite Ha. by rewrite decide_True.
Qed.

Lemma store_range_ok a buf vals w :
  w_heap w !! a = Some buf -> length vals <= length buf ->
  store_range (Some a) vals w
  = (set_heap (<[a := vals ++ drop (length vals) buf]> (w_heap w)) w, Ok tt).
Proof.
  intros Ha Hn. unfold store_range. rewrite Ha.
  destruct vals as [|v vals]; [|by rewrite decide_True].
  simpl. rewrite drop_0. rewrite insert_id by done.
  by destruct w.
Qed.

Lemma set_heap_heap h w : w_heap (set_heap h w) = h.
Proof. done. Qed.

Lemma set_heap_twice h1 h2 w : set_heap h2 (set_heap h1 w) = set_heap h2 w.
Proof. done. Qed.

Lemma set_heap_same w : set_heap (w_heap w) w = w.
Proof. by destruct w. Qed.

(** ** Tensor: element access *)

Lemma validateShape_ok {S} shape (s : S) :
  shape <> [] -> Forall (fun d => d <> 0%N) shape ->
  validateShape shape s = (s, Ok tt).
Proof.
  intros Hne Hnz. unfold validateShape.
  destruct shape as [|d shape]; [done|].
  replace (existsb _ _) with false; [done|].
  symmetry. apply not_true_is_false. intros Hex.
  apply existsb_exists in Hex as (x & Hin & Hx).
  rewrite Forall_forall in Hnz. apply N.eqb_eq in Hx.
  apply (Hnz x); [by apply list_elem_of_In | done].
Qed.

(** [t.at(indices)] on a tensor that satisfies the invariants. *)
Lemma Tensor_at_ok t indices w a buf :
  Forall2 (fun i d => (i < d)%N) indices (shape_ t) ->
  total_size_ t = product (shape_ t) -> (total_size_ t < 2 ^ 64)%N ->
  (rank t < 2 ^ 31)%N ->
  data_ t = Some a -> w_heap w !! a = Some buf ->
  N.of_nat (length buf) = total_size_ t ->
  exists v, buf !! N.to_nat (row_major indices (shape_ t)) = Some v /\
            Tensor_at t indices w = (w, Ok v).
Proof.
  intros Hb Ht Hlt Hr Hd Ha Hlen.
  pose proof (row_major_lt _ _ Hb) as Hrm.
  destruct (lookup_lt_is_Some_2 buf (N.to_nat (row_major indices (shape_ t)))) as [v Hv];
    [lia|].
  exists v. split; [done|].
  unfold Tensor_at. erewrite bind_ok; last (apply calculateIndex_ok; [done | lia | done]).
  rewrite Hd. by apply load_ok with buf.
Qed.

Lemma Tensor_at_put_ok t indices v w a buf :
  Forall2 (fun i d => (i < d)%N) indices (shape_ t) ->
  total_size_ t = product (shape_ t) -> (total_size_ t < 2 ^ 64)%N ->
  (rank t < 2 ^ 31)%N ->
  data_ t = Some a -> w_heap w !! a = Some buf ->
  N.of_nat (length buf) = total_size_ t ->
  Tensor_at_put t indices v w
  = (set_heap (<[a := <[N.to_nat (row_major indices (shape_ t)) := v]> buf]> (w_heap w)) w,
     Ok tt).
Proof.
  intros Hb Ht Hlt Hr Hd Ha Hlen.
  pose proof (row_major_lt _ _ Hb) as Hrm.
  unfold Tensor_at_put. erewrite bind_ok; last (apply calculateIndex_ok; [done | lia | done]).
  rewrite Hd. apply store_ok; [done | lia].
Qed.

Lemma max_array_len_lt w : (max_array_len w < 2 ^ 64)%N.
Proof. unfold max_array_len. lia. Qed.

Lemma max_array_len_set_heap h w : max_array_len (set_heap h w) = max_array_len w.
Proof. done. Qed.

(** Bounds on array lengths, in worlds that differ by their heaps. *)
Ltac alloc_lia := unfold max_array_len in *; simpl w_alloc_limit in *; simpl; lia.
Ltac alloc_nia := unfold max_array_len in *; simpl w_alloc_limit in *; simpl; nia.

Lemma tensor_ok_backed w t : tensor_ok w t -> tensor_backed w t.
Proof.
  intros [[_ _ Htot (a & buf & Hd & Ha & Hlen)] Hmax Hr].
  pose proof (max_array_len_lt w).
  split; [|lia|done].
  exists buf. unfold buffer_of. rewrite Hd. split; [done|congruence].
Qed.

(** [t.at(indices)] on a tensor without a buffer: the two checks pass and
    the read goes through a null pointer. *)
Lemma Tensor_at_null t indices w :
  data_ t = None ->
  Forall2 (fun i d => (i < d)%N) indices (shape_ t) ->
  Tensor_at t indices w = (w, Err UndefinedBehavior).
Proof.
  intros Hd Hb. unfold Tensor_at, calculateIndex, bind.
  rewrite decide_True by (by eapply Forall2_length).
  rewrite bounds_check_false by done. by rewrite Hd.
Qed.

(** C7. [at(indices)] fails with InvalidArgument when the number of
    indices differs from the rank, and with OutOfRange when some index is
    not below its dimension. Otherwise, on a tensor that holds its elements
    (a live buffer of as many floats as the product of the dimensions), it
    returns the element of the buffer at the row-major position
    [sum_i indices[i] * prod_(j>i) shape[j]]; on a tensor without a buffer,
    as the default constructor and a move leave one, it reads through a
    null pointer instead. *)
Theorem at_row_major (t : Tensor) (indices : list N) (w : World) :
  (length indices <> length (shape t) ->
     Tensor_at t indices w = (w, Err InvalidArgument)) /\
  (length indices = length (shape t) ->
     (exists k i d, indices !! k = Some i /\ shape t !! k = Some d /\ (d <= i)%N) ->
     Tensor_at t indices w = (w, Err OutOfRange)) /\
  (tensor_backed w t ->
     Forall2 (fun i d => (i < d)%N) indices (shape t) ->
     exists buf v,
       buffer_of w t = Some buf /\
       buf !! N.to_nat (row_major indices (shape t)) = Some v /\
       Tensor_at t indices w = (w, Ok v)) /\
  (data t = None ->
     Forall2 (fun i d => (i < d)%N) indices (shape t) ->
     Tensor_at t indices w = (w, Err UndefinedBehavior)).
Proof.
  unfold shape, data. split; [|split; [|split]].
  - intros Hlen. unfold Tensor_at, calculateIndex, bind.
    by rewrite decide_False.
  - intros Hlen (k & i & d & Hi & Hd & Hle). unfold Tensor_at, calculateIndex, bind.
    rewrite decide_True by done.
    by rewrite (bounds_check_true _ _ k i d).
  - intros [(buf & Hbuf & Hlen) Hsize Hr] Hb.
    unfold buffer_of in Hbuf. destruct (data_ t) as [a|] eqn:Hd; [|done].
    pose proof (row_major_lt _ _ Hb) as Hrm.
    destruct (lookup_lt_is_Some_2 buf (N.to_nat (row_major indices (shape_ t))))
      as [v Hv]; [lia|].
    exists buf, v. split; [by unfold buffer_of; rewrite Hd|]. split; [done|].
    unfold Tensor_at.
    erewrite bind_ok; last (apply calculateIndex_ok; [done | lia | done]).
    rewrite Hd. by apply load_ok with buf.
  - apply Tensor_at_null.
Qed.

(** ** Loops that rewrite an array from front to back *)

(** Writing position [j] of an array whose first [j] elements are already
    those of [R] extends the rewritten prefix by one. *)
Lemma take_drop_step {A} (R L : list A) j x :
  R !! j = Some x -> j < length L ->
  <[j := x]> (take j R ++ drop j L) = take (S j) R ++ drop (S j) L.
Proof.
  intros HR HL.
  pose proof (lookup_lt_Some _ _ _ HR) as HlenR.
  destruct (lookup_lt_is_Some_2 L j HL) as [y Hy].
  rewrite (drop_S L y j Hy).
  rewrite (take_S_r R j x HR).
  rewrite insert_app_r_alt by (rewrite length_take; lia).
  rewrite length_take, Nat.min_l by lia.
  rewrite Nat.sub_diag. simpl. by rewrite <- app_assoc.
Qed.

Lemma lookup_take_drop {A} (R L : list A) j :
  j <= length R -> (take j R ++ drop j L) !! j = L !! j.
Proof.
  intros Hj. rewrite lookup_app_r by (rewrite length_take; lia).
  rewrite length_take, Nat.min_l by lia.
  rewrite Nat.sub_diag, lookup_drop. by rewrite Nat.add_0_r.
Qed.

Lemma length_take_drop {A} (R L : list A) j :
  length R = length L -> length (take j R ++ drop j L) = length L.
Proof. intros H. rewrite length_app, length_take, length_drop. lia. Qed.

(** A loop that throws in turn [k] after [k] good turns. *)
Lemma for_loop_throw {S A} (body : N -> A -> St S A) :
  forall k count i acc s s1 acc1 s2 e,
    k < count ->
    for_loop k i body acc s = (s1, Ok acc1) ->
    body (i + N.of_nat k)%N acc1 s1 = (s2, Err e) ->
    for_loop count i body acc s = (s2, Err e).
Proof.
  induction k as [|k IH]; intros count i acc s s1 acc1 s2 e Hk Hl Hb.
  - destruct count as [|count]; [lia|].
    simpl in Hl. unfold ret in Hl. simplify_eq.
    rewrite N.add_0_r in Hb. rewrite for_loop_S. by erewrite bind_err.
  - destruct count as [|count]; [lia|].
    rewrite for_loop_S in Hl. rewrite for_loop_S.
    unfold bind in *. destruct (body i acc s) as [s' [acc'|e']]; [|done].
    eapply IH; [| exact Hl |]; [lia|].
    rewrite <- Hb. f_equal. lia.
Qed.

(** ** Tensor: construction *)

Lemma Tensor_new_ok shape dt w :
  shape <> [] -> Forall (fun d => d <> 0%N) shape ->
  (product shape <= max_array_len w)%N ->
  Tensor_new shape dt w
  = (set_heap (<[fresh (dom (w_heap w)) := replicate (N.to_nat (product shape)) f32_zero]>
                 (w_heap w)) w,
     Ok {| shape_ := shape; total_size_ := product shape; dtype_ := dt;
           data_ := Some (fresh (dom (w_heap w))) |}).
Proof.
  intros Hne Hnz Hmax. pose proof (max_array_len_lt w).
  unfold Tensor_new. erewrite bind_ok; last by apply validateShape_ok.
  unfold calculateTotalSize. rewrite accumulate_product_exact by (done || lia).
  erewrite bind_ok; last by apply make_unique_ok.
  done.
Qed.

Lemma Tensor_new_data_ok shape values dt w :
  shape <> [] -> Forall (fun d => d <> 0%N) shape ->
  (product shape <= max_array_len w)%N ->
  N.of_nat (length values) = product shape ->
  Tensor_new_data shape values dt w
  = (set_heap (<[fresh (dom (w_heap w)) := values]> (w_heap w)) w,
     Ok {| shape_ := shape; total_size_ := product shape; dtype_ := dt;
           data_ := Some (fresh (dom (w_heap w))) |}).
Proof.
  intros Hne Hnz Hmax Hlen. pose proof (max_array_len_lt w).
  unfold Tensor_new_data. erewrite bind_ok; last by apply validateShape_ok.
  unfold calculateTotalSize. rewrite accumulate_product_exact by (done || lia).
  rewrite decide_True by done.
  erewrite bind_ok; last by apply make_unique_ok.
  erewrite bind_ok.
  2: { apply store_range_ok with (buf := replicate (N.to_nat (product shape)) f32_zero).
       - simpl. apply lookup_insert_eq.
       - rewrite length_replicate. lia. }
  unfold ret. simpl. rewrite set_heap_twice, insert_insert_eq.
  rewrite drop_ge by (rewrite length_replicate; lia).
  by rewrite app_nil_r.
Qed.

(** The invariants only depend on the array the tensor owns and on what
    the allocator grants. *)
Lemma tensor_ok_frame w w' t :
  (forall a, data_ t = Some a -> w_heap w' !! a = w_heap w !! a) ->
  max_array_len w' = max_array_len w ->
  tensor_ok w t -> tensor_ok w' t.
Proof.
  intros Hframe Hlim [[H1 H2 H3 (a & buf & Hd & Ha & Hlen)] H5 H6].
  split; [split|..]; try done; [|by rewrite Hlim].
  exists a, buf. split; [done|]. split; [|done]. by rewrite Hframe.
Qed.

Lemma Tensor_copy_ok other w a buf :
  data_ other = Some a -> w_heap w !! a = Some buf ->
  N.of_nat (length buf) = total_size_ other ->
  (total_size_ other <= max_array_len w)%N ->
  Tensor_copy other w
  = (set_heap (<[fresh (dom (w_heap w)) := buf]> (w_heap w)) w,
     Ok {| shape_ := shape_ other; total_size_ := total_size_ other;
           dtype_ := dtype_ other; data_ := Some (fresh (dom (w_heap w))) |}).
Proof.
  intros Hd Ha Hlen Hmax. unfold Tensor_copy.
  erewrite bind_ok; last by apply make_unique_ok.
  assert (fresh (dom (w_heap w)) <> a) as Hne.
  { intros E. rewrite <- E, fresh_not_live in Ha. done. }
  erewrite bind_ok.
  2: { rewrite Hd. apply load_range_ok with (buf := buf); [|lia].
       simpl. by rewrite lookup_insert_ne. }
  rewrite firstn_all2 by lia.
  erewrite bind_ok.
  2: { apply store_range_ok with (buf := replicate (N.to_nat (total_size_ other)) f32_zero).
       - simpl. apply lookup_insert_eq.
       - rewrite length_replicate. lia. }
  unfold ret. simpl. rewrite set_heap_twice, insert_insert_eq.
  rewrite drop_ge by (rewrite length_replicate; lia).
  by rewrite app_nil_r.
Qed.

Lemma tensor_ok_buffer w t buf :
  tensor_ok w t -> buffer_of w t = Some buf ->
  exists a, data_ t = Some a /\ w_heap w !! a = Some buf /\
            N.of_nat (length buf) = total_size_ t.
Proof.
  intros [[_ _ _ (a & buf' & Hd & Ha & Hlen)] _ _] Hbuf.
  unfold buffer_of in Hbuf. rewrite Hd in Hbuf.
  exists a. by simplify_eq.
Qed.

(** ** Tensor: division *)

Section Division.
Variables (self other : Tensor) (w : World) (a b : nat) (bufA bufB : list float32).
Hypothesis Hda : data_ self = Some a.
Hypothesis Hdb : data_ other = Some b.
Hypothesis Ha : w_heap w !! a = Some bufA.
Hypothesis Hb : w_heap w !! b = Some bufB.
Hypothesis Hlen : length bufA = length bufB.

Lemma div_state_0 : div_state w a bufA bufB 0 = w.
Proof.
  unfold div_state, divided. simpl. rewrite drop_0, insert_id by done.
  apply set_heap_same.
Qed.

Lemma length_quotients : length (zip_with f32_div bufA bufB) = length bufA.
Proof. rewrite length_zip_with. lia. Qed.

(** What the loop reads at position [j] after [j] turns. *)
Lemma div_state_reads j x y :
  bufA !! j = Some x -> bufB !! j = Some y ->
  load (data_ self) (N.of_nat j) (div_state w a bufA bufB j)
    = (div_state w a bufA bufB j, Ok x) /\
  load (data_ other) (N.of_nat j) (div_state w a bufA bufB j)
    = (div_state w a bufA bufB j, Ok y).
Proof.
  intros Hx Hy. pose proof (lookup_lt_Some _ _ _ Hx) as Hj.
  assert (divided bufA bufB j !! j = Some x) as Hcur.
  { unfold divided. rewrite lookup_take_drop; [done|]. rewrite length_quotients. lia. }
  split.
  - rewrite Hda. apply load_ok with (buf := divided bufA bufB j).
    + simpl. apply lookup_insert_eq.
    + by rewrite Nat2N.id.
  - rewrite Hdb. destruct (decide (a = b)) as [Heq|Hne].
    + assert (bufA = bufB) as E by congruence.
      apply load_ok with (buf := divided bufA bufB j).
      * simpl. rewrite <- Heq. apply lookup_insert_eq.
      * rewrite Nat2N.id. congruence.
    + apply load_ok with (buf := bufB).
      * simpl. by rewrite lookup_insert_ne.
      * by rewrite Nat2N.id.
Qed.

Lemma div_body_step j x y :
  bufA !! j = Some x -> bufB !! j = Some y -> f32_eqb y f32_zero = false ->
  div_body self other (N.of_nat j) (div_state w a bufA bufB j)
  = (div_state w a bufA bufB (S j), Ok tt).
Proof.
  intros Hx Hy Hnz. destruct (div_state_reads j x y Hx Hy) as [Hlx Hly].
  pose proof (lookup_lt_Some _ _ _ Hx) as Hj.
  unfold div_body. erewrite bind_ok by exact Hly. rewrite Hnz.
  erewrite bind_ok by exact Hlx.
  rewrite Hda. erewrite store_ok.
  2: { simpl. apply lookup_insert_eq. }
  2: { unfold divided. rewrite Nat2N.id, length_app, length_take, length_drop,
         length_quotients. lia. }
  unfold div_state. simpl. rewrite set_heap_twice, insert_insert_eq. do 3 f_equal.
  rewrite Nat2N.id. unfold divided. apply take_drop_step; [|done].
  rewrite lookup_zip_with. by rewrite Hx, Hy.
Qed.

Lemma div_body_throw j x y :
  bufA !! j = Some x -> bufB !! j = Some y -> f32_eqb y f32_zero = true ->
  div_body self other (N.of_nat j) (div_state w a bufA bufB j)
  = (div_state w a bufA bufB j, Err DivisionByZero).
Proof.
  intros Hx Hy Hz. destruct (div_state_reads j x y Hx Hy) as [_ Hly].
  unfold div_body. erewrite bind_ok by exact Hly. by rewrite Hz.
Qed.

(** The first [k] turns, when no divisor among the first [k] is zero. *)
Lemma div_loop_prefix k :
  k <= length bufA ->
  (forall j y, j < k -> bufB !! j = Some y -> f32_eqb y f32_zero = false) ->
  for_loop k 0%N (fun i _ => div_body self other i) tt w
  = (div_state w a bufA bufB k, Ok tt).
Proof.
  intros Hk Hnz.
  destruct (for_loop_inv (fun i (_ : unit) => div_body self other i)
              (fun j s _ => s = div_state w a bufA bufB j) k 0%N tt w)
    as (s' & [] & Hl & ->).
  - by rewrite div_state_0.
  - intros j s1 [] Hj ->.
    destruct (lookup_lt_is_Some_2 bufA j) as [x Hx]; [lia|].
    destruct (lookup_lt_is_Some_2 bufB j) as [y Hy]; [lia|].
    exists (div_state w a bufA bufB (S j)), tt. split; [|done].
    rewrite N.add_0_l. eapply div_body_step; eauto.
  - done.
Qed.

(** The loop stops in turn [k], the first with a zero divisor. *)
Lemma div_loop_stops k y n :
  k < n -> n <= length bufA ->
  bufB !! k = Some y -> f32_eqb y f32_zero = true ->
  (forall j z, j < k -> bufB !! j = Some z -> f32_eqb z f32_zero = false) ->
  for_loop n 0%N (fun i _ => div_body self other i) tt w
  = (div_state w a bufA bufB k, Err DivisionByZero).
Proof.
  intros Hk Hn Hy Hz Hnz.
  destruct (lookup_lt_is_Some_2 bufA k) as [x Hx]; [lia|].
  eapply for_loop_throw; [exact Hk | apply div_loop_prefix; [lia | done] |].
  rewrite N.add_0_l. eapply div_body_throw; eauto.
Qed.
End Division.

Lemma divided_lookup_lt bufA bufB k j x z :
  j < k -> bufA !! j = Some x -> bufB !! j = Some z ->
  divided bufA bufB k !! j = Some (f32_div x z).
Proof.
  intros Hj Hx Hz. unfold divided.
  rewrite lookup_app_l.
  - rewrite lookup_take_lt by done. rewrite lookup_zip_with. by rewrite Hx, Hz.
  - rewrite length_take, length_zip_with.
    pose proof (lookup_lt_Some _ _ _ Hx). pose proof (lookup_lt_Some _ _ _ Hz). lia.
Qed.

Lemma divided_lookup_ge bufA bufB k j :
  length bufA = length bufB -> k <= j ->
  divided bufA bufB k !! j = bufA !! j.
Proof.
  intros Hlen Hj. unfold divided.
  destruct (decide (k <= length bufA)) as [Hk|Hk].
  - rewrite lookup_app_r by (rewrite length_take, length_zip_with; lia).
    rewrite length_take, length_zip_with, lookup_drop. f_equal. lia.
  - rewrite (lookup_ge_None_2 bufA) by lia.
    apply lookup_ge_None_2.
    rewrite length_app, length_take, length_drop, length_zip_with. lia.
Qed.

(** C10. On tensors of the same shape whose divisor has its first zero at
    flat position [k], [operator/=] throws DivisionByZero in turn [k] and
    leaves the left operand with every earlier element divided and every
    other element as it was (nothing is restored); [operator/] throws the
    same error and leaves the world, hence both operands, as it found
    them, because it divides a copy. *)
Theorem div_assign_stops_at_first_zero
    (self other : Tensor) (w : World) (bufA bufB : list float32) (k : nat) (y : float32) :
  tensor_ok w self -> tensor_ok w other -> shape self = shape other ->
  buffer_of w self = Some bufA -> buffer_of w other = Some bufB ->
  bufB !! k = Some y -> f32_eqb y f32_zero = true ->
  (forall j z, j < k -> bufB !! j = Some z -> f32_eqb z f32_zero = false) ->
  (exists a, data self = Some a /\
     Tensor_div_assign self other w
     = (set_heap (<[a := divided bufA bufB k]> (w_heap w)) w, Err DivisionByZero)) /\
  (forall j x z, j < k -> bufA !! j = Some x -> bufB !! j = Some z ->
     divided bufA bufB k !! j = Some (f32_div x z)) /\
  (forall j, k <= j -> divided bufA bufB k !! j = bufA !! j) /\
  Tensor_div self other w = (w, Err DivisionByZero).
Proof.
  unfold shape, data.
  intros Hoka Hokb Hshape HbufA HbufB Hy Hz Hnz.
  destruct (tensor_ok_buffer _ _ _ Hoka HbufA) as (a & Hda & Ha & HlenA).
  destruct (tensor_ok_buffer _ _ _ Hokb HbufB) as (b & Hdb & Hb & HlenB).
  assert (total_size_ self = total_size_ other) as Htot.
  { destruct Hoka as [[_ _ -> _] _ _], Hokb as [[_ _ -> _] _ _]. by rewrite Hshape. }
  assert (length bufA = length bufB) as Hlen by lia.
  pose proof (lookup_lt_Some _ _ _ Hy) as Hk.
  split; [|split; [|split]].
  - exists a. split; [done|].
    unfold Tensor_div_assign. rewrite decide_True by done.
    unfold for_each, for_range.
    eapply (div_loop_stops self other w a b bufA bufB); eauto; lia.
  - intros. by apply divided_lookup_lt.
  - intros. by apply divided_lookup_ge.
  - unfold Tensor_div, binary_operator.
    erewrite bind_ok.
    2: { apply Tensor_copy_ok with (a := a) (buf := bufA); try done. by destruct Hoka. }
    set (p := fresh (dom (w_heap w))).
    set (result := {| shape_ := shape_ self; total_size_ := total_size_ self;
                      dtype_ := dtype_ self; data_ := Some p |}).
    set (w1 := set_heap (<[p := bufA]> (w_heap w)) w).
    assert (w_heap w !! p = None) as Hp by apply fresh_not_live.
    assert (p <> b) as Hpb by congruence.
    assert (Tensor_div_assign result other w1
            = (div_state w1 p bufA bufB k, Err DivisionByZero)) as Hdiv.
    { unfold Tensor_div_assign. rewrite decide_True by done.
      unfold for_each, for_range.
      eapply (div_loop_stops result other w1 p b bufA bufB); eauto.
      - apply lookup_insert_eq.
      - simpl. by rewrite lookup_insert_ne.
      - simpl. lia.
      - simpl. lia. }
    unfold bind, on_throw. rewrite Hdiv.
    unfold Tensor_destroy. simpl.
    rewrite lookup_insert_eq. simpl. f_equal.
    rewrite !delete_insert_eq, delete_id by done.
    unfold div_state, w1. rewrite !set_heap_twice.
    apply set_heap_same.
Qed.

(** ** TensorOps: relu *)

Lemma relu_elem_idemp x : relu_elem (relu_elem x) = relu_elem x.
Proof.
  unfold relu_elem. destruct (f32_ltb x f32_zero) eqn:E; [done|]. by rewrite E.
Qed.

(** On every float but NaN, what [relu] makes of [x] compares equal to
    [std::max(0.0f, x)]. *)
Lemma relu_elem_max x : x <> S754_nan -> f32_eqb (relu_elem x) (f32_max f32_zero x) = true.
Proof.
  intros Hx. unfold relu_elem, f32_max, f32_ltb, f32_eqb, f32_zero, SFltb, SFeqb.
  destruct x as [s|s| |s m e]; try done; by destruct s; simpl;
    rewrite ?Z.compare_refl, ?Pos.compare_cont_refl.
Qed.

Section Relu.
Variables (t : Tensor) (w : World) (a : nat) (buf : list float32).
Hypothesis Hd : data_ t = Some a.
Hypothesis Ha : w_heap w !! a = Some buf.

Lemma relu_state_0 : relu_state w a buf 0 = w.
Proof.
  unfold relu_state. simpl. rewrite drop_0, insert_id by done. apply set_heap_same.
Qed.

Lemma relu_state_lookup j :
  w_heap (relu_state w a buf j) !! a = Some (take j (map relu_elem buf) ++ drop j buf).
Proof. apply lookup_insert_eq. Qed.

Lemma relu_body_step j :
  j < length buf ->
  relu_body t (N.of_nat j) (relu_state w a buf j) = (relu_state w a buf (S j), Ok tt).
Proof.
  intros Hj. destruct (lookup_lt_is_Some_2 buf j Hj) as [x Hx].
  assert (map relu_elem buf !! j = Some (relu_elem x)) as HR.
  { by rewrite list_lookup_fmap, Hx. }
  assert ((take j (map relu_elem buf) ++ drop j buf) !! j = Some x) as Hcur.
  { rewrite lookup_take_drop; [done|]. rewrite length_map. lia. }
  pose proof (take_drop_step (map relu_elem buf) buf j _ HR Hj) as Hstep.
  unfold relu_body, data. rewrite Hd.
  erewrite bind_ok.
  2: { eapply load_ok; [apply relu_state_lookup|]. by rewrite Nat2N.id. }
  destruct (f32_ltb x f32_zero) eqn:E.
  - assert (relu_elem x = f32_zero) as Hx0 by (unfold relu_elem; by rewrite E).
    rewrite Hx0 in Hstep.
    erewrite store_ok; [| apply relu_state_lookup |].
    2: { rewrite Nat2N.id, length_app, length_take, length_drop, length_map. lia. }
    unfold relu_state. simpl. rewrite set_heap_twice, insert_insert_eq, Nat2N.id.
    by rewrite Hstep.
  - assert (relu_elem x = x) as Hxx by (unfold relu_elem; by rewrite E).
    rewrite Hxx in Hstep.
    unfold ret, relu_state. rewrite <- Hstep. by rewrite list_insert_id.
Qed.

(** [k] turns of the loop on an array of at least [k] elements. *)
Lemma relu_loop_prefix k :
  k <= length buf ->
  for_loop k 0%N (fun i _ => relu_body t i) tt w = (relu_state w a buf k, Ok tt).
Proof.
  intros Hk.
  destruct (for_loop_inv (fun i (_ : unit) => relu_body t i)
              (fun j s _ => s = relu_state w a buf j) k 0%N tt w)
    as (s' & [] & Hl & ->).
  - by rewrite relu_state_0.
  - intros j s1 [] Hj ->. exists (relu_state w a buf (S j)), tt. split; [|done].
    rewrite N.add_0_l. apply relu_body_step. lia.
  - done.
Qed.

(** On a shorter array the loop runs off its end. *)
Lemma relu_loop_overrun n :
  length buf < n ->
  exists w', for_loop n 0%N (fun i _ => relu_body t i) tt w = (w', Err UndefinedBehavior).
Proof.
  intros Hn. eexists.
  eapply for_loop_throw; [exact Hn | by apply relu_loop_prefix |].
  rewrite N.add_0_l. unfold relu_body, data. rewrite Hd.
  unfold bind, load. rewrite relu_state_lookup, Nat2N.id.
  rewrite lookup_ge_None_2; [done|].
  rewrite length_app, length_take, length_drop, length_map. lia.
Qed.
End Relu.

(** A run of [relu] that returns found an array long enough. *)
Lemma relu_returns t w w' :
  relu t w = (w', Ok tt) -> size t <> 0%N ->
  exists a buf, data_ t = Some a /\ w_heap w !! a = Some buf /\
                N.to_nat (size t) <= length buf /\
                w' = relu_state w a buf (N.to_nat (size t)).
Proof.
  unfold relu, for_each, for_range. intros Hrun Hn.
  destruct (N.to_nat (size t)) as [|n] eqn:En; [lia|].
  destruct (data_ t) as [a|] eqn:Hd.
  2: { rewrite for_loop_S in Hrun. unfold relu_body, data, load, bind in Hrun.
       by rewrite Hd in Hrun. }
  destruct (w_heap w !! a) as [buf|] eqn:Ha.
  2: { rewrite for_loop_S in Hrun. unfold relu_body, data, load, bind in Hrun.
       rewrite Hd in Hrun. by rewrite Ha in Hrun. }
  exists a, buf. split; [done|]. split; [done|].
  destruct (decide (S n <= length buf)) as [Hle|Hgt].
  - split; [done|]. rewrite (relu_loop_prefix t w a buf Hd Ha) in Hrun by done. congruence.
  - destruct (relu_loop_overrun t w a buf Hd Ha (S n)) as [w'' Hw'']; [lia|]. congruence.
Qed.

(** C9. [relu] is idempotent: for every tensor and world, running [relu]
    twice gives what running it once gives (the same world, hence the same
    contents, and the same outcome). On a tensor that satisfies the
    invariants it succeeds and rewrites each element [x] in place to
    [relu_elem x], which is [std::max(x, 0.0f)]: [0.0f] when [x < 0.0f] and
    [x] otherwise. With the arguments in the other order, [std::max(0.0f, x)]
    compares equal to it for every [x] but NaN. *)
Theorem relu_idempotent (t : Tensor) (w : World) :
  (relu t >> relu t) w = relu t w /\
  (forall buf, tensor_ok w t -> buffer_of w t = Some buf ->
     exists a, data t = Some a /\
       relu t w = (set_heap (<[a := map relu_elem buf]> (w_heap w)) w, Ok tt)) /\
  (forall x, relu_elem x = f32_max x f32_zero /\
     (x <> S754_nan -> f32_eqb (relu_elem x) (f32_max f32_zero x) = true)).
Proof.
  split; [|split].
  - unfold bind at 1. destruct (relu t w) as [w' [[]|e]] eqn:E; [|done].
    destruct (decide (size t = 0%N)) as [Hz|Hnz].
    + unfold relu, for_each, for_range in *. rewrite Hz in *. simpl in *.
      unfold ret in *. by simplify_eq.
    + destruct (relu_returns t w w' E Hnz) as (a & buf & Hd & Ha & Hlen & ->).
      set (n := N.to_nat (size t)) in *.
      set (buf' := take n (map relu_elem buf) ++ drop n buf).
      unfold relu, for_each, for_range. fold n.
      rewrite (relu_loop_prefix t _ a buf' Hd (relu_state_lookup w a buf n)).
      2: { unfold buf'. rewrite length_app, length_take, length_drop, length_map. lia. }
      f_equal. unfold relu_state. simpl. rewrite set_heap_twice, insert_insert_eq.
      do 2 f_equal. unfold buf'.
      rewrite map_app, take_app_le by (rewrite length_map, length_take, length_map; lia).
      rewrite drop_app_length' by (rewrite length_take, length_map; lia).
      f_equal. rewrite <- !fmap_take, <- list_fmap_compose.
      rewrite take_take, Nat.min_id.
      apply list_fmap_ext. intros ? x _. simpl. apply relu_elem_idemp.
  - intros buf Hok Hbuf.
    destruct (tensor_ok_buffer _ _ _ Hok Hbuf) as (a & Hd & Ha & Hlen).
    exists a. split; [done|].
    unfold relu, for_each, for_range, size.
    rewrite (relu_loop_prefix t w a buf Hd Ha) by lia.
    unfold relu_state. rewrite firstn_all2 by (rewrite length_map; lia).
    rewrite drop_ge by lia. by rewrite app_nil_r.
  - intros x. split; [done | apply relu_elem_max].
Qed.

(** ** TensorOps: matmul *)

Lemma N_range_succ n : N_range (N.succ n) = N_range n ++ [n].
Proof.
  unfold N_range. rewrite N2Nat.inj_succ, seq_S, map_app. simpl.
  by rewrite N2Nat.id.
Qed.

Lemma N_range_length n : length (N_range n) = N.to_nat n.
Proof. unfold N_range. by rewrite length_map, length_seq. Qed.

Lemma N_range_lookup n c : (c < n)%N -> N_range n !! N.to_nat c = Some c.
Proof.
  intros Hc. unfold N_range. rewrite list_lookup_fmap, lookup_seq_lt by lia.
  simpl. by rewrite N2Nat.id.
Qed.

Lemma release_releasable p w :
  releasable w p -> release p w = (set_heap (released p (w_heap w)) w, Ok tt).
Proof.
  destruct p as [a|]; simpl.
  - intros [buf Ha]. by rewrite Ha.
  - intros _. by rewrite set_heap_same.
Qed.

Lemma row_major_2 i j m p : row_major [i; j] [m; p] = (i * p + j)%N.
Proof. simpl. lia. Qed.

(** A matrix read through [at]. *)
Lemma Tensor_at_matrix t w m n i j a buf :
  shape_ t = [m; n] -> total_size_ t = (m * n)%N -> (total_size_ t < 2 ^ 64)%N ->
  data_ t = Some a -> w_heap w !! a = Some buf -> N.of_nat (length buf) = total_size_ t ->
  (i < m)%N -> (j < n)%N ->
  Tensor_at t [i; j] w = (w, Ok (mat_elem buf n i j)).
Proof.
  intros Hs Ht Hlt Hd Ha Hlen Hi Hj.
  destruct (Tensor_at_ok t [i; j] w a buf) as (v & Hv & Hat); try done.
  - rewrite Hs. by repeat constructor.
  - rewrite Hs, Ht. simpl. lia.
  - unfold rank. by rewrite Hs.
  - rewrite Hat. do 2 f_equal. unfold mat_elem.
    rewrite Hs, row_major_2 in Hv. by rewrite Hv.
Qed.

Section MatmulCell.
Variables (tensor1 tensor2 : Tensor) (w : World) (m n p : N).
Variables (a b : nat) (bufA bufB : list float32).
Hypothesis Hs1 : shape_ tensor1 = [m; n].
Hypothesis Hs2 : shape_ tensor2 = [n; p].
Hypothesis Ht1 : total_size_ tensor1 = (m * n)%N.
Hypothesis Ht2 : total_size_ tensor2 = (n * p)%N.
Hypothesis Hlt1 : (total_size_ tensor1 < 2 ^ 64)%N.
Hypothesis Hlt2 : (total_size_ tensor2 < 2 ^ 64)%N.
Hypothesis Hd1 : data_ tensor1 = Some a.
Hypothesis Hd2 : data_ tensor2 = Some b.
Hypothesis Ha : w_heap w !! a = Some bufA.
Hypothesis Hb : w_heap w !! b = Some bufB.
Hypothesis Hlen1 : N.of_nat (length bufA) = total_size_ tensor1.
Hypothesis Hlen2 : N.of_nat (length bufB) = total_size_ tensor2.

(** The innermost loop computes the dot product and changes nothing. *)
Lemma matmul_cell_ok i j :
  (i < m)%N -> (j < p)%N ->
  matmul_cell tensor1 tensor2 n i j w = (w, Ok (dot_product bufA bufB n p i j)).
Proof.
  intros Hi Hj. unfold matmul_cell.
  destruct (for_range_inv
    (fun k sum =>
       let* x := Tensor_at tensor1 [i; k] in
       let* y := Tensor_at tensor2 [k; j] in
       ret (f32_add sum (f32_mul x y)))
    (fun k s acc =>
       s = w /\
       acc = fold_left
               (fun sum k => f32_add sum (f32_mul (mat_elem bufA n i k) (mat_elem bufB p k j)))
               (N_range k) f32_zero)
    n f32_zero w) as (s' & acc' & Hl & -> & ->).
  - done.
  - intros k s1 acc1 Hk [-> ->]. eexists _, _. split.
    + erewrite bind_ok by (by eapply Tensor_at_matrix).
      erewrite bind_ok by (by eapply Tensor_at_matrix).
      reflexivity.
    + split; [done|]. by rewrite N_range_succ, fold_left_app.
  - done.
Qed.
End MatmulCell.

Lemma fill_state_lookup w q R L c :
  w_heap (fill_state w q R L c) !! q = Some (take c R ++ drop c L).
Proof. apply lookup_insert_eq. Qed.

Lemma fill_state_lookup_ne w q R L c x :
  x <> q -> w_heap (fill_state w q R L c) !! x = w_heap w !! x.
Proof. intros Hx. unfold fill_state. simpl. by rewrite lookup_insert_ne. Qed.

Lemma fill_state_0 w q R L : w_heap w !! q = Some L -> fill_state w q R L 0 = w.
Proof.
  intros Hq. unfold fill_state. simpl. rewrite drop_0, insert_id by done.
  apply set_heap_same.
Qed.

Lemma fill_state_all w q R L :
  length R = length L ->
  fill_state w q R L (length L) = set_heap (<[q := R]> (w_heap w)) w.
Proof.
  intros Hlen. unfold fill_state. rewrite firstn_all2 by lia.
  by rewrite drop_all, app_nil_r.
Qed.

Lemma matmul_values_length bufA bufB m n p :
  length (matmul_values bufA bufB m n p) = N.to_nat (m * p).
Proof. unfold matmul_values. by rewrite length_map, N_range_length. Qed.

Lemma matmul_values_lookup bufA bufB m n p i j :
  (i < m)%N -> (j < p)%N ->
  matmul_values bufA bufB m n p !! N.to_nat (i * p + j)
  = Some (dot_product bufA bufB n p i j).
Proof.
  intros Hi Hj. unfold matmul_values.
  rewrite list_lookup_fmap, N_range_lookup by nia. simpl.
  rewrite N.div_add_l, N.div_small, N.add_0_r by lia.
  rewrite N.add_comm, N.Div0.mod_add, N.mod_small by lia.
  done.
Qed.

Section MatmulLoops.
Variables (tensor1 tensor2 result : Tensor) (w : World) (m n p : N).
Variables (a b q : nat) (bufA bufB : list float32).
Hypothesis Hs1 : shape_ tensor1 = [m; n].
Hypothesis Hs2 : shape_ tensor2 = [n; p].
Hypothesis Hsr : shape_ result = [m; p].
Hypothesis Ht1 : total_size_ tensor1 = (m * n)%N.
Hypothesis Ht2 : total_size_ tensor2 = (n * p)%N.
Hypothesis Htr : total_size_ result = (m * p)%N.
Hypothesis Hlt1 : (total_size_ tensor1 < 2 ^ 64)%N.
Hypothesis Hlt2 : (total_size_ tensor2 < 2 ^ 64)%N.
Hypothesis Hltr : (total_size_ result < 2 ^ 64)%N.
Hypothesis Hd1 : data_ tensor1 = Some a.
Hypothesis Hd2 : data_ tensor2 = Some b.
Hypothesis Hdr : data_ result = Some q.
Hypothesis Ha : w_heap w !! a = Some bufA.
Hypothesis Hb : w_heap w !! b = Some bufB.
Hypothesis Hq : w_heap w !! q = Some (replicate (N.to_nat (m * p)) f32_zero).
Hypothesis Hlen1 : N.of_nat (length bufA) = total_size_ tensor1.
Hypothesis Hlen2 : N.of_nat (length bufB) = total_size_ tensor2.
Hypothesis Hqa : q <> a.
Hypothesis Hqb : q <> b.

Local Abbreviation cells_done := (matmul_progress w q bufA bufB m n p).

Lemma matmul_cell_step i j :
  (i < m)%N -> (j < p)%N ->
  (let* sum := matmul_cell tensor1 tensor2 n i j in
   Tensor_at_put result [i; j] sum) (cells_done (i * p + j))
  = (cells_done (i * p + N.succ j), Ok tt).
Proof.
  intros Hi Hj. unfold matmul_progress.
  set (C := matmul_values bufA bufB m n p).
  set (Z := replicate (N.to_nat (m * p)) f32_zero).
  erewrite bind_ok.
  2: { eapply (matmul_cell_ok tensor1 tensor2 _ m n p a b bufA bufB); try done.
       - by rewrite fill_state_lookup_ne.
       - by rewrite fill_state_lookup_ne. }
  rewrite (Tensor_at_put_ok result [i; j] _ _ q
             (take (N.to_nat (i * p + j)) C ++ drop (N.to_nat (i * p + j)) Z)).
  2: { rewrite Hsr. by repeat constructor. }
  2: { rewrite Hsr, Htr. simpl. lia. }
  2: done.
  2: { unfold rank. by rewrite Hsr. }
  2: done.
  2: apply fill_state_lookup.
  2: { unfold C, Z. rewrite length_app, length_take, length_drop,
         matmul_values_length, length_replicate, Htr. lia. }
  unfold fill_state. rewrite set_heap_heap, set_heap_twice, insert_insert_eq.
  rewrite Hsr, row_major_2.
  replace (N.to_nat (i * p + N.succ j)) with (S (N.to_nat (i * p + j))) by lia.
  do 3 f_equal.
  apply take_drop_step.
  - by apply matmul_values_lookup.
  - unfold Z. rewrite length_replicate. nia.
Qed.

Lemma matmul_row i :
  (i < m)%N ->
  for_each p (fun j =>
    let* sum := matmul_cell tensor1 tensor2 n i j in
    Tensor_at_put result [i; j] sum) (cells_done (i * p))
  = (cells_done (N.succ i * p), Ok tt).
Proof.
  intros Hi.
  destruct (for_each_inv
    (fun j => let* sum := matmul_cell tensor1 tensor2 n i j in
              Tensor_at_put result [i; j] sum)
    (fun j s => s = cells_done (i * p + j)) p (cells_done (i * p)))
    as (s' & Hl & ->).
  - by rewrite N.add_0_r.
  - intros j s1 Hj ->. eexists. split; [by apply matmul_cell_step | done].
  - rewrite Hl. do 2 f_equal. lia.
Qed.

Lemma matmul_loops :
  for_each m (fun i =>
    for_each p (fun j =>
      let* sum := matmul_cell tensor1 tensor2 n i j in
      Tensor_at_put result [i; j] sum)) w
  = (set_heap (<[q := matmul_values bufA bufB m n p]> (w_heap w)) w, Ok tt).
Proof.
  destruct (for_each_inv
    (fun i => for_each p (fun j =>
       let* sum := matmul_cell tensor1 tensor2 n i j in
       Tensor_at_put result [i; j] sum))
    (fun i s => s = cells_done (i * p)) m w) as (s' & Hl & ->).
  - unfold matmul_progress. simpl. by rewrite fill_state_0.
  - intros i s1 Hi ->. eexists. split; [by apply matmul_row | done].
  - rewrite Hl. f_equal. unfold matmul_progress.
    rewrite <- (length_replicate (N.to_nat (m * p)) f32_zero) at 2.
    apply fill_state_all. by rewrite matmul_values_length, length_replicate.
Qed.
End MatmulLoops.

Lemma vector_at_ok {S} (v : list N) i d (s : S) :
  v !! i = Some d -> vector_at v i s = (s, Ok d).
Proof. intros H. unfold vector_at. by rewrite H. Qed.

Lemma Tensor_move_assign_ok self other w :
  releasable w (data_ self) ->
  Tensor_move_assign self other w
  = (set_heap (released (data_ self) (w_heap w)) w,
     Ok ({| shape_ := shape_ other; total_size_ := total_size_ other;
            dtype_ := dtype_ other; data_ := data_ other |}, moved_from other)).
Proof.
  intros Hr. unfold Tensor_move_assign.
  erewrite bind_ok by (by apply release_releasable). done.
Qed.

Lemma released_insert_ne p q (v : list float32) h :
  p <> Some q -> released p (<[q := v]> h) = <[q := v]> (released p h).
Proof.
  destruct p as [a|]; simpl; [|done].
  intros Hne. apply delete_insert_ne. congruence.
Qed.

Lemma released_lookup_ne p h x :
  p <> Some x -> released p h !! x = h !! x.
Proof.
  destruct p as [a|]; simpl; [|done].
  intros Hne. apply lookup_delete_ne. congruence.
Qed.

Lemma releasable_fresh w p : releasable w p -> p <> Some (fresh (dom (w_heap w))).
Proof.
  destruct p as [a|]; simpl; [|done].
  intros [buf Ha] [= ->]. by rewrite fresh_not_live in Ha.
Qed.

(** [matmul] on two matrices that satisfy the invariants, with a result
    that owns an array of its own or none. *)
Lemma matmul_ok tensor1 tensor2 result w m n p bufA bufB :
  shape_ tensor1 = [m; n] -> shape_ tensor2 = [n; p] ->
  tensor_ok w tensor1 -> tensor_ok w tensor2 ->
  buffer_of w tensor1 = Some bufA -> buffer_of w tensor2 = Some bufB ->
  (m * p <= max_array_len w)%N ->
  releasable w (data_ result) ->
  data_ result <> data_ tensor1 -> data_ result <> data_ tensor2 ->
  matmul tensor1 tensor2 (w, result)
  = ((set_heap (<[fresh (dom (w_heap w)) := matmul_values bufA bufB m n p]>
                  (released (data_ result) (w_heap w))) w,
      {| shape_ := [m; p]; total_size_ := (m * p)%N; dtype_ := FLOAT32;
         data_ := Some (fresh (dom (w_heap w))) |}),
     Ok tt).
Proof.
  intros Hs1 Hs2 Hok1 Hok2 HbufA HbufB Hmax Hrel Hne1 Hne2.
  destruct (tensor_ok_buffer _ _ _ Hok1 HbufA) as (a & Hd1 & Ha & Hlen1).
  destruct (tensor_ok_buffer _ _ _ Hok2 HbufB) as (b & Hd2 & Hb & Hlen2).
  destruct Hok1 as [[_ Hnz1 Ht1 _] Hmax1 _], Hok2 as [[_ Hnz2 Ht2 _] Hmax2 _].
  rewrite Hs1 in Ht1, Hnz1. rewrite Hs2 in Ht2, Hnz2. simpl in Ht1, Ht2.
  apply Forall_cons in Hnz1 as [Hm _]. apply Forall_cons in Hnz2 as [_ Hp].
  apply Forall_cons in Hp as [Hp _].
  pose proof (max_array_len_lt w) as Hmaxlt.
  set (q := fresh (dom (w_heap w))).
  assert (w_heap w !! q = None) as Hq by apply fresh_not_live.
  assert (q <> a) as Hqa by congruence.
  assert (q <> b) as Hqb by congruence.
  unfold matmul, rank, shape. rewrite Hs1, Hs2. simpl length.
  rewrite decide_False by (intros [?|?]; done).
  do 2 (erewrite bind_ok by (by apply vector_at_ok)).
  rewrite decide_False by (intros ?; done).
  do 3 (erewrite bind_ok by (by apply vector_at_ok)).
  erewrite bind_ok.
  2: { apply lift_ok. apply Tensor_new_ok; [done | by repeat constructor | simpl; lia]. }
  fold q. rewrite bind_self.
  erewrite bind_ok.
  2: { apply lift_ok. apply Tensor_move_assign_ok.
       destruct (data_ result) as [r|] eqn:Hr; [|done]. simpl in *.
       destruct Hrel as [buf Hbuf]. rewrite lookup_insert_ne by congruence. eauto. }
  cbn [fst snd]. rewrite bind_set_self, bind_self.
  rewrite set_heap_heap, set_heap_twice.
  rewrite released_insert_ne by (by apply releasable_fresh).
  set (h1 := released (data_ result) (w_heap w)).
  set (res := {| shape_ := [m; p]; total_size_ := product [m; p]; dtype_ := FLOAT32;
                 data_ := Some q |}).
  assert (total_size_ tensor1 = (m * n)%N) as Ht1' by lia.
  assert (total_size_ tensor2 = (n * p)%N) as Ht2' by lia.
  assert (total_size_ res = (m * p)%N) as Htr by (simpl; lia).
  assert (total_size_ tensor1 < 2 ^ 64)%N as Hlt1 by lia.
  assert (total_size_ tensor2 < 2 ^ 64)%N as Hlt2 by lia.
  assert (total_size_ res < 2 ^ 64)%N as Hltr by lia.
  assert (data_ result <> Some a) as Hra by congruence.
  assert (data_ result <> Some b) as Hrb by congruence.
  erewrite lift_ok.
  2: { apply (matmul_loops tensor1 tensor2 res _ m n p a b q bufA bufB); try done.
       - simpl. unfold h1. rewrite lookup_insert_ne by done.
         by rewrite released_lookup_ne.
       - simpl. unfold h1. rewrite lookup_insert_ne by done.
         by rewrite released_lookup_ne.
       - simpl. rewrite lookup_insert_eq. do 3 f_equal. lia. }
  rewrite set_heap_heap, set_heap_twice, insert_insert_eq.
  unfold res. simpl. do 4 f_equal. lia.
Qed.









(** ** LinearLayer: forward *)

Lemma with_local_ok {T T' A} (obj : T') (m : St (World * T') A) dtor w (t : T) w' obj' a :
  m (w, obj) = ((w', obj'), Ok a) ->
  with_local obj m dtor (w, t) = ((w', t), Ok (obj', a)).
Proof. intros H. unfold with_local. simpl. by rewrite H. Qed.

Lemma affine_values_length bufX bufW bufb batch in_f out_f :
  length (affine_values bufX bufW bufb batch in_f out_f) = N.to_nat (batch * out_f).
Proof. unfold affine_values. by rewrite length_map, N_range_length. Qed.

Lemma affine_values_lookup bufX bufW bufb batch in_f out_f r j :
  (r < batch)%N -> (j < out_f)%N ->
  affine_values bufX bufW bufb batch in_f out_f !! N.to_nat (r * out_f + j)
  = Some (f32_add (dot_product bufX bufW in_f out_f r j) (vec_elem bufb j)).
Proof.
  intros Hr Hj. unfold affine_values.
  rewrite list_lookup_fmap, N_range_lookup by nia. simpl.
  rewrite N.div_add_l, N.div_small, N.add_0_r by lia.
  rewrite N.add_comm, N.Div0.mod_add, N.mod_small by lia.
  done.
Qed.

(** The loop of the batched path that adds the bias to every row. *)
Section BiasRows.
Variables (bias_ output : Tensor) (w : World) (batch out_f : N).
Variables (pb q : nat) (bufb Cv R : list float32).
Hypothesis Hsb : shape_ bias_ = [out_f].
Hypothesis Hso : shape_ output = [batch; out_f].
Hypothesis Htb : total_size_ bias_ = out_f.
Hypothesis Hto : total_size_ output = (batch * out_f)%N.
Hypothesis Hlto : (total_size_ output < 2 ^ 64)%N.
Hypothesis Hdb : data_ bias_ = Some pb.
Hypothesis Hdo : data_ output = Some q.
Hypothesis Hb : w_heap w !! pb = Some bufb.
Hypothesis Hq : w_heap w !! q = Some Cv.
Hypothesis Hlenb : N.of_nat (length bufb) = out_f.
Hypothesis Hlenc : length Cv = N.to_nat (batch * out_f).
Hypothesis HlenR : length R = N.to_nat (batch * out_f).
Hypothesis Hqb : q <> pb.
Hypothesis HR : forall r j, (r < batch)%N -> (j < out_f)%N ->
  R !! N.to_nat (r * out_f + j)
  = Some (f32_add (default f32_zero (Cv !! N.to_nat (r * out_f + j))) (vec_elem bufb j)).

Local Abbreviation rows_done c := (fill_state w q R Cv (N.to_nat c)).

Lemma add_bias_step r j :
  (r < batch)%N -> (j < out_f)%N ->
  (let* b := Tensor_at bias_ [j] in
   let* x := Tensor_at output [r; j] in
   Tensor_at_put output [r; j] (f32_add x b)) (rows_done (r * out_f + j))
  = (rows_done (r * out_f + N.succ j), Ok tt).
Proof.
  intros Hr Hj.
  assert (N.to_nat (r * out_f + j) < length Cv) as Hc by nia.
  set (c := N.to_nat (r * out_f + j)) in *.
  assert (w_heap (fill_state w q R Cv c) !! pb = Some bufb) as Hb'.
  { rewrite fill_state_lookup_ne; done. }
  assert (length (take c R ++ drop c Cv) = length Cv) as Hlen
    by (rewrite length_app, length_take, length_drop; lia).
  destruct (Tensor_at_ok bias_ [j] (fill_state w q R Cv c) pb bufb) as (b & Hbv & Hatb);
    try done.
  { rewrite Hsb. by repeat constructor. }
  { rewrite Hsb, Htb. simpl. lia. }
  { nia. }
  { unfold rank. by rewrite Hsb. }
  { lia. }
  rewrite Hsb in Hbv. simpl in Hbv. replace (j * 1 + 0)%N with j in Hbv by lia.
  erewrite bind_ok by exact Hatb.
  erewrite bind_ok.
  2: { eapply Tensor_at_matrix; [exact Hso | exact Hto | exact Hlto | exact Hdo
                               | apply fill_state_lookup | | done | done].
       rewrite Hlen, Hto. lia. }
  rewrite (Tensor_at_put_ok output [r; j] _ _ q (take c R ++ drop c Cv)); try done.
  2: { rewrite Hso. by repeat constructor. }
  2: { rewrite Hso, Hto. simpl. lia. }
  2: { unfold rank. by rewrite Hso. }
  2: apply fill_state_lookup.
  2: { rewrite Hlen, Hto. lia. }
  unfold fill_state. rewrite set_heap_heap, set_heap_twice, insert_insert_eq.
  rewrite Hso, row_major_2. fold c.
  replace (N.to_nat (r * out_f + N.succ j)) with (S c) by lia.
  do 3 f_equal. apply take_drop_step; [|done].
  unfold c. rewrite HR by done. do 2 f_equal.
  - unfold mat_elem. fold c. rewrite lookup_take_drop by lia. done.
  - unfold vec_elem. by rewrite Hbv.
Qed.

Lemma add_bias_rows :
  for_each batch (fun r =>
    for_each out_f (fun j =>
      let* b := Tensor_at bias_ [j] in
      let* x := Tensor_at output [r; j] in
      Tensor_at_put output [r; j] (f32_add x b))) w
  = (set_heap (<[q := R]> (w_heap w)) w, Ok tt).
Proof.
  destruct (for_each_inv
    (fun r => for_each out_f (fun j =>
       let* b := Tensor_at bias_ [j] in
       let* x := Tensor_at output [r; j] in
       Tensor_at_put output [r; j] (f32_add x b)))
    (fun r s => s = rows_done (r * out_f)) batch w) as (s' & Hl & ->).
  - simpl. by rewrite fill_state_0.
  - intros r s1 Hr ->.
    destruct (for_each_inv
      (fun j =>
         let* b := Tensor_at bias_ [j] in
         let* x := Tensor_at output [r; j] in
         Tensor_at_put output [r; j] (f32_add x b))
      (fun j s => s = rows_done (r * out_f + j)) out_f (rows_done (r * out_f)))
      as (s' & Hl & ->).
    + by rewrite N.add_0_r.
    + intros j s1 Hj ->. eexists. split; [by apply add_bias_step | done].
    + eexists. split; [exact Hl|]. f_equal. lia.
  - rewrite Hl. f_equal. rewrite <- Hlenc. apply fill_state_all. lia.
Qed.
End BiasRows.

(** The batched path of [forward]. *)
Lemma forward_batch_ok weights_ bias_ input output w batch in_f out_f bufX bufW bufb :
  linear_ok w weights_ bias_ in_f out_f ->
  shape_ input = [batch; in_f] -> tensor_ok w input ->
  buffer_of w input = Some bufX -> buffer_of w weights_ = Some bufW ->
  buffer_of w bias_ = Some bufb ->
  (batch * out_f <= max_array_len w)%N ->
  releasable w (data_ output) ->
  data_ output <> data_ input -> data_ output <> data_ weights_ ->
  data_ output <> data_ bias_ ->
  LinearLayer_forward weights_ bias_ input (w, output)
  = ((set_heap (<[fresh (dom (w_heap w)) := affine_values bufX bufW bufb batch in_f out_f]>
                  (released (data_ output) (w_heap w))) w,
      {| shape_ := [batch; out_f]; total_size_ := (batch * out_f)%N; dtype_ := FLOAT32;
         data_ := Some (fresh (dom (w_heap w))) |}),
     Ok tt).
Proof.
  intros [HsW Hsb HokW Hokb] Hsx Hokx HbufX HbufW Hbufb Hmax Hrel Hne1 Hne2 Hne3.
  destruct (tensor_ok_buffer _ _ _ Hokb Hbufb) as (pb & Hdb & Hb & Hlenb).
  pose proof (max_array_len_lt w) as Hmaxlt.
  assert (total_size_ bias_ = out_f) as Htb.
  { destruct Hokb as [[_ _ -> _] _ _]. rewrite Hsb. simpl. lia. }
  set (q := fresh (dom (w_heap w))).
  assert (w_heap w !! q = None) as Hq by apply fresh_not_live.
  assert (q <> pb) as Hqb by congruence.
  unfold LinearLayer_forward, rank, shape. rewrite Hsx, HsW. simpl length.
  rewrite decide_False by done. rewrite decide_True by done.
  do 2 (erewrite bind_ok by (by apply vector_at_ok)).
  rewrite decide_False by (intros ?; done).
  erewrite bind_ok by (by eapply matmul_ok).
  rewrite bind_self. cbn [shape_].
  do 2 (erewrite bind_ok by (by apply vector_at_ok)).
  fold q. erewrite lift_ok.
  2: { apply (add_bias_rows bias_ _ _ batch out_f pb q bufb
                (matmul_values bufX bufW batch in_f out_f)
                (affine_values bufX bufW bufb batch in_f out_f)); try done.
       all: try (simpl; lia).
       all: try (by rewrite matmul_values_length).
       all: try (by rewrite affine_values_length).
       all: try (simpl; apply lookup_insert_eq).
       - simpl. rewrite lookup_insert_ne by done.
         rewrite released_lookup_ne; [done | congruence].
       - intros r j Hr Hj. rewrite affine_values_lookup, matmul_values_lookup by done.
         done. }
  by rewrite set_heap_heap, set_heap_twice, insert_insert_eq.
Qed.

(** The loop of the single-sample path:
    [output.data()[i] = output_temp.data()[i] + bias_.data()[i]]. *)
Lemma add_bias_vector w qc pb q (Cv bufb L : list float32) n :
  w_heap w !! qc = Some Cv -> w_heap w !! pb = Some bufb -> w_heap w !! q = Some L ->
  length Cv = N.to_nat n -> length bufb = N.to_nat n -> length L = N.to_nat n ->
  q <> qc -> q <> pb ->
  for_each n (fun i =>
    let* a := load (Some qc) i in
    let* b := load (Some pb) i in
    store (Some q) i (f32_add a b)) w
  = (set_heap (<[q := zip_with f32_add Cv bufb]> (w_heap w)) w, Ok tt).
Proof.
  intros Hc Hb Hq HlenC Hlenb HlenL Hqc Hqb.
  set (R := zip_with f32_add Cv bufb).
  assert (length R = N.to_nat n) as HlenR by (unfold R; rewrite length_zip_with; lia).
  destruct (for_each_inv
    (fun i => let* a := load (Some qc) i in
              let* b := load (Some pb) i in
              store (Some q) i (f32_add a b))
    (fun i s => s = fill_state w q R L (N.to_nat i)) n w) as (s' & Hl & ->).
  - simpl. by rewrite fill_state_0.
  - intros i s1 Hi ->.
    destruct (lookup_lt_is_Some_2 Cv (N.to_nat i)) as [x Hx]; [lia|].
    destruct (lookup_lt_is_Some_2 bufb (N.to_nat i)) as [y Hy]; [lia|].
    eexists. split; [|done].
    erewrite bind_ok.
    2: { eapply load_ok; [|exact Hx]. by rewrite fill_state_lookup_ne. }
    erewrite bind_ok.
    2: { eapply load_ok; [|exact Hy]. by rewrite fill_state_lookup_ne. }
    erewrite store_ok; [| apply fill_state_lookup |].
    2: { rewrite length_app, length_take, length_drop. lia. }
    unfold fill_state. rewrite set_heap_heap, set_heap_twice, insert_insert_eq.
    replace (N.to_nat (N.succ i)) with (S (N.to_nat i)) by lia.
    do 3 f_equal. apply take_drop_step; [|lia].
    unfold R. rewrite lookup_zip_with. by rewrite Hx, Hy.
  - rewrite Hl. f_equal. rewrite <- HlenL. apply fill_state_all. lia.
Qed.

(** One row of a product plus the bias is the output of the layer on one
    row. *)
Lemma affine_values_row bufX bufW bufb in_f out_f :
  length bufb = N.to_nat out_f ->
  zip_with f32_add (matmul_values bufX bufW 1 in_f out_f) bufb
  = affine_values bufX bufW bufb 1 in_f out_f.
Proof.
  intros Hlen. apply list_eq. intros c.
  destruct (decide (c < N.to_nat out_f)) as [Hc|Hc].
  - destruct (lookup_lt_is_Some_2 bufb c) as [y Hy]; [lia|].
    pose proof (matmul_values_lookup bufX bufW 1 in_f out_f 0 (N.of_nat c)) as HC.
    pose proof (affine_values_lookup bufX bufW bufb 1 in_f out_f 0 (N.of_nat c)) as HA.
    rewrite N.mul_0_l, N.add_0_l, Nat2N.id in HC, HA.
    rewrite lookup_zip_with, HC, HA by lia. simpl. rewrite Hy. simpl.
    unfold vec_elem. by rewrite Nat2N.id, Hy.
  - rewrite !lookup_ge_None_2; [done |..].
    + rewrite affine_values_length. lia.
    + rewrite length_zip_with, matmul_values_length. lia.
Qed.

Lemma Tensor_destroy_ok t w :
  releasable w (data_ t) ->
  Tensor_destroy t w = (set_heap (released (data_ t) (w_heap w)) w, Ok tt).
Proof. apply release_releasable. Qed.

Lemma fresh_insert_ne (h : gmap nat (list float32)) q v :
  fresh (dom (<[q := v]> h)) <> q.
Proof.
  intros E. pose proof (fresh_not_live (<[q := v]> h)) as Hf.
  rewrite E in Hf. by rewrite lookup_insert_eq in Hf.
Qed.

Lemma fresh_insert_not_live (h : gmap nat (list float32)) q v :
  h !! fresh (dom (<[q := v]> h)) = None.
Proof.
  pose proof (fresh_not_live (<[q := v]> h)) as Hf.
  by rewrite lookup_insert_ne in Hf by (apply not_eq_sym, fresh_insert_ne).
Qed.

(** The single-sample path of [forward]. *)
Lemma forward_vector_ok weights_ bias_ input output w in_f out_f bufX bufW bufb :
  linear_ok w weights_ bias_ in_f out_f ->
  shape_ input = [in_f] -> tensor_ok w input ->
  buffer_of w input = Some bufX -> buffer_of w weights_ = Some bufW ->
  buffer_of w bias_ = Some bufb ->
  releasable w (data_ output) ->
  data_ output <> data_ input -> data_ output <> data_ weights_ ->
  data_ output <> data_ bias_ ->
  exists q,
    w_heap w !! q = None /\
    LinearLayer_forward weights_ bias_ input (w, output)
    = ((set_heap (<[q := affine_values bufX bufW bufb 1 in_f out_f]>
                    (released (data_ output) (w_heap w))) w,
        {| shape_ := [out_f]; total_size_ := out_f; dtype_ := FLOAT32; data_ := Some q |}),
       Ok tt).
Proof.
  intros [HsW Hsb HokW Hokb] Hsx Hokx HbufX HbufW Hbufb Hrel Hne1 Hne2 Hne3.
  destruct (tensor_ok_buffer _ _ _ Hokx HbufX) as (px & Hdx & Hx & Hlenx).
  destruct (tensor_ok_buffer _ _ _ HokW HbufW) as (pw & Hdw & Hw & Hlenw).
  destruct (tensor_ok_buffer _ _ _ Hokb Hbufb) as (pb & Hdb & Hb & Hlenb).
  pose proof (max_array_len_lt w) as Hmaxlt.
  assert (total_size_ input = in_f /\ in_f <> 0%N /\ (in_f <= max_array_len w)%N)
    as (Htx & Hin & Hinmax).
  { destruct Hokx as [[_ Hnz Ht _] Hmax _]. rewrite Hsx in Ht, Hnz. simpl in Ht.
    apply Forall_cons in Hnz as [? _]. split; [lia|]. split; [done | lia]. }
  assert (total_size_ bias_ = out_f /\ out_f <> 0%N /\ (out_f <= max_array_len w)%N)
    as (Htb & Hout & Houtmax).
  { destruct Hokb as [[_ Hnz Ht _] Hmax _]. rewrite Hsb in Ht, Hnz. simpl in Ht.
    apply Forall_cons in Hnz as [? _]. split; [lia|]. split; [done | lia]. }
  set (h := w_heap w).
  set (q1 := fresh (dom h)).
  set (h2 := <[q1 := bufX]> h).
  set (q2 := fresh (dom h2)).
  set (Cv := matmul_values bufX bufW 1 in_f out_f).
  set (h3 := <[q2 := Cv]> h2).
  set (q3 := fresh (dom h3)).
  assert (h !! q1 = None) as Hq1 by apply fresh_not_live.
  assert (h2 !! q2 = None) as Hq2 by apply fresh_not_live.
  assert (h3 !! q3 = None) as Hq3 by apply fresh_not_live.
  assert (q2 <> q1) as H21 by apply fresh_insert_ne.
  assert (h !! q2 = None) as Hq2' by apply fresh_insert_not_live.
  assert (q3 <> q2) as H32 by apply fresh_insert_ne.
  assert (h2 !! q3 = None) as Hq3' by apply fresh_insert_not_live.
  assert (q3 <> q1) as H31.
  { intros E. rewrite E in Hq3'. unfold h2 in Hq3'. by rewrite lookup_insert_eq in Hq3'. }
  assert (h !! q3 = None) as Hq3''.
  { unfold h2 in Hq3'. by rewrite lookup_insert_ne in Hq3' by done. }
  assert (forall q, h !! q = None -> q <> px /\ q <> pw /\ q <> pb) as Hfr.
  { intros q Hq. unfold h in Hq. repeat split; congruence. }
  destruct (Hfr q1 Hq1) as (H1x & H1w & H1b).
  destruct (Hfr q2 Hq2') as (H2x & H2w & H2b).
  destruct (Hfr q3 Hq3'') as (H3x & H3w & H3b).
  assert (forall r, data_ output = Some r -> r <> q1 /\ r <> q2 /\ r <> q3 /\ r <> pb)
    as Hout_ne.
  { intros r Hr. rewrite Hr in Hrel. destruct Hrel as [bufr Hbufr]. fold h in Hbufr.
    repeat split; congruence. }
  exists q3. split; [done|].
  set (input_2d := {| shape_ := [1%N; in_f]; total_size_ := product [1%N; in_f];
                      dtype_ := FLOAT32; data_ := Some q1 |}).
  set (w2 := set_heap h2 w).
  assert (tensor_ok w2 input_2d) as Hok2d.
  { split; [split|..]; simpl.
    - done.
    - by repeat constructor.
    - done.
    - exists q1, bufX. split; [done|]. unfold h2. rewrite lookup_insert_eq.
      split; [done | lia].
    - alloc_lia.
    - done. }
  assert (tensor_ok w2 weights_) as HokW2.
  { eapply tensor_ok_frame; [| |exact HokW]; [|done]. intros a Ha. simpl. unfold h2.
    rewrite lookup_insert_ne; [done | congruence]. }
  unfold LinearLayer_forward, rank, shape. rewrite Hsx, HsW. simpl length.
  rewrite decide_True by done.
  do 2 (erewrite bind_ok by (by apply vector_at_ok)).
  rewrite decide_False by (intros ?; done).
  erewrite bind_ok.
  2: { apply lift_ok. apply Tensor_new_ok; [done | by repeat constructor | alloc_lia]. }
  fold h q1 input_2d.
  assert (forall s,
    matmul input_2d weights_ (w2, s)
    = ((set_heap (<[q2 := Cv]> (released (data_ s) h2)) w2,
        {| shape_ := [1%N; out_f]; total_size_ := (1 * out_f)%N; dtype_ := FLOAT32;
           data_ := Some q2 |}), Ok tt) \/ data_ s <> None) as Hmm.
  { intros s. destruct (data_ s) eqn:Hs; [by right | left].
    rewrite <- Hs.
    eapply (matmul_ok input_2d weights_ s w2 1 in_f out_f bufX bufW); try done.
    - unfold buffer_of. simpl. unfold h2. by rewrite lookup_insert_eq.
    - unfold buffer_of. rewrite Hdw. simpl. unfold h2.
      rewrite lookup_insert_ne; [done | congruence].
    - alloc_lia.
    - by rewrite Hs.
    - by rewrite Hs.
    - rewrite Hs, Hdw. done. }
  destruct (Hmm Tensor_default) as [Hmatmul|]; [|done]. clear Hmm.
  simpl released in Hmatmul. fold h3 in Hmatmul.
  set (output_temp := {| shape_ := [1%N; out_f]; total_size_ := (1 * out_f)%N;
                         dtype_ := FLOAT32; data_ := Some q2 |}) in *.
  set (w1 := set_heap (<[q1 := replicate (N.to_nat (product [1%N; in_f])) f32_zero]> h) w).
  erewrite bind_ok.
  2: { apply on_throw_ok.
       erewrite bind_ok.
       2: { apply lift_ok. unfold data, size. rewrite Hdx.
            apply load_range_ok with (buf := bufX); [|lia].
            simpl. rewrite lookup_insert_ne; [done | congruence]. }
       rewrite firstn_all2 by lia.
       erewrite bind_ok.
       2: { apply lift_ok. eapply store_range_ok.
            - simpl. apply lookup_insert_eq.
            - rewrite length_replicate. simpl. lia. }
       unfold w1. rewrite set_heap_heap, set_heap_twice, insert_insert_eq.
       rewrite drop_ge by (rewrite length_replicate; simpl; lia).
       rewrite app_nil_r. fold h2 w2.
       erewrite bind_ok.
       2: { apply with_local_ok. exact Hmatmul. }
       cbn [fst snd]. unfold w2 at 1. rewrite set_heap_twice.
       erewrite bind_ok.
       2: { apply on_throw_ok.
            erewrite bind_ok by (by apply vector_at_ok).
            erewrite bind_ok.
            2: { apply lift_ok.
                 apply Tensor_new_ok; [done | by repeat constructor | alloc_lia]. }
            rewrite set_heap_heap, set_heap_twice. fold q3.
            rewrite bind_self.
            erewrite bind_ok.
            2: { apply lift_ok. apply Tensor_move_assign_ok.
                 destruct (data_ output) as [r|] eqn:Hr; [|done]. simpl in *.
                 destruct Hrel as [buf Hbuf]. fold h in Hbuf.
                 rewrite lookup_insert_ne by congruence.
                 unfold h3. rewrite lookup_insert_ne by congruence.
                 unfold h2. rewrite lookup_insert_ne by congruence. eauto. }
            cbn [fst snd]. rewrite bind_set_self, bind_self.
            rewrite set_heap_heap, set_heap_twice.
            apply lift_ok. unfold size, data. cbn [total_size_ data_]. rewrite Hdb.
            apply (add_bias_vector _ q2 pb q3 Cv bufb
                     (replicate (N.to_nat (product [out_f])) f32_zero)).
            - simpl. rewrite released_lookup_ne.
              + rewrite lookup_insert_ne by done. unfold h3. apply lookup_insert_eq.
              + intros E. rewrite E in Hrel. simpl in Hrel. fold h in Hrel.
                rewrite Hq2' in Hrel. by destruct Hrel.
            - simpl. rewrite released_lookup_ne by congruence.
              rewrite lookup_insert_ne by congruence.
              unfold h3. rewrite lookup_insert_ne by congruence.
              unfold h2. rewrite lookup_insert_ne by congruence. done.
            - simpl. rewrite released_lookup_ne.
              + apply lookup_insert_eq.
              + intros E. rewrite E in Hrel. simpl in Hrel. fold h in Hrel.
                rewrite Hq3'' in Hrel. by destruct Hrel.
            - unfold Cv. rewrite matmul_values_length. simpl. lia.
            - simpl. lia.
            - rewrite length_replicate. simpl. lia.
            - done.
            - congruence. }
       apply lift_ok. apply Tensor_destroy_ok. simpl.
       rewrite lookup_insert_ne by done.
       destruct (data_ output) as [r|] eqn:Hr; simpl.
       - rewrite lookup_delete_ne.
         + rewrite lookup_insert_ne by done. unfold h3. rewrite lookup_insert_eq. eauto.
         + intros ->. destruct Hrel as [? Hrel]. fold h in Hrel. congruence.
       - rewrite lookup_insert_ne by done. unfold h3. rewrite lookup_insert_eq. eauto. }
  erewrite lift_ok.
  2: { apply Tensor_destroy_ok. simpl.
       rewrite lookup_delete_ne by done. rewrite lookup_insert_ne by done.
       destruct (data_ output) as [r|] eqn:Hr; simpl.
       - rewrite lookup_delete_ne.
         + rewrite lookup_insert_ne by done. unfold h3. rewrite lookup_insert_ne by done.
           unfold h2. rewrite lookup_insert_eq. eauto.
         + intros ->. destruct Hrel as [? Hrel]. fold h in Hrel. congruence.
       - rewrite lookup_insert_ne by done. unfold h3. rewrite lookup_insert_ne by done.
         unfold h2. rewrite lookup_insert_eq. eauto. }
  rewrite !set_heap_heap, !set_heap_twice. simpl released.
  f_equal. f_equal.
  - f_equal. rewrite <- affine_values_row by lia. fold Cv.
    apply map_eq. intros x.
    destruct (data_ output) as [r|] eqn:Hr; simpl.
    + destruct Hrel as [bufr Hbufr]. fold h in Hbufr.
      assert (r <> q1 /\ r <> q2 /\ r <> q3) as (? & ? & ?) by (repeat split; congruence).
      destruct (decide (x = q1)) as [->|]; [| destruct (decide (x = q2)) as [->|];
        [| destruct (decide (x = q3)) as [->|]; [| destruct (decide (x = r)) as [->|]]]].
      all: repeat first [ rewrite lookup_delete_eq | rewrite lookup_insert_eq
                        | rewrite lookup_delete_ne by done
                        | rewrite lookup_insert_ne by done ];
           unfold h3, h2;
           repeat first [ rewrite lookup_delete_eq | rewrite lookup_insert_eq
                        | rewrite lookup_delete_ne by done
                        | rewrite lookup_insert_ne by done ]; try done.
    + destruct (decide (x = q1)) as [->|]; [| destruct (decide (x = q2)) as [->|];
        [| destruct (decide (x = q3)) as [->|]]].
      all: repeat first [ rewrite lookup_delete_eq | rewrite lookup_insert_eq
                        | rewrite lookup_delete_ne by done
                        | rewrite lookup_insert_ne by done ];
           unfold h3, h2;
           repeat first [ rewrite lookup_delete_eq | rewrite lookup_insert_eq
                        | rewrite lookup_delete_ne by done
                        | rewrite lookup_insert_ne by done ]; try done.
  - simpl. f_equal. lia.
Qed.

Lemma tensor_ok_fresh w q buf shp total :
  shp <> [] -> Forall (fun d => d <> 0%N) shp -> total = product shp ->
  (total <= max_array_len w)%N -> (N.of_nat (length shp) < 2 ^ 31)%N ->
  length buf = N.to_nat total ->
  w_heap w !! q = Some buf ->
  tensor_ok w {| shape_ := shp; total_size_ := total; dtype_ := FLOAT32;
                 data_ := Some q |}.
Proof.
  intros Hne Hnz Htot Hmax Hrank Hlen Hq. split; [split|..]; simpl; try done.
  exists q, buf. split; [done|]. split; [done | lia].
Qed.

(** C2. A linear layer with weight [W] of shape [[in_f; out_f]] and bias
    [b] of shape [[out_f]]: on an input of shape [[in_f]] [forward] leaves
    in [output] a tensor of shape [[out_f]] with
    [y[j] = (sum_i x[i] * W[i,j]) + b[j]]; on an input of shape
    [[batch; in_f]] a tensor of shape [[batch; out_f]] with the same formula
    on every row; it fails with DimensionMismatch when the feature
    dimension of the input differs from [in_f] and with InvalidRank when the
    rank of the input is neither 1 nor 2. With [W = [[1,2,3],[4,5,6]]],
    [b = [0.1,0.2,0.3]] and input [[1,2]] the output is [[9.1,12.2,15.3]]. *)
Theorem affine_forward (weights_ bias_ input output : Tensor) (w : World) (in_f out_f : N) :
  (forall bufX bufW bufb,
     linear_ok w weights_ bias_ in_f out_f ->
     shape input = [in_f] -> tensor_ok w input ->
     buffer_of w input = Some bufX -> buffer_of w weights_ = Some bufW ->
     buffer_of w bias_ = Some bufb ->
     releasable w (data output) ->
     data output <> data input -> data output <> data weights_ ->
     data output <> data bias_ ->
     exists w' y,
       LinearLayer_forward weights_ bias_ input (w, output) = ((w', y), Ok tt) /\
       shape y = [out_f] /\ tensor_ok w' y /\
       forall j, (j < out_f)%N ->
         Tensor_at y [j] w'
         = (w', Ok (f32_add (dot_product bufX bufW in_f out_f 0 j) (vec_elem bufb j)))) /\
  (forall batch bufX bufW bufb,
     linear_ok w weights_ bias_ in_f out_f ->
     shape input = [batch; in_f] -> tensor_ok w input ->
     buffer_of w input = Some bufX -> buffer_of w weights_ = Some bufW ->
     buffer_of w bias_ = Some bufb ->
     (batch * out_f <= max_array_len w)%N ->
     releasable w (data output) ->
     data output <> data input -> data output <> data weights_ ->
     data output <> data bias_ ->
     exists w' y,
       LinearLayer_forward weights_ bias_ input (w, output) = ((w', y), Ok tt) /\
       shape y = [batch; out_f] /\ tensor_ok w' y /\
       forall r j, (r < batch)%N -> (j < out_f)%N ->
         Tensor_at y [r; j] w'
         = (w', Ok (f32_add (dot_product bufX bufW in_f out_f r j) (vec_elem bufb j)))) /\
  (forall d, shape weights_ = [in_f; out_f] -> shape input = [d] -> d <> in_f ->
     LinearLayer_forward weights_ bias_ input (w, output)
     = ((w, output), Err DimensionMismatch)) /\
  (forall batch d, shape weights_ = [in_f; out_f] -> shape input = [batch; d] -> d <> in_f ->
     LinearLayer_forward weights_ bias_ input (w, output)
     = ((w, output), Err DimensionMismatch)) /\
  (rank input <> 1%N -> rank input <> 2%N ->
     LinearLayer_forward weights_ bias_ input (w, output) = ((w, output), Err InvalidRank)) /\
  snd (affine_scenario empty_world)
  = Ok ([3%N], [f32_lit 91 10; f32_lit 122 10; f32_lit 153 10]).
Proof.
  unfold shape, data. pose proof (max_array_len_lt w) as Hmaxlt.
  split; [|split; [|split; [|split; [|split]]]].
  - intros bufX bufW bufb Hlin Hsx Hokx HbufX HbufW Hbufb Hrel Hne1 Hne2 Hne3.
    destruct (forward_vector_ok weights_ bias_ input output w in_f out_f bufX bufW bufb)
      as (q & Hq & Hrun); try done.
    destruct Hlin as [HsW Hsb HokW Hokb].
    assert (out_f <> 0%N /\ (out_f <= max_array_len w)%N) as [Hout Houtmax].
    { destruct Hokb as [[_ Hnz Ht _] Hmax _]. rewrite Hsb in Ht, Hnz. simpl in Ht.
      apply Forall_cons in Hnz as [? _]. split; [done | lia]. }
    eexists _, _. split; [exact Hrun|]. split; [done|].
    set (Y := affine_values bufX bufW bufb 1 in_f out_f).
    assert (length Y = N.to_nat out_f) as HlenY
      by (unfold Y; rewrite affine_values_length; lia).
    split.
    + apply tensor_ok_fresh with (buf := Y); simpl; try done; try lia.
      * by repeat constructor.
      * apply lookup_insert_eq.
    + intros j Hj.
      destruct (Tensor_at_ok
                  {| shape_ := [out_f]; total_size_ := out_f; dtype_ := FLOAT32;
                     data_ := Some q |} [j]
                  (set_heap (<[q := Y]> (released (data_ output) (w_heap w))) w) q Y)
        as (v & Hv & Hat); simpl; try done; try lia.
      * by repeat constructor.
      * apply lookup_insert_eq.
      * rewrite Hat. do 2 f_equal. simpl in Hv.
        replace (j * 1 + 0)%N with j in Hv by lia.
        pose proof (affine_values_lookup bufX bufW bufb 1 in_f out_f 0 j) as HY.
        rewrite N.mul_0_l, N.add_0_l in HY. fold Y in HY. rewrite HY in Hv by lia.
        by simplify_eq.
  - intros batch bufX bufW bufb Hlin Hsx Hokx HbufX HbufW Hbufb Hmax Hrel Hne1 Hne2 Hne3.
    pose proof (forward_batch_ok weights_ bias_ input output w batch in_f out_f
                  bufX bufW bufb Hlin Hsx Hokx HbufX HbufW Hbufb Hmax Hrel Hne1 Hne2 Hne3)
      as Hrun.
    destruct Hlin as [HsW Hsb HokW Hokb].
    assert (out_f <> 0%N) as Hout.
    { destruct Hokb as [[_ Hnz _ _] _ _]. rewrite Hsb in Hnz.
      by apply Forall_cons in Hnz as [? _]. }
    assert (batch <> 0%N) as Hbatch.
    { destruct Hokx as [[_ Hnz _ _] _ _]. rewrite Hsx in Hnz.
      by apply Forall_cons in Hnz as [? _]. }
    eexists _, _. split; [exact Hrun|]. split; [done|].
    set (q := fresh (dom (w_heap w))).
    set (Y := affine_values bufX bufW bufb batch in_f out_f).
    assert (length Y = N.to_nat (batch * out_f)) as HlenY
      by (unfold Y; by rewrite affine_values_length).
    split.
    + apply tensor_ok_fresh with (buf := Y); simpl; try done; try lia.
      * by repeat constructor.
      * apply lookup_insert_eq.
    + intros r j Hr Hj.
      erewrite Tensor_at_matrix; try done; simpl; try lia.
      * do 2 f_equal. unfold mat_elem. fold Y. unfold Y.
        by rewrite affine_values_lookup.
      * apply lookup_insert_eq.
      * fold Y. rewrite HlenY. lia.
  - intros d HsW Hsx Hne. unfold LinearLayer_forward, rank, shape. rewrite Hsx, HsW.
    simpl length. rewrite decide_True by done.
    do 2 (erewrite bind_ok by (by apply vector_at_ok)).
    by rewrite decide_True.
  - intros batch d HsW Hsx Hne. unfold LinearLayer_forward, rank, shape. rewrite Hsx, HsW.
    simpl length. rewrite decide_False by done. rewrite decide_True by done.
    do 2 (erewrite bind_ok by (by apply vector_at_ok)).
    by rewrite decide_True.
  - intros H1 H2. unfold LinearLayer_forward. by rewrite !decide_False.
  - vm_compute. reflexivity.
Qed.

(** ** InferenceEngine: the statistics *)

Section EngineFrame.
Context `{Platform}.

Lemma engine_frame_ret {A} (a : A) : engine_frame (ret a).
Proof. intros w e o _. by eexists _, _, _. Qed.

Lemma engine_frame_throw {A} err : engine_frame (@throw _ A err).
Proof. intros w e o _. by eexists _, _, _. Qed.

Lemma engine_frame_bind {A B} (m : St _ A) (k : A -> St _ B) :
  engine_frame m -> (forall a, engine_frame (k a)) -> engine_frame (bind m k).
Proof.
  intros Hm Hk w e o He. destruct (Hm w e o He) as (w1 & o1 & r1 & E1).
  unfold bind. rewrite E1. destruct r1 as [a|err]; [|by eexists _, _, _].
  apply Hk, He.
Qed.

Lemma engine_frame_lift {A} (m : M A) : engine_frame (lift m).
Proof.
  intros w e o _. unfold lift. simpl. destruct (m w) as [w' r]. by eexists _, _, _.
Qed.

Lemma engine_frame_on_throw {A} (m : St _ A) h :
  engine_frame m -> engine_frame h -> engine_frame (on_throw m h).
Proof.
  intros Hm Hh w e o He. destruct (Hm w e o He) as (w1 & o1 & r1 & E1).
  unfold on_throw. rewrite E1. destruct r1 as [a|err]; [by eexists _, _, _|].
  destruct (Hh w1 e o1 He) as (w2 & o2 & r2 & E2). rewrite E2. by eexists _, _, _.
Qed.

Lemma engine_frame_catch_wrap {A} (m : St _ A) wrap :
  engine_frame m -> engine_frame (catch_wrap m wrap).
Proof.
  intros Hm w e o He. destruct (Hm w e o He) as (w1 & o1 & r1 & E1).
  unfold catch_wrap. rewrite E1. destruct r1 as [a|[]]; by eexists _, _, _.
Qed.

Lemma engine_frame_with_local {T' A} (obj : T') (m : St (World * T') A) dtor :
  engine_frame (with_local obj m dtor).
Proof.
  intros w e o _. unfold with_local. simpl.
  destruct (m (w, obj)) as [[w1 obj1] [a|err]]; by eexists _, _, _.
Qed.

Lemma engine_frame_now : engine_frame now.
Proof. intros w e o _. by eexists _, _, _. Qed.

Lemma engine_frame_for_loop {A} (body : N -> A -> St _ A) :
  (forall i acc, engine_frame (body i acc)) ->
  forall count i acc, engine_frame (for_loop count i body acc).
Proof.
  intros Hbody count. induction count as [|count IH]; intros i acc.
  - apply engine_frame_ret.
  - simpl. apply engine_frame_bind; [apply Hbody | intros; apply IH].
Qed.

(** [self] hands the engine on; what follows need only keep the engine
    when it was handed one with profiling disabled. *)
Lemma engine_frame_self {B} (k : InferenceEngine * Tensor -> St _ B) :
  (forall this, profiling_enabled_ (fst this) = false -> engine_frame (k this)) ->
  engine_frame (bind self k).
Proof. intros Hk w e o He. rewrite bind_self. by apply (Hk (e, o)). Qed.

Lemma run_layer_frame i locals : engine_frame (run_layer i locals).
Proof.
  unfold run_layer. apply engine_frame_self. intros this Hoff.
  destruct (getLayers (model_ (fst this)) !! N.to_nat i) as [layer|];
    [|apply engine_frame_throw].
  apply engine_frame_bind; [apply engine_frame_now|]. intros layer_start.
  apply engine_frame_on_throw; [|apply engine_frame_lift].
  apply engine_frame_catch_wrap.
  apply engine_frame_bind; [apply engine_frame_with_local|]. intros ran.
  rewrite Hoff.
  apply engine_frame_bind; [apply engine_frame_ret|]. intros _.
  apply engine_frame_bind; [apply engine_frame_lift|]. intros moved.
  apply engine_frame_bind; [apply engine_frame_lift|]. intros cleared.
  apply engine_frame_ret.
Qed.

Lemma executeForwardPass_frame input : engine_frame (executeForwardPass input).
Proof.
  intros w e o He. unfold executeForwardPass. rewrite bind_self. cbn [fst].
  destruct (engine_frame_lift (Tensor_copy input) w e o He) as (w1 & o1 & r1 & E1).
  unfold bind at 1. rewrite E1. destruct r1 as [current_input|err]; [|by eexists _, _, _].
  destruct (engine_frame_for_loop run_layer run_layer_frame
              (N.to_nat (N.of_nat (length (getLayers (model_ e))))) 0%N
              (current_input, Tensor_default) w1 e o1 He) as (w2 & o2 & r2 & E2).
  unfold bind at 1, for_range. rewrite E2.
  destruct r2 as [locals|err]; [|by eexists _, _, _].
  rewrite bind_self. cbn [fst snd].
  destruct (engine_frame_lift (Tensor_move_assign o2 (fst locals)) w2 e o2 He)
    as (w3 & o3 & r3 & E3).
  unfold bind at 1. rewrite E3. destruct r3 as [moved|err]; [|by eexists _, _, _].
  rewrite bind_set_self.
  destruct (decide (shape (fst moved) <> getOutputShape (model_ e))); by eexists _, _, _.
Qed.

(** [predict] with profiling disabled leaves the engine as it is. *)
Lemma predict_keeps_engine input w e :
  profiling_enabled_ e = false ->
  exists w' r, predict input (w, e) = ((w', e), r).
Proof.
  intros He. unfold predict.
  unfold bind at 1, now at 1. cbn [fst snd].
  rewrite bind_self, He.
  rewrite bind_ret_l, bind_self.
  unfold bind at 1.
  destruct (validateInput e input _) as [s1 r1] eqn:E1.
  assert (s1 = ({| w_heap := w_heap w; w_ticks := S (w_ticks w);
                 w_alloc_limit := w_alloc_limit w |}, e)) as ->.
  { unfold validateInput in E1.
    repeat (destruct (decide _) in E1 || destruct (existsb _ _) in E1);
      unfold throw, ret in E1; by simplify_eq. }
  destruct r1 as [[]|err]; [|by eexists _, _].
  unfold bind at 1, with_out. cbn [fst snd].
  destruct (executeForwardPass_frame input
              {| w_heap := w_heap w; w_ticks := S (w_ticks w);
                 w_alloc_limit := w_alloc_limit w |} e Tensor_default He)
    as (w2 & o2 & r2 & E2).
  rewrite E2. destruct r2 as [[]|err]; [|by eexists _, _].
  rewrite bind_self, He, bind_ret_l. by eexists _, _.
Qed.
End EngineFrame.

(** ** ModelLoader *)

Lemma read_bytes_ok n w (file : ifstream) :
  N.to_nat n <= length file ->
  read_bytes n (w, file) = ((w, drop (N.to_nat n) file), Ok (take (N.to_nat n) file)).
Proof. intros Hn. unfold read_bytes. simpl. by rewrite decide_True. Qed.

Lemma read_bytes_short n w (file : ifstream) :
  length file < N.to_nat n ->
  read_bytes n (w, file) = ((w, []), Err TruncatedFile).
Proof. intros Hn. unfold read_bytes. simpl. rewrite decide_False; [done | lia]. Qed.

Lemma readBinary_Header_ok w (file : ifstream) :
  16 <= length file ->
  readBinary_Header (w, file) = ((w, drop 16 file), Ok (header_of file)).
Proof.
  intros Hn. unfold readBinary_Header.
  erewrite bind_ok by (apply read_bytes_ok; simpl; lia).
  unfold ret, header_of. do 2 f_equal.
  change (N.to_nat 16) with 16.
  rewrite !take_take, !take_drop_commute, !take_take. simpl Nat.min.
  done.
Qed.

(** The part of [loadFromFile] up to the end of [validateHeader]. *)
Lemma loadFromFile_header_error bytes w e :
  16 <= length bytes ->
  validateHeader (header_of bytes) (w, drop 16 bytes) = ((w, drop 16 bytes), Err e) ->
  e <> UndefinedBehavior ->
  loadFromFile (Some bytes) w = (w, Err (LoadFailed e)).
Proof.
  intros Hlen Hval Hne. unfold loadFromFile, catch_wrap, loadFromFile_body.
  erewrite bind_ok by (by apply readBinary_Header_ok).
  erewrite bind_err by exact Hval.
  by destruct e.
Qed.

(** *** Every function of the loader reads from the front of the stream *)

Lemma reads_front_ret {A} (a : A) : reads_front (ret a).
Proof.
  intros w bytes w' rest a' E. unfold ret in E. simplify_eq.
  exists []. split; [done|]. split; [done|]. simpl. lia.
Qed.

Lemma reads_front_throw {A} e : reads_front (@throw _ A e).
Proof. intros w bytes w' rest a E. by unfold throw in E. Qed.

Lemma reads_front_bind {A B} (m : St _ A) (k : A -> St _ B) :
  reads_front m -> (forall a, reads_front (k a)) -> reads_front (bind m k).
Proof.
  intros Hm Hk w bytes w2 rest2 b E. unfold bind in E.
  destruct (m (w, bytes)) as [[w1 rest1] [a|e]] eqn:E1; [|done].
  destruct (Hm _ _ _ _ _ E1) as (u1 & -> & Hloc1 & Htr1).
  destruct (Hk a _ _ _ _ _ E) as (u2 & -> & Hloc2 & Htr2).
  exists (u1 ++ u2). split; [by rewrite app_assoc|]. split.
  - intros r. unfold bind. by rewrite <- app_assoc, Hloc1, Hloc2.
  - intros j Hj. rewrite length_app in Hj. unfold bind.
    destruct (decide (j < length u1)) as [Hlt|Hge].
    + rewrite take_app_le by lia.
      destruct (Htr1 j Hlt) as (w'' & rest'' & ->). by eexists _, _.
    + rewrite take_app_ge by lia. rewrite Hloc1.
      destruct (Htr2 (j - length u1)) as (w'' & rest'' & ->); [lia|]. by eexists _, _.
Qed.

Lemma reads_front_lift {A} (m : M A) : reads_front (lift m).
Proof.
  intros w bytes w' rest a E. unfold lift in *. simpl in *.
  destruct (m w) as [w1 r] eqn:E1. simplify_eq.
  exists []. split; [done|]. split; [|simpl; lia].
  intros r. simpl. by rewrite ?E1.
Qed.

Lemma reads_front_on_throw {A} (m : St _ A) h : reads_front m -> reads_front (on_throw m h).
Proof.
  intros Hm w bytes w' rest a E. unfold on_throw in E.
  destruct (m (w, bytes)) as [[w1 rest1] [a1|e]] eqn:E1; [|done]. simplify_eq.
  destruct (Hm _ _ _ _ _ E1) as (u & -> & Hloc & Htr).
  exists u. split; [done|]. split.
  - intros r. unfold on_throw. by rewrite Hloc.
  - intros j Hj. unfold on_throw.
    destruct (Htr j Hj) as (w'' & rest'' & ->).
    destruct (h (w'', rest'')) as [[w3 rest3] r3]. by eexists _, _.
Qed.

Lemma reads_front_with_local {T' A} (obj : T') (m : St (World * T') A) dtor :
  reads_front (with_local obj m dtor).
Proof.
  intros w bytes w' rest a E. unfold with_local in *. simpl in *.
  destruct (m (w, obj)) as [[w1 obj1] [a1|e]] eqn:E1; [|done]. simplify_eq.
  exists []. split; [done|]. split; [|simpl; lia].
  intros r. simpl. by rewrite ?E1.
Qed.

Lemma reads_front_read_bytes n : reads_front (read_bytes n).
Proof.
  intros w bytes w' rest a E. unfold read_bytes in E. simpl in E.
  destruct (decide (N.to_nat n <= length bytes)) as [Hn|Hn]; [|done]. simplify_eq.
  exists (take (N.to_nat n) bytes). split; [by rewrite take_drop|].
  assert (length (take (N.to_nat n) bytes) = N.to_nat n) as Hlen
    by (rewrite length_take; lia).
  split.
  - intros r. rewrite read_bytes_ok by (rewrite length_app; lia).
    rewrite drop_app_length' by done. rewrite take_app_length' by done. done.
  - intros j Hj. rewrite read_bytes_short; [by eexists _, _|].
    rewrite length_take. lia.
Qed.

Lemma reads_front_for_loop {A} (body : N -> A -> St _ A) :
  (forall i acc, reads_front (body i acc)) ->
  forall count i acc, reads_front (for_loop count i body acc).
Proof.
  intros Hbody count. induction count as [|count IH]; intros i acc.
  - apply reads_front_ret.
  - simpl. apply reads_front_bind; [apply Hbody | intros; apply IH].
Qed.

Lemma reads_front_u8 : reads_front readBinary_u8.
Proof.
  apply reads_front_bind; [apply reads_front_read_bytes | intros; apply reads_front_ret].
Qed.

Lemma reads_front_u32 : reads_front readBinary_u32.
Proof.
  apply reads_front_bind; [apply reads_front_read_bytes | intros; apply reads_front_ret].
Qed.

Lemma reads_front_Header : reads_front readBinary_Header.
Proof.
  apply reads_front_bind; [apply reads_front_read_bytes | intros; apply reads_front_ret].
Qed.

Lemma reads_front_validateHeader header : reads_front (validateHeader header).
Proof.
  unfold validateHeader.
  repeat (destruct (decide _); [apply reads_front_throw|]). apply reads_front_ret.
Qed.

Lemma reads_front_read_dims rank : reads_front (read_dims rank).
Proof.
  apply reads_front_for_loop. intros i v.
  apply reads_front_bind; [apply reads_front_u32 | intros; apply reads_front_ret].
Qed.

Lemma reads_front_loadTensor : reads_front loadTensor.
Proof.
  unfold loadTensor.
  apply reads_front_bind; [apply reads_front_u8|]. intros dtype_raw.
  apply reads_front_bind; [apply reads_front_u32|]. intros rank.
  destruct (decide _); [apply reads_front_throw|].
  apply reads_front_bind; [apply reads_front_read_dims|]. intros shape.
  apply reads_front_bind; [apply reads_front_lift|]. intros tensor.
  apply reads_front_bind; [|intros; apply reads_front_ret].
  apply reads_front_on_throw.
  destruct (decide _); [apply reads_front_throw|].
  apply reads_front_bind; [apply reads_front_read_bytes | intros; apply reads_front_lift].
Qed.

Lemma reads_front_loadLayer : reads_front loadLayer.
Proof.
  unfold loadLayer.
  apply reads_front_bind; [apply reads_front_u8|]. intros raw.
  destruct raw as [|[[|[]|]|[|[]|]|]]; try apply reads_front_throw; try apply reads_front_ret.
  apply reads_front_bind; [apply reads_front_loadTensor|]. intros weights.
  apply reads_front_bind; [apply reads_front_on_throw, reads_front_loadTensor|]. intros bias.
  apply reads_front_bind; [apply reads_front_on_throw, reads_front_lift|]. intros layer.
  apply reads_front_bind; [apply reads_front_lift | intros; apply reads_front_ret].
Qed.

Lemma reads_front_body : reads_front loadFromFile_body.
Proof.
  unfold loadFromFile_body.
  apply reads_front_bind; [apply reads_front_Header|]. intros header.
  apply reads_front_bind; [apply reads_front_validateHeader|]. intros _.
  apply reads_front_bind.
  { apply reads_front_for_loop. intros i model.
    apply reads_front_bind; [apply reads_front_on_throw, reads_front_loadLayer|].
    intros layer.
    apply reads_front_bind; [apply reads_front_with_local | intros; apply reads_front_ret]. }
  intros model. apply reads_front_on_throw.
  apply reads_front_bind; [apply reads_front_u32|]. intros input_rank.
  apply reads_front_bind; [apply reads_front_read_dims|]. intros input_shape.
  apply reads_front_bind; [apply reads_front_u32|]. intros output_rank.
  apply reads_front_bind; [apply reads_front_read_dims|]. intros output_shape.
  apply reads_front_bind; [apply reads_front_with_local | intros; apply reads_front_ret].
Qed.

(** *** A load that throws has read from the front of the stream too *)

Lemma fails_front_ret {A} (a : A) : fails_front (ret a).
Proof. intros w bytes w' rest e E. by unfold ret in E. Qed.

Lemma fails_front_throw {A} e : fails_front (@throw _ A e).
Proof.
  intros w bytes w' rest e' E. unfold throw in E. simplify_eq.
  exists []. split; [done|]. simpl. lia.
Qed.

Lemma fails_front_bind {A B} (m : St _ A) (k : A -> St _ B) :
  reads_front m -> fails_front m -> (forall a, fails_front (k a)) ->
  fails_front (bind m k).
Proof.
  intros Hm Hfm Hk w bytes w2 rest2 e E. unfold bind in E.
  destruct (m (w, bytes)) as [[w1 rest1] [a|e1]] eqn:E1.
  - destruct (Hm _ _ _ _ _ E1) as (u1 & -> & Hloc1 & Htr1).
    destruct (Hk a _ _ _ _ _ E) as (u2 & -> & Htr2).
    exists (u1 ++ u2). split; [by rewrite app_assoc|].
    intros j Hj. rewrite length_app in Hj. unfold bind.
    destruct (decide (j < length u1)) as [Hlt|Hge].
    + rewrite take_app_le by lia.
      destruct (Htr1 j Hlt) as (w'' & rest'' & ->). by eexists _, _.
    + rewrite take_app_ge by lia. rewrite Hloc1.
      destruct (Htr2 (j - length u1)) as (w'' & rest'' & ->); [lia|]. by eexists _, _.
  - simplify_eq.
    destruct (Hfm _ _ _ _ _ E1) as (u1 & -> & Htr1).
    exists u1. split; [done|].
    intros j Hj. unfold bind.
    destruct (Htr1 j Hj) as (w'' & rest'' & ->). by eexists _, _.
Qed.

Lemma fails_front_lift {A} (m : M A) : fails_front (lift m).
Proof.
  intros w bytes w' rest e E. unfold lift in *. simpl in *.
  destruct (m w) as [w1 r] eqn:E1. simplify_eq.
  exists []. split; [done|]. simpl. lia.
Qed.

(** The handlers of the loader destroy locals and leave the stream alone. *)
Lemma fails_front_on_throw {A} (m : St _ A) (h : M unit) :
  fails_front m -> fails_front (on_throw m (lift h)).
Proof.
  intros Hm w bytes w' rest e E. unfold on_throw in E.
  destruct (m (w, bytes)) as [[w1 rest1] [a1|e1]] eqn:E1; [done|].
  unfold lift in E. simpl in E. destruct (h w1) as [w3 r3] eqn:E3. simpl in E.
  simplify_eq.
  destruct (Hm _ _ _ _ _ E1) as (u & -> & Htr).
  exists u. split; [done|].
  intros j Hj. unfold on_throw.
  destruct (Htr j Hj) as (w'' & rest'' & ->).
  destruct (lift h (w'', rest'')) as [[w4 rest4] r4]. by eexists _, _.
Qed.

Lemma fails_front_with_local {T' A} (obj : T') (m : St (World * T') A) dtor :
  fails_front (with_local obj m dtor).
Proof.
  intros w bytes w' rest e E. unfold with_local in *. simpl in *.
  destruct (m (w, obj)) as [[w1 obj1] [a1|e1]] eqn:E1; [done|]. simplify_eq.
  exists []. split; [done|]. simpl. lia.
Qed.

Lemma fails_front_read_bytes n : fails_front (read_bytes n).
Proof.
  intros w bytes w' rest e E. unfold read_bytes in E. simpl in E.
  destruct (decide (N.to_nat n <= length bytes)) as [Hn|Hn]; [done|]. simplify_eq.
  exists bytes. split; [by rewrite app_nil_r|].
  intros j Hj. rewrite read_bytes_short; [by eexists _, _|].
  rewrite length_take. lia.
Qed.

Lemma fails_front_for_loop {A} (body : N -> A -> St _ A) :
  (forall i acc, reads_front (body i acc)) ->
  (forall i acc, fails_front (body i acc)) ->
  forall count i acc, fails_front (for_loop count i body acc).
Proof.
  intros Hr Hbody count. induction count as [|count IH]; intros i acc.
  - apply fails_front_ret.
  - simpl. apply fails_front_bind; [apply Hr | apply Hbody | intros; apply IH].
Qed.

Lemma fails_front_u8 : fails_front readBinary_u8.
Proof.
  apply fails_front_bind;
    [apply reads_front_read_bytes | apply fails_front_read_bytes
    | intros; apply fails_front_ret].
Qed.

Lemma fails_front_u32 : fails_front readBinary_u32.
Proof.
  apply fails_front_bind;
    [apply reads_front_read_bytes | apply fails_front_read_bytes
    | intros; apply fails_front_ret].
Qed.

Lemma fails_front_Header : fails_front readBinary_Header.
Proof.
  apply fails_front_bind;
    [apply reads_front_read_bytes | apply fails_front_read_bytes
    | intros; apply fails_front_ret].
Qed.

Lemma fails_front_validateHeader header : fails_front (validateHeader header).
Proof.
  unfold validateHeader.
  repeat (destruct (decide _); [apply fails_front_throw|]). apply fails_front_ret.
Qed.

Lemma fails_front_read_dims rank : fails_front (read_dims rank).
Proof.
  apply fails_front_for_loop; intros i v.
  - apply reads_front_bind; [apply reads_front_u32 | intros; apply reads_front_ret].
  - apply fails_front_bind;
      [apply reads_front_u32 | apply fails_front_u32 | intros; apply fails_front_ret].
Qed.

Lemma fails_front_loadTensor : fails_front loadTensor.
Proof.
  unfold loadTensor.
  apply fails_front_bind; [apply reads_front_u8 | apply fails_front_u8|].
  intros dtype_raw.
  apply fails_front_bind; [apply reads_front_u32 | apply fails_front_u32|].
  intros rank.
  destruct (decide _); [apply fails_front_throw|].
  apply fails_front_bind; [apply reads_front_read_dims | apply fails_front_read_dims|].
  intros shape.
  apply fails_front_bind; [apply reads_front_lift | apply fails_front_lift|].
  intros tensor.
  assert (forall m : St (World * ifstream) unit,
            m = (if decide (DataType_of_raw dtype_raw <> FLOAT32)
                 then throw UnsupportedDType
                 else let* bs := read_bytes (wrap64 (size tensor * 4)) in
                      lift (store_range (data tensor) (floats_of_bytes bs))) ->
            reads_front m /\ fails_front m) as Hpayload.
  { intros m ->. destruct (decide _).
    - split; [apply reads_front_throw | apply fails_front_throw].
    - split.
      + apply reads_front_bind; [apply reads_front_read_bytes|].
        intros; apply reads_front_lift.
      + apply fails_front_bind;
          [apply reads_front_read_bytes | apply fails_front_read_bytes|].
        intros; apply fails_front_lift. }
  destruct (Hpayload _ eq_refl) as [Hr Hf].
  apply fails_front_bind; [| |intros; apply fails_front_ret].
  - by apply reads_front_on_throw.
  - by apply fails_front_on_throw.
Qed.

Lemma fails_front_loadLayer : fails_front loadLayer.
Proof.
  unfold loadLayer.
  apply fails_front_bind; [apply reads_front_u8 | apply fails_front_u8|]. intros raw.
  destruct raw as [|[[|[]|]|[|[]|]|]]; try apply fails_front_throw; try apply fails_front_ret.
  apply fails_front_bind; [apply reads_front_loadTensor | apply fails_front_loadTensor|].
  intros weights.
  apply fails_front_bind;
    [apply reads_front_on_throw, reads_front_loadTensor
    | apply fails_front_on_throw, fails_front_loadTensor|].
  intros bias.
  apply fails_front_bind;
    [apply reads_front_on_throw, reads_front_lift
    | apply fails_front_on_throw, fails_front_lift|].
  intros layer.
  apply fails_front_bind;
    [apply reads_front_lift | apply fails_front_lift | intros; apply fails_front_ret].
Qed.

Lemma fails_front_body : fails_front loadFromFile_body.
Proof.
  unfold loadFromFile_body.
  apply fails_front_bind; [apply reads_front_Header | apply fails_front_Header|].
  intros header.
  apply fails_front_bind;
    [apply reads_front_validateHeader | apply fails_front_validateHeader|].
  intros _.
  apply fails_front_bind.
  { apply reads_front_for_loop. intros i model.
    apply reads_front_bind; [apply reads_front_on_throw, reads_front_loadLayer|].
    intros layer.
    apply reads_front_bind; [apply reads_front_with_local | intros; apply reads_front_ret]. }
  { apply fails_front_for_loop; intros i model.
    - apply reads_front_bind; [apply reads_front_on_throw, reads_front_loadLayer|].
      intros layer.
      apply reads_front_bind; [apply reads_front_with_local|].
      intros; apply reads_front_ret.
    - apply fails_front_bind;
        [apply reads_front_on_throw, reads_front_loadLayer
        | apply fails_front_on_throw, fails_front_loadLayer|].
      intros layer.
      apply fails_front_bind;
        [apply reads_front_with_local | apply fails_front_with_local|].
      intros; apply fails_front_ret. }
  intros model. apply fails_front_on_throw.
  apply fails_front_bind; [apply reads_front_u32 | apply fails_front_u32|].
  intros input_rank.
  apply fails_front_bind; [apply reads_front_read_dims | apply fails_front_read_dims|].
  intros input_shape.
  apply fails_front_bind; [apply reads_front_u32 | apply fails_front_u32|].
  intros output_rank.
  apply fails_front_bind; [apply reads_front_read_dims | apply fails_front_read_dims|].
  intros output_shape.
  apply fails_front_bind;
    [apply reads_front_with_local | apply fails_front_with_local|].
  intros; apply fails_front_ret.
Qed.

(** Whatever the outcome of the load, a file cut short inside the bytes
    the load has read fails with TruncatedFile. *)
Lemma loadFromFile_body_cut w bytes k :
  k < bytes_read bytes w ->
  exists w'' rest'',
    loadFromFile_body (w, take k bytes) = ((w'', rest''), Err TruncatedFile).
Proof.
  unfold bytes_read. intros Hk.
  destruct (loadFromFile_body (w, bytes)) as [[w1 rest] [model|e]] eqn:Hbody;
    simpl in Hk.
  - destruct (reads_front_body _ _ _ _ _ Hbody) as (used & -> & _ & Htr).
    rewrite length_app in Hk. rewrite take_app_le by lia. apply Htr. lia.
  - destruct (fails_front_body _ _ _ _ _ Hbody) as (used & -> & Htr).
    rewrite length_app in Hk. rewrite take_app_le by lia. apply Htr. lia.
Qed.

(** *** What a successful load went through *)

Lemma bind_inv_ok {S A B} (m : St S A) (k : A -> St S B) s s' b :
  bind m k s = (s', Ok b) ->
  exists s1 a, m s = (s1, Ok a) /\ k a s1 = (s', Ok b).
Proof.
  unfold bind. destruct (m s) as [s1 [a|e]]; [|done]. intros E. by exists s1, a.
Qed.

Lemma on_throw_inv_ok {S A} (m : St S A) h s s' a :
  on_throw m h s = (s', Ok a) -> m s = (s', Ok a).
Proof. unfold on_throw. by destruct (m s) as [s1 [a1|e]]. Qed.

Lemma validateHeader_inv {S} header (s s' : S) :
  validateHeader header s = (s', Ok tt) ->
  magic header = MAGIC_NUMBER /\ version_major header = VERSION_MAJOR /\
  (1 <= num_layers header <= 1000)%N.
Proof.
  unfold validateHeader. repeat (destruct (decide _); [done|]).
  intros _. split; [by apply dec_stable|]. split; [by apply dec_stable | lia].
Qed.

Lemma readBinary_Header_inv w (file : ifstream) s' header :
  readBinary_Header (w, file) = (s', Ok header) ->
  16 <= length file /\ header = header_of file.
Proof.
  intros E. destruct (decide (16 <= length file)) as [Hn|Hn].
  - rewrite readBinary_Header_ok in E by done. by simplify_eq.
  - unfold readBinary_Header in E. erewrite bind_err in E; [done|].
    apply read_bytes_short. simpl. change (Pos.to_nat 16) with 16. lia.
Qed.

(** Every turn of the loop over the layers adds one layer. *)
Lemma load_layers_count count : forall i model s s' model',
  for_loop count i
    (fun (_ : N) model =>
       let* layer := on_throw loadLayer (lift (Model_destroy model)) in
       let* added := with_local model (addLayer (Some layer)) Model_destroy in
       ret (fst added))
    model s = (s', Ok model') ->
  length (layers_ model') = length (layers_ model) + count.
Proof.
  induction count as [|count IH]; intros i model s s' model' E.
  - simpl in E. unfold ret in E. simplify_eq. lia.
  - rewrite for_loop_S in E. apply bind_inv_ok in E as (s1 & model1 & Hbody & Hrest).
    apply IH in Hrest. rewrite Hrest.
    apply bind_inv_ok in Hbody as (s2 & layer & _ & Hadd).
    apply bind_inv_ok in Hadd as (s3 & added & Hadd & Hret).
    unfold ret in Hret. simplify_eq.
    unfold with_local, addLayer, bind, self, set_self in Hadd. simpl in Hadd.
    simplify_eq. simpl. rewrite length_app. simpl. lia.
Qed.

Lemma loadFromFile_body_complete w bytes s' model :
  loadFromFile_body (w, bytes) = (s', Ok model) ->
  16 <= length bytes /\
  magic (header_of bytes) = MAGIC_NUMBER /\
  version_major (header_of bytes) = VERSION_MAJOR /\
  (1 <= num_layers (header_of bytes) <= 1000)%N /\
  length (layers_ model) = N.to_nat (num_layers (header_of bytes)).
Proof.
  intros E. unfold loadFromFile_body in E.
  apply bind_inv_ok in E as (s1 & header & Hh & E).
  destruct s1 as [w1 f1]. apply readBinary_Header_inv in Hh as [Hlen ->].
  apply bind_inv_ok in E as (s2 & [] & Hv & E).
  apply validateHeader_inv in Hv as (Hm & Hver & Hn).
  apply bind_inv_ok in E as (s3 & model1 & Hloop & E).
  apply load_layers_count in Hloop. simpl in Hloop.
  apply on_throw_inv_ok in E.
  apply bind_inv_ok in E as (s4 & input_rank & _ & E).
  apply bind_inv_ok in E as (s5 & input_shape & _ & E).
  apply bind_inv_ok in E as (s6 & output_rank & _ & E).
  apply bind_inv_ok in E as (s7 & output_shape & _ & E).
  apply bind_inv_ok in E as (s8 & set & Hset & E).
  unfold ret in E. simplify_eq.
  unfold with_local, setInputShape, setOutputShape, bind, self, set_self in Hset.
  simpl in Hset. simplify_eq. simpl. done.
Qed.

(** C4. [loadFromFile] fails with TruncatedFile on a file too short for
    the header, with FormatError when the magic of the header is not
    0x4E4E494D, with UnsupportedVersion when its major version is not 1,
    with EmptyModel when it declares no layer and with TooManyLayers when
    it declares more than 1000 (each failure wrapped with the path, as all
    failures of the load are, and the checks made in this order); a file
    that loads is read up to some point only, loads the same from the bytes
    read alone, and a load that returns a model returns it whole, with
    every layer the header declares; and whatever the file and whatever the
    outcome of its load, be it a model or any failure, the file cut short
    anywhere inside the bytes that load has read fails with TruncatedFile:
    a read that finds too few bytes, at any step and in any record, ends
    the load with that failure. *)
Theorem loadFromFile_strict (bytes : list byte) (w : World) :
  (length bytes < 16 ->
     loadFromFile (Some bytes) w = (w, Err (LoadFailed TruncatedFile))) /\
  (16 <= length bytes -> magic (header_of bytes) <> 0x4E4E494D%N ->
     loadFromFile (Some bytes) w = (w, Err (LoadFailed FormatError))) /\
  (16 <= length bytes -> magic (header_of bytes) = 0x4E4E494D%N ->
     version_major (header_of bytes) <> 1%N ->
     loadFromFile (Some bytes) w = (w, Err (LoadFailed UnsupportedVersion))) /\
  (16 <= length bytes -> magic (header_of bytes) = 0x4E4E494D%N ->
     version_major (header_of bytes) = 1%N -> num_layers (header_of bytes) = 0%N ->
     loadFromFile (Some bytes) w = (w, Err (LoadFailed EmptyModel))) /\
  (16 <= length bytes -> magic (header_of bytes) = 0x4E4E494D%N ->
     version_major (header_of bytes) = 1%N -> (1000 < num_layers (header_of bytes))%N ->
     loadFromFile (Some bytes) w = (w, Err (LoadFailed TooManyLayers))) /\
  (forall w' model,
     loadFromFile (Some bytes) w = (w', Ok model) ->
     length (layers_ model) = N.to_nat (num_layers (header_of bytes)) /\
     exists used rest,
       bytes = used ++ rest /\
       length used = bytes_read bytes w /\
       loadFromFile (Some used) w = (w', Ok model) /\
       forall k, k < length used ->
         exists w'', loadFromFile (Some (take k used)) w
                     = (w'', Err (LoadFailed TruncatedFile))) /\
  (forall k, k < bytes_read bytes w ->
     exists w'', loadFromFile (Some (take k bytes)) w
                 = (w'', Err (LoadFailed TruncatedFile))) /\
  (forall more, length bytes < bytes_read (bytes ++ more) w ->
     exists w'', loadFromFile (Some bytes) w
                 = (w'', Err (LoadFailed TruncatedFile))).
Proof.
  split; [|split; [|split; [|split; [|split; [|split; [|split]]]]]].
  - intros Hlen.
    assert (loadFromFile_body (w, bytes) = ((w, []), Err TruncatedFile)) as Hbody.
    { unfold loadFromFile_body, readBinary_Header.
      erewrite bind_err; [done|]. erewrite bind_err; [done|].
      apply read_bytes_short. simpl. change (Pos.to_nat 16) with 16. lia. }
    unfold loadFromFile, catch_wrap. by rewrite Hbody.
  - intros Hlen Hm. apply loadFromFile_header_error; [done | | done].
    unfold validateHeader, MAGIC_NUMBER. by rewrite decide_True.
  - intros Hlen Hm Hv. apply loadFromFile_header_error; [done | | done].
    unfold validateHeader, MAGIC_NUMBER, VERSION_MAJOR.
    rewrite decide_False by (intros ?; done). by rewrite decide_True.
  - intros Hlen Hm Hv Hn. apply loadFromFile_header_error; [done | | done].
    unfold validateHeader, MAGIC_NUMBER, VERSION_MAJOR.
    rewrite decide_False by (intros ?; done).
    rewrite decide_False by (intros ?; done). by rewrite decide_True.
  - intros Hlen Hm Hv Hn. apply loadFromFile_header_error; [done | | done].
    unfold validateHeader, MAGIC_NUMBER, VERSION_MAJOR.
    rewrite decide_False by (intros ?; done).
    rewrite decide_False by (intros ?; done).
    rewrite decide_False by lia. by rewrite decide_True.
  - intros w' model E. unfold loadFromFile, catch_wrap in E.
    destruct (loadFromFile_body (w, bytes)) as [[w1 rest] [model1|e]] eqn:Hbody.
    2: { by destruct e. }
    simplify_eq. split.
    + by apply loadFromFile_body_complete in Hbody as (_ & _ & _ & _ & ?).
    + destruct (reads_front_body _ _ _ _ _ Hbody) as (used & Hsplit & Hsame & Htr).
      exists used, rest. split; [done|]. split.
      { unfold bytes_read. rewrite Hbody. simpl. rewrite Hsplit, length_app. lia. }
      split.
      { specialize (Hsame []). rewrite app_nil_r in Hsame.
        unfold loadFromFile, catch_wrap. by rewrite Hsame. }
      intros k Hk.
      destruct (Htr k Hk) as (w'' & rest'' & Hcut).
      exists w''. unfold loadFromFile, catch_wrap. by rewrite Hcut.
  - intros k Hk.
    destruct (loadFromFile_body_cut w bytes k Hk) as (w'' & rest'' & Hcut).
    exists w''. unfold loadFromFile, catch_wrap. by rewrite Hcut.
  - intros more Hk.
    destruct (loadFromFile_body_cut w (bytes ++ more) (length bytes) Hk)
      as (w'' & rest'' & Hcut).
    rewrite take_app_length in Hcut.
    exists w''. unfold loadFromFile, catch_wrap. by rewrite Hcut.
Qed.

(** ** Tensor: invariants, reshape, move *)

(** X2. The constructor establishes the four invariants when the shape is
    not empty, has no zero dimension, and the product of the dimensions is
    a length that [new float[n]] grants in the world of the call. *)
Lemma Tensor_new_invariants shape dt w :
  shape <> [] -> Forall (fun d => d <> 0%N) shape ->
  (product shape <= max_array_len w)%N ->
  exists w' t, Tensor_new shape dt w = (w', Ok t) /\ Tensor_invariants w' t.
Proof.
  intros Hne Hnz Hmax. eexists _, _. split; [by apply Tensor_new_ok|].
  split; simpl; try done.
  eexists _, _. split; [done|]. rewrite lookup_insert_eq. split; [done|].
  rewrite length_replicate. lia.
Qed.

(** C3. The constructors reject the empty shape, but [reshape] does not:
    a tensor of one element, built by the constructor, is reshaped to the
    empty shape without failure, and the tensor it leaves has an empty
    shape. Likewise the constructor accepts the shape [[2^32; 2^32]], whose
    size wraps around to 0, and leaves a tensor whose size is not the
    product of its dimensions. *)
Theorem reshape_skips_validation :
  Tensor_new [] FLOAT32 empty_world = (empty_world, Err InvalidShape) /\
  (let* t := Tensor_new [1%N] FLOAT32 in Tensor_reshape t []) empty_world
  = (set_heap {[ 0 := [f32_zero] ]} empty_world,
     Ok {| shape_ := []; total_size_ := 1; dtype_ := FLOAT32; data_ := Some 0 |}) /\
  Tensor_new [4294967296; 4294967296]%N FLOAT32 empty_world
  = (set_heap {[ 0 := [] ]} empty_world,
     Ok {| shape_ := [4294967296; 4294967296]%N; total_size_ := 0; dtype_ := FLOAT32;
           data_ := Some 0 |}) /\
  product [4294967296; 4294967296]%N <> 0%N.
Proof. repeat split; by vm_compute. Qed.

(** C6. Move construction and move assignment from [T] give the
    destination the shape, size, dtype and buffer of [T], with the elements
    the buffer held; the source is left with an empty shape and no buffer,
    and with the size it had: [size()] still reports the element count of
    [T]. Move assignment also releases the buffer the destination owned. *)
Theorem move_transfers_buffer (T self : Tensor) (w : World) :
  (shape (fst (Tensor_move T)) = shape T /\
   size (fst (Tensor_move T)) = size T /\
   dtype (fst (Tensor_move T)) = dtype T /\
   data (fst (Tensor_move T)) = data T /\
   buffer_of w (fst (Tensor_move T)) = buffer_of w T /\
   shape (snd (Tensor_move T)) = [] /\
   data (snd (Tensor_move T)) = None /\
   size (snd (Tensor_move T)) = size T) /\
  (releasable w (data self) -> data self <> data T ->
   exists w',
     Tensor_move_assign self T w = (w', Ok (Tensor_move T)) /\
     w_heap w' = released (data self) (w_heap w) /\
     buffer_of w' (fst (Tensor_move T)) = buffer_of w T).
Proof.
  split; [done|]. unfold data. intros Hrel Hne.
  eexists. split; [by apply Tensor_move_assign_ok|]. split; [done|].
  unfold buffer_of. simpl. destruct (data_ T) as [a|]; [|done].
  apply released_lookup_ne. congruence.
Qed.

(** ** InferenceEngine: statistics *)

(** C5. A call of [predict] made while profiling is disabled leaves the
    engine, and so the statistics read through [getLastInferenceStats], as
    they were before the call, whether the call returns or throws: they
    are at their defaults after the call when they were before it, and
    they are still those of the earlier call when an earlier call was
    profiled. *)
Theorem predict_unprofiled_keeps_stats `{Platform}
    (input : Tensor) (w : World) (e : InferenceEngine) :
  profiling_enabled_ e = false ->
  snd (fst (predict input (w, e))) = e /\
  getLastInferenceStats (snd (fst (predict input (w, e)))) = getLastInferenceStats e /\
  (getLastInferenceStats e = InferenceStats_default ->
   getLastInferenceStats (snd (fst (predict input (w, e)))) = InferenceStats_default).
Proof.
  intros He. destruct (predict_keeps_engine input w e He) as (w' & r & ->). simpl.
  by repeat split.
Qed.

(** ** Loops that rewrite an array front to back *)

(** A loop whose turn [j] takes the array at [a] from [take j R ++ drop j L]
    to [take (S j) R ++ drop (S j) L]. *)
Lemma rewrite_loop (body : N -> M unit) (w : World) (a : nat) (R L : list float32)
    (k : nat) :
  w_heap w !! a = Some L ->
  (forall j, j < k ->
     body (N.of_nat j) (fill_state w a R L j) = (fill_state w a R L (S j), Ok tt)) ->
  for_loop k 0%N (fun i _ => body i) tt w = (fill_state w a R L k, Ok tt).
Proof.
  intros Ha Hstep.
  destruct (for_loop_inv (fun i (_ : unit) => body i)
              (fun j s _ => s = fill_state w a R L j) k 0%N tt w)
    as (s' & [] & Hl & ->).
  - by rewrite fill_state_0.
  - intros j s1 [] Hj ->. exists (fill_state w a R L (S j)), tt.
    split; [|done]. rewrite N.add_0_l. by apply Hstep.
  - done.
Qed.

(** One turn of [p[i] = f(p[i])]. *)
Lemma map_step (f : float32 -> float32) (w : World) (a : nat) (L : list float32) (j : nat) :
  j < length L ->
  (let* x := load (Some a) (N.of_nat j) in store (Some a) (N.of_nat j) (f x))
    (fill_state w a (map f L) L j)
  = (fill_state w a (map f L) L (S j), Ok tt).
Proof.
  intros Hj. destruct (lookup_lt_is_Some_2 L j) as [x Hx]; [done|].
  erewrite bind_ok.
  2: { eapply load_ok; [apply fill_state_lookup|].
       rewrite Nat2N.id, lookup_take_drop; [done | rewrite length_map; lia]. }
  erewrite store_ok; [| apply fill_state_lookup |].
  2: { rewrite Nat2N.id, length_take_drop by apply length_map. done. }
  unfold fill_state. simpl. rewrite set_heap_twice, insert_insert_eq. do 3 f_equal.
  rewrite Nat2N.id. apply take_drop_step; [|done].
  by rewrite list_lookup_fmap, Hx.
Qed.

(** [for (i < n) p[i] = f(p[i])] on an array of length [n]. *)
Lemma map_loop (f : float32 -> float32) (w : World) (a : nat) (L : list float32) (n : N) :
  w_heap w !! a = Some L -> N.to_nat n = length L ->
  for_each n (fun i => let* x := load (Some a) i in store (Some a) i (f x)) w
  = (set_heap (<[a := map f L]> (w_heap w)) w, Ok tt).
Proof.
  intros Ha Hn. unfold for_each, for_range.
  rewrite (rewrite_loop _ w a (map f L) L) by (done || (intros; apply map_step; lia)).
  rewrite Hn, fill_state_all by apply length_map. done.
Qed.

(** One turn of [p[i] = op(p[i], q[i])]; [q] may be [p]. *)
Lemma zip_step (op : float32 -> float32 -> float32) (w : World) (a b : nat)
    (bufA bufB : list float32) (j : nat) :
  w_heap w !! a = Some bufA -> w_heap w !! b = Some bufB ->
  length bufA = length bufB -> j < length bufA ->
  (let* x := load (Some a) (N.of_nat j) in
   let* y := load (Some b) (N.of_nat j) in
   store (Some a) (N.of_nat j) (op x y))
    (fill_state w a (zip_with op bufA bufB) bufA j)
  = (fill_state w a (zip_with op bufA bufB) bufA (S j), Ok tt).
Proof.
  intros Ha Hb Hlen Hj.
  destruct (lookup_lt_is_Some_2 bufA j) as [x Hx]; [done|].
  destruct (lookup_lt_is_Some_2 bufB j) as [y Hy]; [lia|].
  assert (length (zip_with op bufA bufB) = length bufA) as Hlz.
  { rewrite length_zip_with. lia. }
  assert ((take j (zip_with op bufA bufB) ++ drop j bufA) !! j = Some x) as Hcur.
  { rewrite lookup_take_drop; [done | lia]. }
  erewrite bind_ok.
  2: { eapply load_ok; [apply fill_state_lookup | by rewrite Nat2N.id]. }
  assert (load (Some b) (N.of_nat j) (fill_state w a (zip_with op bufA bufB) bufA j)
          = (fill_state w a (zip_with op bufA bufB) bufA j, Ok y)) as Hly.
  { destruct (decide (b = a)) as [Heq|Hne].
    - subst b. assert (y = x) as -> by congruence.
      eapply load_ok; [apply fill_state_lookup | by rewrite Nat2N.id].
    - eapply load_ok; [| by rewrite Nat2N.id].
      rewrite (fill_state_lookup_ne w a _ _ j b Hne). exact Hb. }
  erewrite bind_ok by exact Hly.
  erewrite store_ok; [| apply fill_state_lookup |].
  2: { rewrite Nat2N.id, length_take_drop by done. done. }
  unfold fill_state. simpl. rewrite set_heap_twice, insert_insert_eq. do 3 f_equal.
  rewrite Nat2N.id. apply take_drop_step; [|done].
  rewrite lookup_zip_with. by rewrite Hx; simpl; rewrite Hy.
Qed.

(** [for (i < n) p[i] = op(p[i], q[i])] on arrays of length [n]. *)
Lemma zip_loop (op : float32 -> float32 -> float32) (w : World) (a b : nat)
    (bufA bufB : list float32) (n : N) :
  w_heap w !! a = Some bufA -> w_heap w !! b = Some bufB ->
  length bufA = length bufB -> N.to_nat n = length bufA ->
  for_each n
    (fun i =>
       let* x := load (Some a) i in
       let* y := load (Some b) i in
       store (Some a) i (op x y)) w
  = (set_heap (<[a := zip_with op bufA bufB]> (w_heap w)) w, Ok tt).
Proof.
  intros Ha Hb Hlen Hn. unfold for_each, for_range.
  rewrite (rewrite_loop _ w a (zip_with op bufA bufB) bufA)
    by (done || (intros; apply zip_step; (done || lia))).
  rewrite Hn, fill_state_all; [done|]. rewrite length_zip_with. lia.
Qed.

(** ** Tensor: construction from data, copies, element access *)

Lemma validateShape_empty {S} (s : S) : validateShape [] s = (s, Err InvalidShape).
Proof. done. Qed.

Lemma validateShape_zero {S} (shape : list N) (s : S) :
  0%N ∈ shape -> validateShape shape s = (s, Err InvalidShape).
Proof.
  intros Hin. unfold validateShape. destruct shape as [|d shape']; [done|].
  assert (existsb (fun dim => (dim =? 0)%N) (d :: shape') = true) as ->; [|done].
  apply existsb_exists. exists 0%N. split; [|done]. by apply list_elem_of_In.
Qed.

(** X4. The constructor from a shape and data: an empty shape or a zero
    dimension is refused with InvalidShape; data whose length is not the
    size computed from the shape is refused with SizeMismatch; in both cases
    nothing is allocated. Otherwise the tensor satisfies the four
    invariants, holds exactly the data given, and no array that was live is
    touched. *)
Theorem Tensor_new_data_spec (dims : list N) (values : list float32) (dt : DataType)
    (w : World) :
  (dims = [] \/ 0%N ∈ dims ->
     Tensor_new_data dims values dt w = (w, Err InvalidShape)) /\
  (dims <> [] -> Forall (fun d => d <> 0%N) dims ->
   N.of_nat (length values) <> accumulate_product dims ->
     Tensor_new_data dims values dt w = (w, Err SizeMismatch)) /\
  (dims <> [] -> Forall (fun d => d <> 0%N) dims ->
   (product dims <= max_array_len w)%N ->
   N.of_nat (length values) = product dims ->
     exists w' t,
       Tensor_new_data dims values dt w = (w', Ok t) /\
       shape t = dims /\ dtype t = dt /\
       Tensor_invariants w' t /\ buffer_of w' t = Some values /\
       buffer_of w t = None /\
       forall a, is_Some (w_heap w !! a) -> w_heap w' !! a = w_heap w !! a).
Proof.
  split; [|split].
  - intros [->|Hz]; unfold Tensor_new_data.
    + by erewrite bind_err by apply validateShape_empty.
    + by erewrite bind_err by (by apply validateShape_zero).
  - intros Hne Hnz Hlen. unfold Tensor_new_data.
    erewrite bind_ok by (by apply validateShape_ok).
    unfold calculateTotalSize. by rewrite decide_False.
  - intros Hne Hnz Hmax Hlen.
    eexists _, _. split; [by apply Tensor_new_data_ok|].
    assert (w_heap w !! fresh (dom (w_heap w)) = None) as Hfresh by apply fresh_not_live.
    split; [done|]. split; [done|]. split; [|split; [|split]].
    + split; simpl; try done. eexists _, _. split; [done|].
      by rewrite lookup_insert_eq.
    + unfold buffer_of. simpl. apply lookup_insert_eq.
    + unfold buffer_of. simpl. done.
    + intros a [buf Ha]. simpl. rewrite lookup_insert_ne; [done|]. congruence.
Qed.

(** What [store] changes: the array it writes to, at one position. *)
Lemma store_inv (p : option nat) (i : N) (v : float32) (w w' : World) :
  store p i v w = (w', Ok tt) ->
  exists a buf, p = Some a /\ w_heap w !! a = Some buf /\
                w' = set_heap (<[a := <[N.to_nat i := v]> buf]> (w_heap w)) w.
Proof.
  unfold store. destruct p as [a|]; [|done].
  destruct (w_heap w !! a) as [buf|] eqn:Ha; [|done].
  destruct (decide _); [|done]. intros [= <-]. by exists a, buf.
Qed.

Lemma calculateIndex_state {S} (t : Tensor) (indices : list N) (s s' : S) r :
  calculateIndex t indices s = (s', r) -> s' = s.
Proof.
  unfold calculateIndex. repeat (destruct (decide _) || destruct (existsb _ _));
    unfold throw, ret; congruence.
Qed.

(** X5. The copy constructor makes a deep copy: the copy has the shape,
    size and dtype of the original and equal contents in an array of its
    own, which was not live before; the original keeps its array; and a
    later write through the copy leaves the contents of the original as
    they were. *)
Theorem copy_is_deep (t : Tensor) (w : World) (buf : list float32) :
  tensor_ok w t -> buffer_of w t = Some buf ->
  exists w' c,
    Tensor_copy t w = (w', Ok c) /\
    shape c = shape t /\ size c = size t /\ dtype c = dtype t /\
    data c <> data t /\ buffer_of w c = None /\
    tensor_ok w' c /\ buffer_of w' c = Some buf /\
    tensor_ok w' t /\ buffer_of w' t = Some buf /\
    (forall indices v w'',
       Tensor_at_put c indices v w' = (w'', Ok tt) -> buffer_of w'' t = Some buf).
Proof.
  intros Hok Hbuf.
  destruct (tensor_ok_buffer _ _ _ Hok Hbuf) as (a & Hd & Ha & Hlen).
  pose proof (fresh_not_live (w_heap w)) as Hfresh.
  set (q := fresh (dom (w_heap w))) in *.
  assert (q <> a) as Hqa by congruence.
  eexists _, _. split.
  { apply Tensor_copy_ok with (a := a) (buf := buf); try done. by destruct Hok. }
  fold q. unfold shape, size, dtype, data, buffer_of. simpl.
  split; [done|]. split; [done|]. split; [done|].
  split; [congruence|]. split; [done|].
  assert (tensor_ok (set_heap (<[q := buf]> (w_heap w)) w) t) as Hok'.
  { eapply tensor_ok_frame; [| |exact Hok]; [|done]. intros a' Ha'. simpl.
    rewrite lookup_insert_ne; [done | congruence]. }
  split; [|split; [|split; [|split]]].
  - destruct Hok as [[Hne Hnz Htot _] Hmax Hrank].
    split; [split|..]; simpl; try done.
    eexists _, _. split; [done|]. by rewrite lookup_insert_eq.
  - apply lookup_insert_eq.
  - done.
  - rewrite Hd. by rewrite lookup_insert_ne.
  - intros indices v w'' Hput. unfold Tensor_at_put, bind in Hput.
    destruct (calculateIndex _ indices _) as [s1 [idx|e]] eqn:Hidx; [|done].
    apply calculateIndex_state in Hidx as ->.
    apply store_inv in Hput as (a' & buf' & Ha' & _ & ->). simpl in Ha'.
    injection Ha' as <-. rewrite Hd. simpl.
    rewrite lookup_insert_ne by done. by rewrite lookup_insert_ne.
Qed.

(** Distinct in-bounds indices have distinct row-major positions. *)
Lemma row_major_inj (indices indices' shape : list N) :
  Forall2 (fun i d => (i < d)%N) indices shape ->
  Forall2 (fun i d => (i < d)%N) indices' shape ->
  row_major indices shape = row_major indices' shape -> indices = indices'.
Proof.
  intros H. revert indices'.
  induction H as [|i d indices shape Hi H IH]; intros indices' H' Heq.
  - by inversion H'.
  - inversion H' as [|i' d' indices'' shape' Hi' H'']; subst. simpl in Heq.
    pose proof (row_major_lt _ _ H) as Hr.
    pose proof (row_major_lt _ _ H'') as Hr'.
    assert (i = i') as -> by nia.
    f_equal. apply IH; [done | lia].
Qed.

(** X6. Writing through [at] and reading back: on a tensor that satisfies
    the invariants, [t.at(indices) = v] succeeds at in-bounds indices, the
    tensor still satisfies the invariants, [t.at(indices)] then returns
    [v], every other in-bounds element reads as before, and no other array
    is touched. *)
Theorem at_put_get (t : Tensor) (indices : list N) (v : float32) (w : World) :
  tensor_ok w t ->
  Forall2 (fun i d => (i < d)%N) indices (shape t) ->
  exists w',
    Tensor_at_put t indices v w = (w', Ok tt) /\
    tensor_ok w' t /\
    Tensor_at t indices w' = (w', Ok v) /\
    (forall indices', Forall2 (fun i d => (i < d)%N) indices' (shape t) ->
       indices' <> indices ->
       snd (Tensor_at t indices' w') = snd (Tensor_at t indices' w)) /\
    (forall a, data t <> Some a -> w_heap w' !! a = w_heap w !! a).
Proof.
  unfold shape, data. intros Hok Hin.
  destruct Hok as [[Hne Hnz Htot (a & buf & Hd & Ha & Hlen)] Hmax Hrank].
  pose proof (max_array_len_lt w) as Hlt.
  pose proof (row_major_lt _ _ Hin) as Hpos.
  set (pos := N.to_nat (row_major indices (shape_ t))).
  set (w' := set_heap (<[a := <[pos := v]> buf]> (w_heap w)) w).
  assert (Tensor_at_put t indices v w = (w', Ok tt)) as Hput.
  { apply Tensor_at_put_ok; (done || lia). }
  assert (pos < length buf) as Hpos' by (unfold pos; lia).
  exists w'. split; [done|]. split; [|split; [|split]].
  - split; [split|..]; try done. exists a, (<[pos := v]> buf).
    split; [done|]. split; [apply lookup_insert_eq|]. by rewrite length_insert.
  - destruct (Tensor_at_ok t indices w' a (<[pos := v]> buf)) as (v' & Hv' & ->);
      try (done || lia).
    + apply lookup_insert_eq.
    + by rewrite length_insert.
    + fold pos in Hv'. rewrite list_lookup_insert_eq in Hv' by done. congruence.
  - intros indices' Hin' Hdiff.
    destruct (Tensor_at_ok t indices' w' a (<[pos := v]> buf)) as (v1 & Hv1 & ->);
      try (done || lia).
    { apply lookup_insert_eq. }
    { by rewrite length_insert. }
    destruct (Tensor_at_ok t indices' w a buf) as (v2 & Hv2 & ->); try (done || lia).
    simpl. f_equal.
    rewrite list_lookup_insert_ne in Hv1; [congruence|].
    unfold pos. intros E. apply Hdiff. symmetry.
    apply (row_major_inj _ _ (shape_ t)); [done | done | lia].
  - intros a' Ha'. simpl. rewrite lookup_insert_ne; [done | congruence].
Qed.

(** ** Tensor: elementwise arithmetic *)

(** The size of a tensor that satisfies the invariants is the length of its
    array, and tensors of one shape have arrays of one length. *)
Lemma tensor_ok_length (w : World) (t : Tensor) (a : nat) (buf : list float32) :
  tensor_ok w t -> data_ t = Some a -> w_heap w !! a = Some buf ->
  N.to_nat (total_size_ t) = length buf.
Proof.
  intros [[_ _ _ (a' & buf' & Hd & Ha & Hlen)] _ _] Hd' Ha'.
  assert (a' = a) as -> by congruence. assert (buf' = buf) as -> by congruence. lia.
Qed.

Lemma same_shape_size (w : World) (t1 t2 : Tensor) :
  tensor_ok w t1 -> tensor_ok w t2 -> shape_ t1 = shape_ t2 ->
  total_size_ t1 = total_size_ t2.
Proof. intros [[_ _ -> _] _ _] [[_ _ -> _] _ _] ->. done. Qed.

Lemma elementwise_ok (op : float32 -> float32 -> float32) (self other : Tensor)
    (w : World) (a b : nat) (bufA bufB : list float32) :
  data_ self = Some a -> data_ other = Some b ->
  w_heap w !! a = Some bufA -> w_heap w !! b = Some bufB ->
  length bufA = length bufB -> N.to_nat (total_size_ self) = length bufA ->
  elementwise op self other w
  = (set_heap (<[a := zip_with op bufA bufB]> (w_heap w)) w, Ok tt).
Proof.
  intros Hda Hdb Ha Hb Hlen Hn. unfold elementwise. rewrite Hda, Hdb.
  by apply zip_loop.
Qed.

(** X7. [operator+=], [operator-=] and [operator*=]: on operands of
    different shapes each fails with ShapeMismatch and changes nothing; on
    tensors of one shape that satisfy the invariants each succeeds and
    leaves in the array of the left operand, element by element, the sum,
    difference or product of the two arrays. The right operand may be the
    left one. *)
Theorem compound_assign (self other : Tensor) (w : World) :
  (shape self <> shape other ->
     Tensor_add_assign self other w = (w, Err ShapeMismatch) /\
     Tensor_sub_assign self other w = (w, Err ShapeMismatch) /\
     Tensor_mul_assign self other w = (w, Err ShapeMismatch)) /\
  (forall bufA bufB,
     tensor_ok w self -> tensor_ok w other -> shape self = shape other ->
     buffer_of w self = Some bufA -> buffer_of w other = Some bufB ->
     exists a, data self = Some a /\
       Tensor_add_assign self other w
       = (set_heap (<[a := zip_with f32_add bufA bufB]> (w_heap w)) w, Ok tt) /\
       Tensor_sub_assign self other w
       = (set_heap (<[a := zip_with f32_sub bufA bufB]> (w_heap w)) w, Ok tt) /\
       Tensor_mul_assign self other w
       = (set_heap (<[a := zip_with f32_mul bufA bufB]> (w_heap w)) w, Ok tt)).
Proof.
  unfold shape, data, Tensor_add_assign, Tensor_sub_assign, Tensor_mul_assign. split.
  - intros Hne. by rewrite !decide_False.
  - intros bufA bufB Hoka Hokb Hshape HbufA HbufB.
    destruct (tensor_ok_buffer _ _ _ Hoka HbufA) as (a & Hda & Ha & HlenA).
    destruct (tensor_ok_buffer _ _ _ Hokb HbufB) as (b & Hdb & Hb & HlenB).
    pose proof (same_shape_size _ _ _ Hoka Hokb Hshape) as Htot.
    exists a. split; [done|]. rewrite !decide_True by done.
    repeat split; apply (elementwise_ok _ self other w a b); (done || lia).
Qed.

(** The loop of [operator/=] when no divisor is zero. *)
Lemma div_assign_ok (self other : Tensor) (w : World) (a b : nat)
    (bufA bufB : list float32) :
  data_ self = Some a -> data_ other = Some b ->
  w_heap w !! a = Some bufA -> w_heap w !! b = Some bufB ->
  length bufA = length bufB -> N.to_nat (total_size_ self) = length bufA ->
  shape_ self = shape_ other ->
  (forall y, y ∈ bufB -> f32_eqb y f32_zero = false) ->
  Tensor_div_assign self other w
  = (set_heap (<[a := zip_with f32_div bufA bufB]> (w_heap w)) w, Ok tt).
Proof.
  intros Hda Hdb Ha Hb Hlen Hn Hshape Hnz.
  unfold Tensor_div_assign. rewrite decide_True by done.
  unfold for_each, for_range.
  rewrite (div_loop_prefix self other w a b bufA bufB) by
    (done || lia || (intros j y _ Hy; apply Hnz; by eapply list_elem_of_lookup_2)).
  unfold div_state, divided. rewrite Hn, firstn_all2 by (rewrite length_zip_with; lia).
  rewrite drop_all. by rewrite app_nil_r.
Qed.

(** X8. [operator/=] on tensors of one shape that satisfy the invariants,
    when no element of the divisor compares equal to zero: it succeeds and
    leaves the quotients, element by element, in the array of the left
    operand; the array of a distinct right operand is not touched. *)
Theorem div_assign_quotients (self other : Tensor) (w : World)
    (bufA bufB : list float32) :
  tensor_ok w self -> tensor_ok w other -> shape self = shape other ->
  buffer_of w self = Some bufA -> buffer_of w other = Some bufB ->
  (forall y, y ∈ bufB -> f32_eqb y f32_zero = false) ->
  exists a w',
    data self = Some a /\
    Tensor_div_assign self other w = (w', Ok tt) /\
    w_heap w' = <[a := zip_with f32_div bufA bufB]> (w_heap w) /\
    tensor_ok w' self /\
    (data other <> data self -> buffer_of w' other = Some bufB).
Proof.
  unfold shape, data. intros Hoka Hokb Hshape HbufA HbufB Hnz.
  destruct (tensor_ok_buffer _ _ _ Hoka HbufA) as (a & Hda & Ha & HlenA).
  destruct (tensor_ok_buffer _ _ _ Hokb HbufB) as (b & Hdb & Hb & HlenB).
  pose proof (same_shape_size _ _ _ Hoka Hokb Hshape) as Htot.
  eexists a, _. split; [done|]. split.
  { apply (div_assign_ok self other w a b bufA bufB); (done || lia). }
  split; [done|]. split.
  - destruct Hoka as [[Hne Hnzd Hts _] Hmax Hrank]. split; [split|..]; try done.
    exists a, (zip_with f32_div bufA bufB). split; [done|].
    split; [apply lookup_insert_eq|]. rewrite length_zip_with. lia.
  - intros Hdiff. unfold buffer_of. rewrite Hdb. simpl.
    rewrite lookup_insert_ne; [done | congruence].
Qed.

(** The binary operators, given what the compound assignment does on the
    copy of the left operand. *)
Lemma binary_operator_ok (op_assign : Tensor -> Tensor -> M unit) (R : list float32)
    (lhs rhs : Tensor) (w : World) (a : nat) (bufA : list float32) :
  data_ lhs = Some a -> w_heap w !! a = Some bufA ->
  N.of_nat (length bufA) = total_size_ lhs -> (total_size_ lhs <= max_array_len w)%N ->
  op_assign
    {| shape_ := shape_ lhs; total_size_ := total_size_ lhs; dtype_ := dtype_ lhs;
       data_ := Some (fresh (dom (w_heap w))) |}
    rhs (set_heap (<[fresh (dom (w_heap w)) := bufA]> (w_heap w)) w)
  = (set_heap (<[fresh (dom (w_heap w)) := R]> (w_heap w)) w, Ok tt) ->
  binary_operator op_assign lhs rhs w
  = (set_heap (<[fresh (dom (w_heap w)) := R]> (w_heap w)) w,
     Ok {| shape_ := shape_ lhs; total_size_ := total_size_ lhs; dtype_ := dtype_ lhs;
           data_ := Some (fresh (dom (w_heap w))) |}).
Proof.
  intros Hd Ha Hlen Hmax Hop. unfold binary_operator.
  erewrite bind_ok by (by apply Tensor_copy_ok with (a := a) (buf := bufA)).
  erewrite bind_ok; [done|]. by apply on_throw_ok.
Qed.

Lemma binary_operator_err (op_assign : Tensor -> Tensor -> M unit) (e : Error)
    (lhs rhs : Tensor) (w : World) (a : nat) (bufA : list float32) :
  data_ lhs = Some a -> w_heap w !! a = Some bufA ->
  N.of_nat (length bufA) = total_size_ lhs -> (total_size_ lhs <= max_array_len w)%N ->
  op_assign
    {| shape_ := shape_ lhs; total_size_ := total_size_ lhs; dtype_ := dtype_ lhs;
       data_ := Some (fresh (dom (w_heap w))) |}
    rhs (set_heap (<[fresh (dom (w_heap w)) := bufA]> (w_heap w)) w)
  = (set_heap (<[fresh (dom (w_heap w)) := bufA]> (w_heap w)) w, Err e) ->
  binary_operator op_assign lhs rhs w = (w, Err e).
Proof.
  intros Hd Ha Hlen Hmax Hop. unfold binary_operator.
  erewrite bind_ok by (by apply Tensor_copy_ok with (a := a) (buf := bufA)).
  unfold bind, on_throw. rewrite Hop. unfold Tensor_destroy. simpl.
  rewrite lookup_insert_eq. simpl. f_equal.
  rewrite delete_insert_eq, delete_id by apply fresh_not_live.
  rewrite set_heap_twice. apply set_heap_same.
Qed.

(** X9. The binary operators [+], [-], [*] and [/] on tensors that satisfy
    the invariants: on operands of different shapes each fails with
    ShapeMismatch and leaves the heap exactly as it was (the copy of the
    left operand is released); on operands of one shape each returns a
    tensor with the shape, size and dtype of the left operand whose array,
    not live before, holds the results element by element ([/] when no
    divisor compares equal to zero), and leaves every array that was live,
    so both operands, as it was. *)
Theorem binary_operators_pure (lhs rhs : Tensor) (w : World) (bufA bufB : list float32) :
  tensor_ok w lhs -> tensor_ok w rhs ->
  buffer_of w lhs = Some bufA -> buffer_of w rhs = Some bufB ->
  (shape lhs <> shape rhs ->
     Tensor_add lhs rhs w = (w, Err ShapeMismatch) /\
     Tensor_sub lhs rhs w = (w, Err ShapeMismatch) /\
     Tensor_mul lhs rhs w = (w, Err ShapeMismatch) /\
     Tensor_div lhs rhs w = (w, Err ShapeMismatch)) /\
  (shape lhs = shape rhs ->
     exists q,
       w_heap w !! q = None /\
       Tensor_add lhs rhs w
       = (set_heap (<[q := zip_with f32_add bufA bufB]> (w_heap w)) w,
          Ok {| shape_ := shape lhs; total_size_ := size lhs; dtype_ := dtype lhs;
                data_ := Some q |}) /\
       Tensor_sub lhs rhs w
       = (set_heap (<[q := zip_with f32_sub bufA bufB]> (w_heap w)) w,
          Ok {| shape_ := shape lhs; total_size_ := size lhs; dtype_ := dtype lhs;
                data_ := Some q |}) /\
       Tensor_mul lhs rhs w
       = (set_heap (<[q := zip_with f32_mul bufA bufB]> (w_heap w)) w,
          Ok {| shape_ := shape lhs; total_size_ := size lhs; dtype_ := dtype lhs;
                data_ := Some q |}) /\
       ((forall y, y ∈ bufB -> f32_eqb y f32_zero = false) ->
        Tensor_div lhs rhs w
        = (set_heap (<[q := zip_with f32_div bufA bufB]> (w_heap w)) w,
           Ok {| shape_ := shape lhs; total_size_ := size lhs; dtype_ := dtype lhs;
                 data_ := Some q |}))).
Proof.
  unfold shape, size, dtype. intros Hoka Hokb HbufA HbufB.
  destruct (tensor_ok_buffer _ _ _ Hoka HbufA) as (a & Hda & Ha & HlenA).
  destruct (tensor_ok_buffer _ _ _ Hokb HbufB) as (b & Hdb & Hb & HlenB).
  pose proof (fresh_not_live (w_heap w)) as Hfresh.
  assert (total_size_ lhs <= max_array_len w)%N as Hmax by (by destruct Hoka).
  set (q := fresh (dom (w_heap w))) in *.
  assert (q <> b) as Hqb by congruence.
  split.
  - intros Hne. unfold Tensor_add, Tensor_sub, Tensor_mul, Tensor_div.
    repeat split; apply (binary_operator_err _ _ lhs rhs w a bufA); try done;
      unfold Tensor_add_assign, Tensor_sub_assign, Tensor_mul_assign, Tensor_div_assign;
      simpl; by rewrite decide_False.
  - intros Hshape. pose proof (same_shape_size _ _ _ Hoka Hokb Hshape) as Htot.
    exists q. split; [done|].
    assert (forall op,
      elementwise op
        {| shape_ := shape_ lhs; total_size_ := total_size_ lhs; dtype_ := dtype_ lhs;
           data_ := Some q |}
        rhs (set_heap (<[q := bufA]> (w_heap w)) w)
      = (set_heap (<[q := zip_with op bufA bufB]> (w_heap w)) w, Ok tt)) as Hel.
    { intros op. erewrite (elementwise_ok op _ rhs _ q b bufA bufB); try done.
      - simpl. by rewrite set_heap_twice, insert_insert_eq.
      - apply lookup_insert_eq.
      - simpl. by rewrite lookup_insert_ne.
      - lia.
      - simpl. lia. }
    unfold Tensor_add, Tensor_sub, Tensor_mul, Tensor_div.
    split; [|split; [|split]].
    + apply (binary_operator_ok _ _ lhs rhs w a bufA); try done.
      unfold Tensor_add_assign. simpl. rewrite decide_True by done. apply Hel.
    + apply (binary_operator_ok _ _ lhs rhs w a bufA); try done.
      unfold Tensor_sub_assign. simpl. rewrite decide_True by done. apply Hel.
    + apply (binary_operator_ok _ _ lhs rhs w a bufA); try done.
      unfold Tensor_mul_assign. simpl. rewrite decide_True by done. apply Hel.
    + intros Hnz. apply (binary_operator_ok _ _ lhs rhs w a bufA); try done.
      erewrite (div_assign_ok _ rhs _ q b bufA bufB); try done.
      * simpl. by rewrite set_heap_twice, insert_insert_eq.
      * apply lookup_insert_eq.
      * simpl. by rewrite lookup_insert_ne.
      * lia.
      * simpl. lia.
Qed.

(** ** TensorOps: relu, sigmoid, softmax *)

Lemma relu_elem_not_negative (x : float32) : f32_ltb (relu_elem x) f32_zero = false.
Proof. unfold relu_elem. by destruct (f32_ltb x f32_zero) eqn:E. Qed.

Lemma relu_ok (t : Tensor) (w : World) (a : nat) (buf : list float32) :
  data_ t = Some a -> w_heap w !! a = Some buf ->
  N.to_nat (total_size_ t) = length buf ->
  relu t w = (set_heap (<[a := map relu_elem buf]> (w_heap w)) w, Ok tt).
Proof.
  intros Hd Ha Hn. unfold relu, for_each, for_range, size.
  rewrite (relu_loop_prefix t w a buf Hd Ha) by lia.
  unfold relu_state. rewrite Hn, firstn_all2 by (rewrite length_map; lia).
  rewrite drop_all. by rewrite app_nil_r.
Qed.

(** X10. After [relu] on a tensor that satisfies the invariants no
    element is below zero: an element that was below zero is [0.0f], every
    other element, a NaN or a negative zero included, is what it was; the
    tensor still satisfies the invariants and no other array is touched. *)
Theorem relu_clamps (t : Tensor) (w : World) (buf : list float32) :
  tensor_ok w t -> buffer_of w t = Some buf ->
  exists w' buf',
    relu t w = (w', Ok tt) /\
    buffer_of w' t = Some buf' /\ tensor_ok w' t /\ length buf' = length buf /\
    (forall v, v ∈ buf' -> f32_ltb v f32_zero = false) /\
    (forall i x, buf !! i = Some x ->
       buf' !! i = Some (if f32_ltb x f32_zero then f32_zero else x)) /\
    (forall a, data t <> Some a -> w_heap w' !! a = w_heap w !! a).
Proof.
  unfold data. intros Hok Hbuf.
  destruct (tensor_ok_buffer _ _ _ Hok Hbuf) as (a & Hd & Ha & Hlen).
  eexists _, (map relu_elem buf). split.
  { apply (relu_ok t w a buf); (done || lia). }
  split; [|split; [|split; [|split; [|split]]]].
  - unfold buffer_of. rewrite Hd. apply lookup_insert_eq.
  - destruct Hok as [[Hne Hnz Hts _] Hmax Hrank]. split; [split|..]; try done.
    exists a, (map relu_elem buf). split; [done|]. split; [apply lookup_insert_eq|].
    by rewrite length_map.
  - apply length_map.
  - intros v Hv. apply list_elem_of_fmap in Hv as (x & -> & _).
    apply relu_elem_not_negative.
  - intros i x Hx. by rewrite list_lookup_fmap, Hx.
  - intros a' Ha'. simpl. rewrite lookup_insert_ne; [done | congruence].
Qed.

Section Kernels.
Context `{Platform}.

Lemma sigmoid_ok (t : Tensor) (w : World) (a : nat) (buf : list float32) :
  data_ t = Some a -> w_heap w !! a = Some buf ->
  N.to_nat (total_size_ t) = length buf ->
  sigmoid t w = (set_heap (<[a := map sigmoid_elem buf]> (w_heap w)) w, Ok tt).
Proof.
  intros Hd Ha Hn. unfold sigmoid, size, data. rewrite Hd.
  by apply (map_loop sigmoid_elem).
Qed.

(** X11. [sigmoid] on a tensor that satisfies the invariants rewrites each
    element [x] in place to [1.0f / (1.0f + exp(-x))] and touches no other
    array. With an [exp] that is 1 at zero, 0.0f becomes 0.5f; where [exp]
    overflows to infinity the result is 0.0f, and where it underflows to
    zero the result is 1.0f. *)
Theorem sigmoid_map (t : Tensor) (w : World) (buf : list float32) :
  tensor_ok w t -> buffer_of w t = Some buf ->
  (exists a, data t = Some a /\
     sigmoid t w = (set_heap (<[a := map sigmoid_elem buf]> (w_heap w)) w, Ok tt)) /\
  (std_exp (S754_zero true) = f32_one -> sigmoid_elem f32_zero = f32_lit 1 2) /\
  (forall x, std_exp (f32_neg x) = S754_infinity false -> sigmoid_elem x = f32_zero) /\
  (forall x, std_exp (f32_neg x) = f32_zero -> sigmoid_elem x = f32_one).
Proof.
  unfold data. intros Hok Hbuf.
  destruct (tensor_ok_buffer _ _ _ Hok Hbuf) as (a & Hd & Ha & Hlen).
  split; [|split; [|split]].
  - exists a. split; [done|]. apply (sigmoid_ok t w a buf); (done || lia).
  - intros H0. unfold sigmoid_elem. simpl f32_neg. rewrite H0. by vm_compute.
  - intros x Hx. unfold sigmoid_elem. rewrite Hx. by vm_compute.
  - intros x Hx. unfold sigmoid_elem. rewrite Hx. by vm_compute.
Qed.

(** The first pass of [softmax]: the running maximum. *)
Lemma softmax_max_loop (w : World) (a : nat) (first : float32) (rest : list float32) :
  w_heap w !! a = Some (first :: rest) ->
  for_loop (length rest) 1%N
    (fun i max_val => let* x := load (Some a) i in ret (f32_max max_val x)) first w
  = (w, Ok (softmax_max (first :: rest))).
Proof.
  intros Ha.
  destruct (for_loop_inv
              (fun i max_val => let* x := load (Some a) i in ret (f32_max max_val x))
              (fun k s acc => s = w /\ acc = fold_left f32_max (take k rest) first)
              (length rest) 1%N first w) as (s' & acc' & Hl & -> & ->).
  - done.
  - intros k s1 acc1 Hk [-> ->].
    destruct (lookup_lt_is_Some_2 rest k) as [x Hx]; [done|].
    exists w, (f32_max (fold_left f32_max (take k rest) first) x). split.
    + erewrite bind_ok; [done|]. eapply load_ok; [exact Ha|].
      replace (N.to_nat (1 + N.of_nat k)) with (S k) by lia. done.
    + split; [done|]. rewrite (take_S_r _ _ x) by done. by rewrite fold_left_app.
  - rewrite Hl. by rewrite firstn_all.
Qed.

(** The second pass: the exponentials are stored and summed. *)
Lemma softmax_exp_loop (w : World) (a : nat) (buf : list float32) (max_val : float32) :
  w_heap w !! a = Some buf ->
  for_range (N.of_nat (length buf))
    (fun i sum =>
       let* x := load (Some a) i in
       store (Some a) i (std_exp (f32_sub x max_val)) >>
       let* e := load (Some a) i in
       ret (f32_add sum e))
    f32_zero w
  = (set_heap (<[a := map (fun x => std_exp (f32_sub x max_val)) buf]> (w_heap w)) w,
     Ok (softmax_sum (map (fun x => std_exp (f32_sub x max_val)) buf))).
Proof.
  intros Ha. set (f := fun x => std_exp (f32_sub x max_val)).
  destruct (for_range_inv
              (fun i sum =>
                 let* x := load (Some a) i in
                 store (Some a) i (f x) >>
                 let* e := load (Some a) i in
                 ret (f32_add sum e))
              (fun k s acc => s = fill_state w a (map f buf) buf (N.to_nat k) /\
                              acc = fold_left f32_add (take (N.to_nat k) (map f buf)) f32_zero)
              (N.of_nat (length buf)) f32_zero w) as (s' & acc' & Hl & -> & ->).
  - split; [by rewrite fill_state_0 | done].
  - intros k s1 acc1 Hk [-> ->]. set (j := N.to_nat k).
    assert (j < length buf) as Hj by lia.
    destruct (lookup_lt_is_Some_2 buf j) as [x Hx]; [done|].
    assert (map f buf !! j = Some (f x)) as Hfx by (by rewrite list_lookup_fmap, Hx).
    eexists _, _. split.
    + erewrite bind_ok.
      2: { eapply load_ok; [apply fill_state_lookup|].
           fold j. rewrite lookup_take_drop; [done | rewrite length_map; lia]. }
      erewrite bind_ok.
      2: { eapply store_ok; [apply fill_state_lookup|].
           fold j. rewrite length_take_drop by apply length_map. done. }
      erewrite bind_ok; [done|].
      eapply load_ok; [apply lookup_insert_eq|]. fold j.
      by apply list_lookup_insert_eq; rewrite length_take_drop by apply length_map.
    + replace (N.to_nat (N.succ k)) with (S j) by lia. split.
      * unfold fill_state. simpl. rewrite set_heap_twice, insert_insert_eq.
        do 2 f_equal. by apply take_drop_step.
      * rewrite (take_S_r _ _ (f x)) by done. by rewrite fold_left_app.
  - refine (eq_trans Hl _). rewrite Nat2N.id. f_equal.
    + apply fill_state_all, length_map.
    + unfold softmax_sum. rewrite <- (length_map f buf). by rewrite firstn_all.
Qed.

Lemma softmax_ok (t : Tensor) (w : World) (a : nat) (buf : list float32) :
  data_ t = Some a -> w_heap w !! a = Some buf ->
  N.of_nat (length buf) = total_size_ t -> total_size_ t <> 0%N ->
  softmax t w = (set_heap (<[a := softmax_values buf]> (w_heap w)) w, Ok tt).
Proof.
  intros Hd Ha Hlen Hnz.
  destruct buf as [|first rest]; [simpl in Hlen; lia|].
  unfold softmax, size, data. rewrite decide_False by done. rewrite Hd.
  erewrite bind_ok by (by eapply load_ok).
  replace (N.to_nat (total_size_ t) - 1) with (length rest) by (simpl in Hlen; lia).
  erewrite bind_ok by (by apply softmax_max_loop).
  rewrite <- Hlen.
  erewrite bind_ok by (by apply softmax_exp_loop).
  fold (softmax_exps (first :: rest)).
  rewrite (map_loop _ _ a (softmax_exps (first :: rest))).
  - simpl. by rewrite set_heap_twice, insert_insert_eq.
  - apply lookup_insert_eq.
  - unfold softmax_exps. rewrite length_map. lia.
Qed.

End Kernels.

(** ** InferenceUtils *)

(** X13. [normalizeInput] refuses a standard deviation that compares equal
    to zero (of either sign) and then touches nothing; otherwise, on a
    tensor that satisfies the invariants, it returns a tensor of the same
    shape, size and dtype in an array that was not live before, holding
    [(x - mean) / std] for each element [x] of the input, and leaves every
    array that was live, the input included, as it was. *)
Theorem normalizeInput_spec (input : Tensor) (mean std : float32) (w : World) :
  (f32_eqb std f32_zero = true ->
     normalizeInput input mean std w = (w, Err InvalidArgument)) /\
  (forall buf,
     tensor_ok w input -> buffer_of w input = Some buf ->
     f32_eqb std f32_zero = false ->
     exists q,
       w_heap w !! q = None /\
       normalizeInput input mean std w
       = (set_heap (<[q := map (fun x => f32_div (f32_sub x mean) std) buf]> (w_heap w)) w,
          Ok {| shape_ := shape input; total_size_ := size input; dtype_ := dtype input;
                data_ := Some q |})).
Proof.
  unfold normalizeInput. split.
  - by intros ->.
  - intros buf Hok Hbuf ->.
    destruct (tensor_ok_buffer _ _ _ Hok Hbuf) as (a & Hd & Ha & Hlen).
    exists (fresh (dom (w_heap w))). split; [apply fresh_not_live|].
    erewrite bind_ok.
    2: { apply Tensor_copy_ok with (a := a) (buf := buf); try done. by destruct Hok. }
    unfold size, data. simpl.
    erewrite bind_ok.
    2: { apply (map_loop (fun x => f32_div (f32_sub x mean) std)).
         - apply lookup_insert_eq.
         - lia. }
    unfold ret. simpl. by rewrite set_heap_twice, insert_insert_eq.
Qed.

(** X14. [preprocessImage] refuses pixel data whose length is not
    [width * height * channels] (computed in [size_t]) with SizeMismatch;
    with a zero dimension and no pixel the check passes and the constructor
    refuses the shape with InvalidShape. Otherwise it returns a tensor of
    shape [[height; width; channels]] that satisfies the invariants and
    holds the pixels as given, so that the channel [c] of the pixel in row
    [y] and column [x] is the pixel datum at [(y * width + x) * channels + c]. *)
Theorem preprocessImage_spec (pixel_data : list float32) (width height channels : N)
    (w : World) :
  (N.of_nat (length pixel_data) <> wrap64 (wrap64 (width * height) * channels) ->
     preprocessImage pixel_data width height channels w = (w, Err SizeMismatch)) /\
  (width = 0%N \/ height = 0%N \/ channels = 0%N -> pixel_data = [] ->
     preprocessImage pixel_data width height channels w = (w, Err InvalidShape)) /\
  (width <> 0%N -> height <> 0%N -> channels <> 0%N ->
   (width * height * channels <= max_array_len w)%N ->
   N.of_nat (length pixel_data) = (width * height * channels)%N ->
     exists w' t,
       preprocessImage pixel_data width height channels w = (w', Ok t) /\
       shape t = [height; width; channels] /\
       Tensor_invariants w' t /\ buffer_of w' t = Some pixel_data /\
       (forall a, is_Some (w_heap w !! a) -> w_heap w' !! a = w_heap w !! a) /\
       (forall y x c, (y < height)%N -> (x < width)%N -> (c < channels)%N ->
          exists v,
            pixel_data !! N.to_nat ((y * width + x) * channels + c) = Some v /\
            Tensor_at t [y; x; c] w' = (w', Ok v))).
Proof.
  unfold preprocessImage. split; [|split].
  - intros Hne. by rewrite decide_True.
  - intros Hz ->. simpl.
    assert (wrap64 (wrap64 (width * height) * channels) = 0%N) as ->.
    { unfold wrap64. destruct Hz as [-> | [-> | ->] ].
      - by rewrite N.mul_0_l.
      - by rewrite N.mul_0_r.
      - by rewrite N.mul_0_r. }
    rewrite decide_False by (intros ?; done).
    unfold Tensor_new_data. erewrite bind_err; [done|].
    apply validateShape_zero. destruct Hz as [-> | [-> | ->] ]; set_solver.
  - intros Hw Hh Hc Hmax Hlen. pose proof (max_array_len_lt w) as Hlt.
    assert (width * height < 2 ^ 64)%N as Hwh by nia.
    rewrite (wrap64_small (width * height)) by done.
    rewrite wrap64_small by lia. rewrite decide_False by (intros ?; done).
    assert (product [height; width; channels] = (width * height * channels)%N) as Hprod.
    { simpl. lia. }
    pose proof (fresh_not_live (w_heap w)) as Hfresh.
    eexists _, _. split.
    { apply Tensor_new_data_ok; try done; [| lia | lia].
      repeat constructor; done. }
    unfold shape, buffer_of. simpl.
    split; [done|]. split; [|split; [|split]].
    + split; simpl; try done; [repeat constructor; done|].
      eexists _, _. split; [done|]. rewrite lookup_insert_eq. split; [done | lia].
    + apply lookup_insert_eq.
    + intros a [buf Ha]. rewrite lookup_insert_ne; [done | congruence].
    + intros y x c Hy Hx Hcc.
      destruct (Tensor_at_ok
                  {| shape_ := [height; width; channels];
                     total_size_ := product [height; width; channels];
                     dtype_ := FLOAT32; data_ := Some (fresh (dom (w_heap w))) |}
                  [y; x; c]
                  (set_heap (<[fresh (dom (w_heap w)) := pixel_data]> (w_heap w)) w)
                  (fresh (dom (w_heap w))) pixel_data) as (v & Hv & Hat); simpl; try done.
      * repeat constructor; done.
      * simpl in Hprod. lia.
      * apply lookup_insert_eq.
      * simpl in Hprod. lia.
      * exists v. split; [|exact Hat].
        rewrite <- Hv. f_equal. f_equal. simpl. lia.
Qed.

(** The order of [operator<] on floats is transitive, and it is negatively
    transitive on floats that are not NaN. *)
Lemma SFcompare_pos_spec (m1 m2 : positive) :
  CompareSpec (m1 = m2) (m1 < m2)%positive (m2 < m1)%positive
    (PosDef.Pos.compare_cont Eq m1 m2).
Proof. apply Pos.compare_spec. Qed.

Lemma f32_ltb_trans (a b c : float32) :
  f32_ltb a b = true -> f32_ltb b c = true -> f32_ltb a c = true.
Proof.
  unfold f32_ltb, SFltb, SFcompare.
  destruct a as [sa|sa| |sa ma ea], b as [sb|sb| |sb mb eb], c as [sc|sc| |sc mc ec];
    try done;
    try (destruct sa; try done); try (destruct sb; try done); try (destruct sc; try done);
    destruct (Z.compare_spec ea eb), (Z.compare_spec eb ec), (Z.compare_spec ea ec);
    try done; try lia;
    destruct (SFcompare_pos_spec ma mb), (SFcompare_pos_spec mb mc),
      (SFcompare_pos_spec ma mc); simpl; try done; lia.
Qed.

Lemma f32_ltb_neg_trans (a b c : float32) :
  b <> S754_nan -> f32_ltb a b = false -> f32_ltb a c = true -> f32_ltb b c = true.
Proof.
  unfold f32_ltb, SFltb, SFcompare.
  destruct a as [sa|sa| |sa ma ea], b as [sb|sb| |sb mb eb], c as [sc|sc| |sc mc ec];
    try done;
    try (destruct sa; try done); try (destruct sb; try done); try (destruct sc; try done);
    destruct (Z.compare_spec ea eb), (Z.compare_spec eb ec), (Z.compare_spec ea ec);
    try done; try lia;
    destruct (SFcompare_pos_spec ma mb), (SFcompare_pos_spec mb mc),
      (SFcompare_pos_spec ma mc); simpl; try done; lia.
Qed.

Lemma f32_ltb_irrefl (x : float32) : f32_ltb x x = false.
Proof.
  unfold f32_ltb, SFltb, SFcompare. destruct x as [s|s| |s m e]; try done.
  - by destruct s.
  - rewrite Z.compare_refl. rewrite Pos.compare_cont_refl. by destruct s.
Qed.

(** X15. [getArgMax] fails with InvalidRank on a tensor that is not of
    rank 1 and with EmptyInput on one of size 0, and touches nothing. On a
    rank-1 tensor that satisfies the invariants it returns an index inside
    the array whose element no element of the array exceeds; when the array
    holds no NaN, every element before that index is strictly smaller, so
    the index is that of the first maximum. *)
Theorem getArgMax_spec (output : Tensor) (w : World) :
  (rank output <> 1%N -> getArgMax output w = (w, Err InvalidRank)) /\
  (rank output = 1%N -> size output = 0%N -> getArgMax output w = (w, Err EmptyInput)) /\
  (forall buf,
     tensor_ok w output -> rank output = 1%N -> buffer_of w output = Some buf ->
     exists i v,
       getArgMax output w = (w, Ok i) /\
       buf !! N.to_nat i = Some v /\
       (forall x, x ∈ buf -> f32_ltb v x = false) /\
       (Forall (fun x => x <> S754_nan) buf ->
        forall j x, j < N.to_nat i -> buf !! j = Some x -> f32_ltb x v = true)).
Proof.
  unfold getArgMax. split; [|split].
  - intros Hr. by rewrite decide_True.
  - intros Hr Hs. rewrite decide_False by (intros ?; done). by rewrite decide_True.
  - intros buf Hok Hr Hbuf.
    destruct (tensor_ok_buffer _ _ _ Hok Hbuf) as (a & Hd & Ha & Hlen).
    assert (total_size_ output <> 0%N) as Hnz.
    { destruct Hok as [[Hne Hnzd -> _] _ _].
      pose proof (product_pos _ Hnzd). lia. }
    rewrite decide_False by (intros ?; done). rewrite decide_False by done.
    unfold size, data. rewrite Hd.
    destruct buf as [|first rest] eqn:Ebuf; [simpl in Hlen; lia|]. rewrite <- Ebuf in *.
    assert (buf !! 0 = Some first) as Hfirst by (by rewrite Ebuf).
    erewrite bind_ok by (by eapply load_ok).
    set (body := fun (i : N) (best : N * float32) =>
                   let '(max_idx, max_val) := best in
                   let* x := load (Some a) i in
                   if f32_ltb max_val x then ret (i, x) else ret (max_idx, max_val)).
    destruct (for_loop_inv body
                (fun k s best =>
                   s = w /\ buf !! N.to_nat (fst best) = Some (snd best) /\
                   (forall j x, j < S k -> buf !! j = Some x -> f32_ltb (snd best) x = false) /\
                   (Forall (fun x => x <> S754_nan) buf ->
                    forall j x, j < N.to_nat (fst best) -> buf !! j = Some x ->
                                f32_ltb x (snd best) = true))
                (N.to_nat (total_size_ output) - 1) 1%N (0%N, first) w)
      as (s' & [i v] & Hl & -> & Hv & Hmax & Hfst).
    + split; [done|]. split; [done|]. split.
      * intros j x Hj Hx. assert (j = 0) as -> by lia.
        assert (x = first) as -> by congruence. apply f32_ltb_irrefl.
      * intros _ j x Hj. simpl in Hj. lia.
    + intros k s1 [idx val] Hk (-> & Hval & Hmax & Hfst). simpl in *.
      destruct (lookup_lt_is_Some_2 buf (S k)) as [x Hx]; [lia|].
      unfold body.
      erewrite bind_ok.
      2: { eapply load_ok; [exact Ha|].
           replace (N.to_nat (1 + N.of_nat k)) with (S k) by lia. done. }
      destruct (f32_ltb val x) eqn:Hlt.
      * eexists _, _. split; [done|]. simpl. split; [done|].
        replace (N.to_nat (1 + N.of_nat k)) with (S k) by lia.
        split; [done|]. split.
        -- intros j y Hj Hy. destruct (decide (j = S k)) as [->|Hne].
           ++ assert (y = x) as -> by congruence. apply f32_ltb_irrefl.
           ++ destruct (f32_ltb x y) eqn:Hxy; [|done].
              pose proof (f32_ltb_trans _ _ _ Hlt Hxy) as Habs.
              rewrite (Hmax j y) in Habs; [done | lia | done].
        -- intros Hnan j y Hj Hy.
           apply (f32_ltb_neg_trans val); [|by apply (Hmax j y); [lia|] | done].
           rewrite Forall_forall in Hnan. apply Hnan.
           by eapply list_elem_of_lookup_2.
      * eexists _, _. split; [done|]. simpl. split; [done|]. split; [done|]. split; [|done].
        intros j y Hj Hy. destruct (decide (j = S k)) as [->|Hne].
        -- by assert (y = x) as -> by congruence.
        -- apply (Hmax j); [lia | done].
    + simpl in *. exists i, v. split.
      { erewrite bind_ok by exact Hl. done. }
      split; [done|]. split; [|done].
      intros x Hx. apply list_elem_of_lookup_1 in Hx as [j Hj].
      apply (Hmax j); [|done]. apply lookup_lt_Some in Hj. lia.
Qed.

(** X16. [isValidModelFile] is false for a file that cannot be opened and
    true exactly for a file of at least four bytes that starts with the
    magic number; every file that [loadFromFile] loads passes it. *)
Theorem isValidModelFile_spec (bytes : list byte) (w : World) :
  isValidModelFile None = false /\
  (isValidModelFile (Some bytes) = true <->
     4 <= length bytes /\ le_decode (take 4 bytes) = 0x4E4E494D%N) /\
  (forall w' model,
     loadFromFile (Some bytes) w = (w', Ok model) ->
     isValidModelFile (Some bytes) = true).
Proof.
  split; [done|].
  assert (isValidModelFile (Some bytes) = true <->
          4 <= length bytes /\ le_decode (take 4 bytes) = 0x4E4E494D%N) as Hiff.
  { unfold isValidModelFile. destruct (decide (4 <= length bytes)) as [Hl|Hl].
    - rewrite N.eqb_eq. unfold MAGIC_NUMBER. tauto.
    - split; [done | tauto]. }
  split; [done|].
  intros w' model E. apply Hiff. unfold loadFromFile, catch_wrap in E.
  destruct (loadFromFile_body (w, bytes)) as [[w1 rest] [model1|e]] eqn:Hbody.
  2: { by destruct e. }
  apply loadFromFile_body_complete in Hbody as (Hlen & Hm & _).
  split; [lia|]. exact Hm.
Qed.

(** ** Layers *)

(** The world after the two members of a linear layer have been copied. *)
Lemma LinearLayer_members (weights bias : Tensor) (w : World) (a b : nat)
    (bufW bufb : list float32) (k : Tensor -> Tensor -> M Layer) :
  tensor_ok w weights -> tensor_ok w bias ->
  data_ weights = Some a -> data_ bias = Some b ->
  w_heap w !! a = Some bufW -> w_heap w !! b = Some bufb ->
  (let* weights_ := Tensor_copy weights in
   let* bias_ := on_throw (Tensor_copy bias) (Tensor_destroy weights_) in
   k weights_ bias_) w
  = k {| shape_ := shape_ weights; total_size_ := total_size_ weights;
         dtype_ := dtype_ weights; data_ := Some (fresh (dom (w_heap w))) |}
      {| shape_ := shape_ bias; total_size_ := total_size_ bias;
         dtype_ := dtype_ bias;
         data_ := Some (fresh (dom (<[fresh (dom (w_heap w)) := bufW]> (w_heap w)))) |}
      (set_heap
         (<[fresh (dom (<[fresh (dom (w_heap w)) := bufW]> (w_heap w))) := bufb]>
            (<[fresh (dom (w_heap w)) := bufW]> (w_heap w))) w).
Proof.
  intros Hokw Hokb Hda Hdb Ha Hb.
  pose proof (fresh_not_live (w_heap w)) as Hq1.
  erewrite bind_ok.
  2: { apply Tensor_copy_ok with (a := a) (buf := bufW); try done.
       - destruct Hokw as [[_ _ _ (a' & buf' & ? & ? & ?)] _ _].
         assert (a' = a) as -> by congruence. congruence.
       - by destruct Hokw. }
  erewrite bind_ok.
  2: { apply on_throw_ok. apply (Tensor_copy_ok bias _ b bufb); try done.
       - simpl. rewrite lookup_insert_ne; [done | congruence].
       - destruct Hokb as [[_ _ _ (a' & buf' & ? & ? & ?)] _ _].
         assert (a' = b) as -> by congruence. congruence.
       - by destruct Hokb. }
  simpl. by rewrite set_heap_twice.
Qed.

(** X17. The constructor of a linear layer, on tensors that satisfy the
    invariants: it fails with InvalidRank when the weights are not of rank 2
    or the bias is not of rank 1, and with DimensionMismatch when the second
    dimension of the weights is not the length of the bias, and then leaves
    the heap exactly as it was (the copies it made are released). Otherwise
    the layer owns deep copies of the two tensors, in arrays that were not
    live before, and every array that was live is as it was. *)
Theorem LinearLayer_new_spec (weights bias : Tensor) (w : World)
    (bufW bufb : list float32) :
  tensor_ok w weights -> tensor_ok w bias ->
  buffer_of w weights = Some bufW -> buffer_of w bias = Some bufb ->
  (rank weights <> 2%N \/ rank bias <> 1%N ->
     LinearLayer_new weights bias w = (w, Err InvalidRank)) /\
  (forall in_f out_f n, shape weights = [in_f; out_f] -> shape bias = [n] -> out_f <> n ->
     LinearLayer_new weights bias w = (w, Err DimensionMismatch)) /\
  (forall in_f out_f, shape weights = [in_f; out_f] -> shape bias = [out_f] ->
     exists w' weights_ bias_,
       LinearLayer_new weights bias w = (w', Ok (LinearLayer weights_ bias_)) /\
       linear_ok w' weights_ bias_ in_f out_f /\
       buffer_of w' weights_ = Some bufW /\ buffer_of w' bias_ = Some bufb /\
       buffer_of w weights_ = None /\ buffer_of w bias_ = None /\
       data weights_ <> data bias_ /\
       (forall a, is_Some (w_heap w !! a) -> w_heap w' !! a = w_heap w !! a)).
Proof.
  unfold shape, data. intros Hokw Hokb HbufW Hbufb.
  destruct (tensor_ok_buffer _ _ _ Hokw HbufW) as (a & Hda & Ha & HlenW).
  destruct (tensor_ok_buffer _ _ _ Hokb Hbufb) as (b & Hdb & Hb & Hlenb).
  pose proof (fresh_not_live (w_heap w)) as Hq1.
  pose proof (fresh_insert_not_live (w_heap w) (fresh (dom (w_heap w))) bufW) as Hq2.
  pose proof (fresh_insert_ne (w_heap w) (fresh (dom (w_heap w))) bufW) as Hq12.
  unfold LinearLayer_new.
  rewrite (LinearLayer_members weights bias w a b bufW bufb) by done.
  set (q1 := fresh (dom (w_heap w))) in *.
  set (q2 := fresh (dom (<[q1 := bufW]> (w_heap w)))) in *.
  assert (forall e,
    (fst (Layer_destroy
       (LinearLayer
          {| shape_ := shape_ weights; total_size_ := total_size_ weights;
             dtype_ := dtype_ weights; data_ := Some q1 |}
          {| shape_ := shape_ bias; total_size_ := total_size_ bias;
             dtype_ := dtype_ bias; data_ := Some q2 |})
       (set_heap (<[q2 := bufb]> (<[q1 := bufW]> (w_heap w))) w)), Err e)
    = (w, @Err Layer e)) as Hrestore.
  { intros e. f_equal. unfold Layer_destroy, Tensor_destroy, bind, release. simpl.
    rewrite lookup_insert_eq. simpl.
    rewrite delete_insert_eq.
    rewrite (delete_id _ q2) by (by rewrite lookup_insert_ne).
    rewrite lookup_insert_eq. simpl.
    rewrite delete_insert_eq, delete_id by done.
    rewrite !set_heap_twice. apply set_heap_same. }
  split; [|split].
  - intros Hr.
    match goal with |- context [on_throw ?c ?h] =>
      assert (forall s, c s = (s, Err InvalidRank)) as Hcheck end.
    { intros s. unfold rank in *. repeat case_decide; try done. tauto. }
    unfold bind at 1, on_throw. rewrite Hcheck. apply Hrestore.
  - intros in_f out_f n Hsw Hsb Hne.
    match goal with |- context [on_throw ?c ?h] =>
      assert (forall s, c s = (s, Err DimensionMismatch)) as Hcheck end.
    { intros s. unfold rank, shape. rewrite Hsw, Hsb. simpl.
      unfold bind, vector_at. simpl. by rewrite decide_True. }
    unfold bind at 1, on_throw. rewrite Hcheck. apply Hrestore.
  - intros in_f out_f Hsw Hsb. eexists _, _, _. split.
    { match goal with |- context [on_throw ?c ?h] =>
        assert (forall s, c s = (s, Ok tt)) as Hcheck end.
      { intros s. unfold rank, shape. rewrite Hsw, Hsb. simpl.
        unfold bind, vector_at. simpl. by rewrite decide_False by (intros ?; done). }
      unfold bind at 1, on_throw. rewrite Hcheck. done. }
    unfold buffer_of. simpl. rewrite lookup_insert_eq.
    rewrite lookup_insert_ne, lookup_insert_eq by done.
    split; [|split; [done|]; split; [done|]; split; [done|]; split; [done|]; split].
    + destruct Hokw as [[Hnew Hnzw Htsw _] Hmaxw Hrankw].
      destruct Hokb as [[Hneb Hnzb Htsb _] Hmaxb Hrankb].
      split; simpl; try done.
      * split; [split|..]; simpl; try done.
        exists q1, bufW. split; [done|]. rewrite lookup_insert_ne by done.
        by rewrite lookup_insert_eq.
      * split; [split|..]; simpl; try done.
        exists q2, bufb. split; [done|]. by rewrite lookup_insert_eq.
    + congruence.
    + intros a' [buf' Ha']. rewrite !lookup_insert_ne; [done | congruence | congruence].
Qed.

(** The copy assignment between two distinct tensors: the new array is
    allocated, the old one released, the contents copied. *)
Lemma Tensor_copy_assign_ok (self other : Tensor) (w : World) (a : nat)
    (buf : list float32) :
  data_ other = Some a -> w_heap w !! a = Some buf ->
  N.of_nat (length buf) = total_size_ other ->
  (total_size_ other <= max_array_len w)%N ->
  releasable w (data_ self) -> data_ self <> Some a ->
  Tensor_copy_assign self other w
  = (set_heap (<[fresh (dom (w_heap w)) := buf]> (released (data_ self) (w_heap w))) w,
     Ok {| shape_ := shape_ other; total_size_ := total_size_ other;
           dtype_ := dtype_ other; data_ := Some (fresh (dom (w_heap w))) |}).
Proof.
  intros Hd Ha Hlen Hmax Hrel Hne. unfold Tensor_copy_assign.
  pose proof (releasable_fresh w _ Hrel) as Hfresh.
  set (q := fresh (dom (w_heap w))) in *.
  assert (q <> a) as Hqa.
  { intros E. unfold q in E. rewrite <- E, fresh_not_live in Ha. done. }
  erewrite bind_ok; last by apply make_unique_ok.
  fold q.
  erewrite bind_ok.
  2: { apply release_releasable. destruct (data_ self) as [p|]; [|done].
       simpl in *. rewrite lookup_insert_ne; [done | congruence]. }
  simpl. rewrite set_heap_twice, released_insert_ne by done.
  erewrite bind_ok.
  2: { rewrite Hd. apply load_range_ok with (buf := buf); [|lia].
       simpl. rewrite lookup_insert_ne by done. by rewrite released_lookup_ne. }
  rewrite firstn_all2 by lia.
  erewrite bind_ok.
  2: { apply store_range_ok with (buf := replicate (N.to_nat (total_size_ other)) f32_zero).
       - simpl. apply lookup_insert_eq.
       - rewrite length_replicate. lia. }
  unfold ret. simpl. rewrite set_heap_twice, insert_insert_eq.
  rewrite drop_ge by (rewrite length_replicate; lia).
  by rewrite app_nil_r.
Qed.

(** [output = input] between two distinct tensors. *)
Lemma assign_output_ok (input output : Tensor) (w : World) (buf : list float32) :
  tensor_ok w input -> buffer_of w input = Some buf ->
  releasable w (data_ output) -> data_ output <> data_ input ->
  assign_output input (w, output)
  = ((set_heap (<[fresh (dom (w_heap w)) := buf]> (released (data_ output) (w_heap w))) w,
      {| shape_ := shape_ input; total_size_ := total_size_ input;
         dtype_ := dtype_ input; data_ := Some (fresh (dom (w_heap w))) |}), Ok tt).
Proof.
  intros Hok Hbuf Hrel Hne.
  destruct (tensor_ok_buffer _ _ _ Hok Hbuf) as (a & Hd & Ha & Hlen).
  unfold assign_output. rewrite bind_self. simpl.
  erewrite bind_ok.
  2: { apply lift_ok. apply (Tensor_copy_assign_ok output input w a buf); try done.
       - by destruct Hok.
       - congruence. }
  done.
Qed.

Section Activations.
Context `{Platform}.

(** X18. The forward pass of the activation layers, on an input that
    satisfies the invariants and an output tensor distinct from it: the
    array the output owned is released, the output becomes a tensor of the
    shape, size and dtype of the input in an array that was not live
    before, holding the activation of the contents of the input (the relu
    of each element, its sigmoid, or the softmax of the array), and the
    array of the input is as it was. *)
Theorem activation_forward (input output : Tensor) (w : World) (buf : list float32) :
  tensor_ok w input -> buffer_of w input = Some buf ->
  releasable w (data output) -> data output <> data input ->
  exists q,
    w_heap w !! q = None /\
    released (data output) (w_heap w) !! q = None /\
    ReLULayer_forward input (w, output)
    = ((set_heap (<[q := map relu_elem buf]> (released (data output) (w_heap w))) w,
        {| shape_ := shape input; total_size_ := size input; dtype_ := dtype input;
           data_ := Some q |}), Ok tt) /\
    SigmoidLayer_forward input (w, output)
    = ((set_heap (<[q := map sigmoid_elem buf]> (released (data output) (w_heap w))) w,
        {| shape_ := shape input; total_size_ := size input; dtype_ := dtype input;
           data_ := Some q |}), Ok tt) /\
    SoftmaxLayer_forward input (w, output)
    = ((set_heap (<[q := softmax_values buf]> (released (data output) (w_heap w))) w,
        {| shape_ := shape input; total_size_ := size input; dtype_ := dtype input;
           data_ := Some q |}), Ok tt) /\
    buffer_of (set_heap (released (data output) (w_heap w)) w) input = Some buf.
Proof.
  unfold data, shape, size, dtype. intros Hok Hbuf Hrel Hne.
  destruct (tensor_ok_buffer _ _ _ Hok Hbuf) as (a & Hd & Ha & Hlen).
  pose proof (fresh_not_live (w_heap w)) as Hfresh.
  set (q := fresh (dom (w_heap w))) in *.
  set (h := released (data_ output) (w_heap w)).
  assert (h !! q = None) as Hhq.
  { unfold h. destruct (data_ output) as [p|]; simpl; [|done].
    by apply lookup_delete_None; right. }
  set (copy := {| shape_ := shape_ input; total_size_ := total_size_ input;
                  dtype_ := dtype_ input; data_ := Some q |}).
  set (w1 := set_heap (<[q := buf]> h) w).
  assert (assign_output input (w, output) = ((w1, copy), Ok tt)) as Hassign.
  { by apply assign_output_ok. }
  assert (forall (kernel : Tensor -> M unit) (R : list float32),
            kernel copy w1 = (set_heap (<[q := R]> (w_heap w1)) w1, Ok tt) ->
            (assign_output input >> let* o := self in lift (kernel o)) (w, output)
            = ((set_heap (<[q := R]> h) w, copy), Ok tt)) as Hrun.
  { intros kernel R Hk. erewrite bind_ok by exact Hassign.
    rewrite bind_self. simpl. erewrite lift_ok by exact Hk.
    unfold w1. simpl. by rewrite set_heap_twice, insert_insert_eq. }
  exists q. split; [done|]. split; [done|].
  split; [|split; [|split]].
  - apply Hrun. apply (relu_ok copy w1 q buf); [done | apply lookup_insert_eq | simpl; lia].
  - apply Hrun.
    apply (sigmoid_ok copy w1 q buf); [done | apply lookup_insert_eq | simpl; lia].
  - apply Hrun.
    apply (softmax_ok copy w1 q buf); [done | apply lookup_insert_eq | done |].
    destruct Hok as [[_ Hnzd Hts _] _ _]. simpl. rewrite Hts.
    pose proof (product_pos _ Hnzd). lia.
  - unfold buffer_of. rewrite Hd. simpl. fold h. unfold h.
    rewrite released_lookup_ne; [done | congruence].
Qed.
End Activations.

(** ** ModelLoader: reading what the format lays out *)

Lemma le_encode_length (n : nat) : forall v, length (le_encode n v) = n.
Proof.
  induction n as [|n IH]; intros v; [done|]. simpl.
  destruct (Byte.of_N (v mod 256)) as [b|] eqn:E.
  - simpl. by rewrite IH.
  - apply Byte.of_N_None_iff in E. pose proof (N.mod_lt v 256). lia.
Qed.

Lemma le_decode_encode (n : nat) : forall v,
  (v < 256 ^ N.of_nat n)%N -> le_decode (le_encode n v) = v.
Proof.
  induction n as [|n IH]; intros v Hv.
  - simpl in *. lia.
  - simpl. destruct (Byte.of_N (v mod 256)) as [b|] eqn:E.
    + simpl. fold (le_decode (le_encode n (v / 256))). rewrite IH.
      * apply Byte.to_of_N in E. rewrite E.
        rewrite (N.div_mod v 256) at 3 by done. lia.
      * replace (N.of_nat (S n)) with (N.succ (N.of_nat n)) in Hv by lia.
        rewrite N.pow_succ_r' in Hv.
        apply N.Div0.div_lt_upper_bound. lia.
    + apply Byte.of_N_None_iff in E. pose proof (N.mod_lt v 256). lia.
Qed.

Lemma read_bytes_app (n : N) (w : World) (bs rest : list byte) :
  length bs = N.to_nat n -> read_bytes n (w, bs ++ rest) = ((w, rest), Ok bs).
Proof.
  intros Hlen. rewrite read_bytes_ok by (rewrite length_app; lia).
  rewrite <- Hlen. by rewrite drop_app_length, take_app_length.
Qed.

Lemma readBinary_u8_encoded (v : N) (w : World) (rest : list byte) :
  (v < 256)%N -> readBinary_u8 (w, le_encode 1 v ++ rest) = ((w, rest), Ok v).
Proof.
  intros Hv. unfold readBinary_u8.
  erewrite bind_ok by (apply read_bytes_app; by rewrite le_encode_length).
  unfold ret. by rewrite (le_decode_encode 1).
Qed.

Lemma readBinary_u32_encoded (v : N) (w : World) (rest : list byte) :
  (v < 2 ^ 32)%N -> readBinary_u32 (w, le_encode 4 v ++ rest) = ((w, rest), Ok v).
Proof.
  intros Hv. unfold readBinary_u32.
  erewrite bind_ok by (apply read_bytes_app; by rewrite le_encode_length).
  unfold ret. by rewrite (le_decode_encode 4).
Qed.

Lemma read_dims_encoded (dims : list N) (w : World) (rest : list byte) :
  Forall (fun d => (d < 2 ^ 32)%N) dims ->
  read_dims (N.of_nat (length dims)) (w, flat_map (le_encode 4) dims ++ rest)
  = ((w, rest), Ok dims).
Proof.
  intros Hd. unfold read_dims. rewrite Nat2N.id.
  set (zeros := replicate (length dims) 0%N).
  destruct (for_range_inv
              (fun i v => let* dim := readBinary_u32 in ret (<[N.to_nat i := dim]> v))
              (fun k s v =>
                 s = (w, flat_map (le_encode 4) (drop (N.to_nat k) dims) ++ rest) /\
                 v = take (N.to_nat k) dims ++ drop (N.to_nat k) zeros)
              (N.of_nat (length dims)) zeros (w, flat_map (le_encode 4) dims ++ rest))
    as (s' & v' & Hl & -> & ->).
  - done.
  - intros k s1 v1 Hk [-> ->]. set (j := N.to_nat k).
    destruct (lookup_lt_is_Some_2 dims j) as [d Hdj]; [lia|].
    rewrite (drop_S _ _ _ Hdj). simpl. rewrite <- app_assoc.
    eexists _, _. split.
    + erewrite bind_ok; [done|]. apply readBinary_u32_encoded.
      rewrite Forall_forall in Hd. apply Hd. by eapply list_elem_of_lookup_2.
    + replace (N.to_nat (N.succ k)) with (S j) by lia. split; [done|].
      apply take_drop_step; [done|]. unfold zeros. rewrite length_replicate. lia.
  - rewrite Hl, Nat2N.id. rewrite drop_all, firstn_all. simpl. unfold zeros.
    rewrite drop_ge by (rewrite length_replicate; lia). by rewrite app_nil_r.
Qed.

Lemma header_of_app (A B C D E rest : list byte) :
  length A = 4 -> length B = 2 -> length C = 2 -> length D = 4 -> length E = 4 ->
  header_of (A ++ B ++ C ++ D ++ E ++ rest)
  = {| magic := le_decode A; version_major := le_decode B; version_minor := le_decode C;
       num_layers := le_decode D; reserved := le_decode E |}.
Proof.
  intros HA HB HC HD HE.
  destruct A as [|a0 [|a1 [|a2 [|a3 [|]]]]]; try done.
  destruct B as [|b0 [|b1 [|]]]; try done.
  destruct C as [|c0 [|c1 [|]]]; try done.
  destruct D as [|d0 [|d1 [|d2 [|d3 [|]]]]]; try done.
  destruct E as [|e0 [|e1 [|e2 [|e3 [|]]]]]; try done.
Qed.

Lemma encode_header_length (n : N) : length (encode_header n) = 16.
Proof. unfold encode_header. by rewrite !length_app, !le_encode_length. Qed.

Lemma readBinary_Header_encoded (n : N) (w : World) (rest : list byte) :
  (n < 2 ^ 32)%N ->
  readBinary_Header (w, encode_header n ++ rest)
  = ((w, rest),
     Ok {| magic := MAGIC_NUMBER; version_major := VERSION_MAJOR;
           version_minor := VERSION_MINOR; num_layers := n; reserved := 0 |}).
Proof.
  intros Hn. rewrite readBinary_Header_ok by (rewrite length_app, encode_header_length; lia).
  rewrite <- (encode_header_length n) at 1. rewrite drop_app_length.
  do 2 f_equal. unfold encode_header. rewrite <- !app_assoc.
  rewrite header_of_app by apply le_encode_length.
  by rewrite (le_decode_encode 4 n).
Qed.

Lemma floats_of_bytes_length (k : nat) : forall bs,
  length bs = 4 * k -> length (floats_of_bytes bs) = k.
Proof.
  induction k as [|k IH]; intros bs Hlen.
  - by destruct bs.
  - destruct bs as [|b0 [|b1 [|b2 [|b3 bs']]]]; simpl in Hlen; try lia.
    simpl. rewrite IH; [done | lia].
Qed.

Lemma loadTensor_encoded (dims : list N) (payload rest : list byte) (w : World) :
  dims <> [] -> length dims <= 8 -> Forall (fun d => (0 < d < 2 ^ 32)%N) dims ->
  (product dims <= max_array_len w)%N ->
  length payload = N.to_nat (4 * product dims) ->
  loadTensor (w, encode_tensor dims payload ++ rest)
  = ((set_heap (<[fresh (dom (w_heap w)) := floats_of_bytes payload]> (w_heap w)) w, rest),
     Ok {| shape_ := dims; total_size_ := product dims; dtype_ := FLOAT32;
           data_ := Some (fresh (dom (w_heap w))) |}).
Proof.
  intros Hne Hrank Hd Hmax Hlen. pose proof (max_array_len_lt w) as Hlt.
  assert (Forall (fun d => d <> 0%N) dims) as Hnz.
  { eapply Forall_impl; [exact Hd|]. simpl. intros. lia. }
  assert (Forall (fun d => (d < 2 ^ 32)%N) dims) as Hlt32.
  { eapply Forall_impl; [exact Hd|]. simpl. intros. lia. }
  unfold loadTensor, encode_tensor, encode_dims. rewrite <- !app_assoc.
  erewrite bind_ok by (by apply readBinary_u8_encoded).
  erewrite bind_ok by (apply readBinary_u32_encoded; lia).
  rewrite decide_False.
  2: { destruct dims; [done|]. simpl in *. lia. }
  erewrite bind_ok by (by apply read_dims_encoded).
  erewrite bind_ok by (apply lift_ok; by apply Tensor_new_ok).
  erewrite bind_ok; [done|].
  apply on_throw_ok. simpl.
  rewrite wrap64_small by (unfold max_array_len in Hmax; lia).
  erewrite bind_ok by (apply read_bytes_app; lia).
  erewrite lift_ok.
  2: { apply store_range_ok with (buf := replicate (N.to_nat (product dims)) f32_zero).
       - simpl. apply lookup_insert_eq.
       - rewrite length_replicate, (floats_of_bytes_length (N.to_nat (product dims))); lia. }
  simpl. rewrite set_heap_twice, insert_insert_eq.
  rewrite drop_ge, app_nil_r; [done|].
  rewrite length_replicate, (floats_of_bytes_length (N.to_nat (product dims))); lia.
Qed.

(** What the constructor of a linear layer returns. *)
Lemma LinearLayer_new_ok (weights bias : Tensor) (w : World) (in_f out_f : N)
    (bufW bufb : list float32) :
  tensor_ok w weights -> tensor_ok w bias ->
  buffer_of w weights = Some bufW -> buffer_of w bias = Some bufb ->
  shape_ weights = [in_f; out_f] -> shape_ bias = [out_f] ->
  LinearLayer_new weights bias w
  = (set_heap
       (<[fresh (dom (<[fresh (dom (w_heap w)) := bufW]> (w_heap w))) := bufb]>
          (<[fresh (dom (w_heap w)) := bufW]> (w_heap w))) w,
     Ok (LinearLayer
           {| shape_ := shape_ weights; total_size_ := total_size_ weights;
              dtype_ := dtype_ weights; data_ := Some (fresh (dom (w_heap w))) |}
           {| shape_ := shape_ bias; total_size_ := total_size_ bias;
              dtype_ := dtype_ bias;
              data_ :=
                Some (fresh (dom (<[fresh (dom (w_heap w)) := bufW]> (w_heap w)))) |})).
Proof.
  intros Hokw Hokb HbufW Hbufb Hsw Hsb.
  destruct (tensor_ok_buffer _ _ _ Hokw HbufW) as (a & Hda & Ha & HlenW).
  destruct (tensor_ok_buffer _ _ _ Hokb Hbufb) as (b & Hdb & Hb & Hlenb).
  unfold LinearLayer_new.
  rewrite (LinearLayer_members weights bias w a b bufW bufb) by done.
  match goal with |- context [on_throw ?c ?h] =>
    assert (forall s, c s = (s, Ok tt)) as Hcheck end.
  { intros s. unfold rank, shape. rewrite Hsw, Hsb. simpl.
    unfold bind, vector_at. simpl. by rewrite decide_False by (intros ?; done). }
  unfold bind at 1, on_throw. by rewrite Hcheck.
Qed.

Lemma loadLayer_activation (type : LayerType) (w : World) (rest : list byte) :
  type <> LINEAR ->
  exists layer,
    loadLayer (w, encode_layer (ActivationImage type) ++ rest) = ((w, rest), Ok layer) /\
    layer_loaded w layer (ActivationImage type).
Proof.
  intros Hne. unfold loadLayer, encode_layer.
  destruct type; [done|..];
    (erewrite bind_ok by (by apply readBinary_u8_encoded)); simpl;
    eexists; (split; [done|done]).
Qed.

Lemma loadLayer_linear (in_f out_f : N) (wb bb rest : list byte) (w : World) :
  image_ok w (LinearImage in_f out_f wb bb) ->
  exists qW qb,
    w_heap w !! qW = None /\ w_heap w !! qb = None /\ qW <> qb /\
    loadLayer (w, encode_layer (LinearImage in_f out_f wb bb) ++ rest)
    = ((set_heap (<[qb := floats_of_bytes bb]> (<[qW := floats_of_bytes wb]> (w_heap w))) w,
        rest),
       Ok (LinearLayer
             {| shape_ := [in_f; out_f]; total_size_ := product [in_f; out_f];
                dtype_ := FLOAT32; data_ := Some qW |}
             {| shape_ := [out_f]; total_size_ := product [out_f];
                dtype_ := FLOAT32; data_ := Some qb |})).
Proof.
  intros (Hin & Hout & Hmax & Hlw & Hlb). pose proof (max_array_len_lt w) as Hlt.
  set (W := floats_of_bytes wb). set (B := floats_of_bytes bb).
  set (h := w_heap w).
  set (q1 := fresh (dom h)).
  set (h1 := <[q1 := W]> h).
  set (q2 := fresh (dom h1)).
  set (h2 := <[q2 := B]> h1).
  set (q3 := fresh (dom h2)).
  set (h3 := <[q3 := W]> h2).
  set (q4 := fresh (dom h3)).
  assert (h !! q1 = None) as H1 by apply fresh_not_live.
  assert (h1 !! q2 = None) as H2 by apply fresh_not_live.
  assert (h2 !! q3 = None) as H3 by apply fresh_not_live.
  assert (h3 !! q4 = None) as H4 by apply fresh_not_live.
  unfold h3 in H4. apply lookup_insert_None in H4 as [H4 H43].
  unfold h2 in H3, H4. apply lookup_insert_None in H3 as [H3 H32].
  apply lookup_insert_None in H4 as [H4 H42].
  unfold h1 in H2, H3, H4. apply lookup_insert_None in H2 as [H2 H21].
  apply lookup_insert_None in H3 as [H3 H31]. apply lookup_insert_None in H4 as [H4 H41].
  assert (product [in_f; out_f] = (in_f * out_f)%N) as HpW by (simpl; lia).
  assert (product [out_f] = out_f) as HpB by (simpl; lia).
  assert (length W = N.to_nat (in_f * out_f)) as HlenW.
  { apply floats_of_bytes_length. lia. }
  assert (length B = N.to_nat out_f) as HlenB.
  { apply floats_of_bytes_length. lia. }
  set (weights := {| shape_ := [in_f; out_f]; total_size_ := product [in_f; out_f];
                     dtype_ := FLOAT32; data_ := Some q1 |}).
  set (bias := {| shape_ := [out_f]; total_size_ := product [out_f];
                  dtype_ := FLOAT32; data_ := Some q2 |}).
  exists q3, q4. split; [done|]. split; [done|]. split; [done|].
  unfold loadLayer, encode_layer, LayerType_code. rewrite <- !app_assoc.
  erewrite bind_ok by (by apply readBinary_u8_encoded). cbv beta iota.
  erewrite bind_ok.
  2: { apply loadTensor_encoded; try done; [simpl; lia | | alloc_lia | lia].
       repeat constructor; lia. }
  fold h q1 W weights.
  erewrite bind_ok.
  2: { apply on_throw_ok.
       apply loadTensor_encoded; try done; [simpl; lia | | alloc_nia | lia].
       repeat constructor; lia. }
  simpl w_heap. fold h1 q2 B bias. rewrite set_heap_twice. fold h2.
  assert (tensor_ok (set_heap h2 w) weights) as Hokw.
  { apply (tensor_ok_fresh _ q1 W);
      [done | repeat constructor; lia | done | alloc_lia | simpl; lia | by rewrite HpW |].
    simpl. unfold h2, h1. rewrite lookup_insert_ne by done. apply lookup_insert_eq. }
  assert (tensor_ok (set_heap h2 w) bias) as Hokb.
  { apply (tensor_ok_fresh _ q2 B);
      [done | repeat constructor; lia | done | alloc_nia | simpl; lia | by rewrite HpB |].
    simpl. apply lookup_insert_eq. }
  erewrite bind_ok.
  2: { apply on_throw_ok, lift_ok.
       apply (LinearLayer_new_ok weights bias _ in_f out_f W B); try done.
       - unfold buffer_of. simpl. unfold h2, h1.
         rewrite lookup_insert_ne by done. apply lookup_insert_eq.
       - unfold buffer_of. simpl. apply lookup_insert_eq. }
  simpl w_heap. fold q3 h3 q4. rewrite set_heap_twice.
  erewrite bind_ok.
  2: { apply lift_ok. unfold Tensor_destroy. simpl.
       erewrite bind_ok.
       2: { apply release_ok with (buf := B). simpl. unfold h3, h2.
            rewrite !lookup_insert_ne by done. apply lookup_insert_eq. }
       apply release_ok with (buf := W). simpl. unfold h3, h2, h1.
       rewrite lookup_delete_ne by done.
       rewrite !lookup_insert_ne by done. apply lookup_insert_eq. }
  unfold ret. simpl. rewrite !set_heap_twice. do 3 f_equal.
  apply map_eq. intros i. unfold h3, h2, h1.
  destruct (decide (i = q1)) as [->|?]; [by simplify_map_eq|].
  destruct (decide (i = q2)) as [->|?]; [by simplify_map_eq|].
  destruct (decide (i = q3)) as [->|?]; [by simplify_map_eq|].
  destruct (decide (i = q4)) as [->|?]; by simplify_map_eq.
Qed.

Lemma image_ok_limit (w w' : World) (image : LayerImage) :
  w_alloc_limit w' = w_alloc_limit w -> image_ok w image -> image_ok w' image.
Proof.
  intros Hlim. destruct image; [|done]. unfold image_ok, max_array_len.
  by rewrite Hlim.
Qed.

Lemma layer_loaded_mono (w w' : World) (layer : Layer) (image : LayerImage) :
  (forall a, is_Some (w_heap w !! a) -> w_heap w' !! a = w_heap w !! a) ->
  w_alloc_limit w' = w_alloc_limit w ->
  layer_loaded w layer image -> layer_loaded w' layer image.
Proof.
  intros Hext Hlim.
  assert (max_array_len w' = max_array_len w) as Hmaxeq
    by (unfold max_array_len; by rewrite Hlim).
  destruct image as [in_f out_f wb bb|type], layer as [W B| | |]; try done.
  simpl. intros ([Hsw Hsb HokW HokB] & HdW & HdB & HbW & HbB).
  destruct (tensor_ok_buffer _ _ _ HokW HbW) as (a & Hda & Ha & _).
  destruct (tensor_ok_buffer _ _ _ HokB HbB) as (b & Hdb & Hb & _).
  assert (w_heap w' !! a = w_heap w !! a) as Ha' by (apply Hext; by rewrite Ha).
  assert (w_heap w' !! b = w_heap w !! b) as Hb' by (apply Hext; by rewrite Hb).
  split; [split; try done|].
  - eapply tensor_ok_frame; [| |exact HokW]; [|done]. intros a0 Ha0. congruence.
  - eapply tensor_ok_frame; [| |exact HokB]; [|done]. intros a0 Ha0. congruence.
  - unfold buffer_of in *. rewrite Hda, Hdb in *. rewrite Ha', Hb'. done.
Qed.

Lemma loadLayer_encoded (image : LayerImage) (w : World) (rest : list byte) :
  image_ok w image ->
  exists w' layer,
    loadLayer (w, encode_layer image ++ rest) = ((w', rest), Ok layer) /\
    layer_loaded w' layer image /\
    (forall a, is_Some (w_heap w !! a) -> w_heap w' !! a = w_heap w !! a) /\
    w_ticks w' = w_ticks w /\ w_alloc_limit w' = w_alloc_limit w.
Proof.
  intros Hok. destruct image as [in_f out_f wb bb|type].
  - destruct (loadLayer_linear in_f out_f wb bb rest w Hok)
      as (qW & qb & HqW & Hqb & Hne & Hload).
    destruct Hok as (Hin & Hout & Hmax & Hlw & Hlb).
    pose proof (max_array_len_lt w) as Hlt.
    eexists _, _. split; [exact Hload|]. split; [|split; [|done]].
    + simpl. split; [|split; [done|]; split; [done|]; split].
      * split; [done | done | |].
        -- apply (tensor_ok_fresh _ qW (floats_of_bytes wb));
             [done | repeat constructor; lia | done | alloc_lia | simpl; lia | |].
           ++ apply floats_of_bytes_length. simpl. lia.
           ++ simpl. rewrite lookup_insert_ne by done. apply lookup_insert_eq.
        -- apply (tensor_ok_fresh _ qb (floats_of_bytes bb));
             [done | repeat constructor; lia | done | alloc_nia | simpl; lia | |].
           ++ apply floats_of_bytes_length. simpl. lia.
           ++ simpl. apply lookup_insert_eq.
      * unfold buffer_of. simpl. rewrite lookup_insert_ne by done. apply lookup_insert_eq.
      * unfold buffer_of. simpl. apply lookup_insert_eq.
    + intros a [buf Ha]. simpl. rewrite !lookup_insert_ne; [done | congruence | congruence].
  - destruct (loadLayer_activation type w rest Hok) as (layer & Hload & Hl).
    by exists w, layer.
Qed.

Lemma load_layers_encoded (images : list LayerImage) :
  forall (i : N) (model : Model) (w : World) (rest : list byte),
    Forall (image_ok w) images ->
    exists w' new_layers,
      for_loop (length images) i
        (fun _ model =>
           let* layer := on_throw loadLayer (lift (Model_destroy model)) in
           let* added := with_local model (addLayer (Some layer)) Model_destroy in
           ret (fst added))
        model (w, flat_map encode_layer images ++ rest)
      = ((w', rest),
         Ok {| layers_ := layers_ model ++ new_layers;
               input_shape_ := input_shape_ model;
               output_shape_ := output_shape_ model |}) /\
      Forall2 (layer_loaded w') new_layers images /\
      (forall a, is_Some (w_heap w !! a) -> w_heap w' !! a = w_heap w !! a) /\
      w_ticks w' = w_ticks w /\ w_alloc_limit w' = w_alloc_limit w.
Proof.
  induction images as [|image images IH]; intros i model w rest Hok.
  - exists w, []. simpl. rewrite app_nil_r. by destruct model.
  - apply Forall_cons in Hok as [Hok1 Hok].
    simpl flat_map. rewrite <- app_assoc. simpl length. rewrite for_loop_S.
    destruct (loadLayer_encoded image w (flat_map encode_layer images ++ rest) Hok1)
      as (w1 & layer & Hload & Hl & Hext1 & Ht1 & Hlim1).
    erewrite bind_ok.
    2: { erewrite bind_ok by (apply on_throw_ok; exact Hload).
         erewrite bind_ok; [done|].
         apply with_local_ok. unfold addLayer. rewrite bind_self. done. }
    cbn [fst snd].
    destruct (IH (N.succ i)
                {| layers_ := layers_ model ++ [layer];
                   input_shape_ := input_shape_ model;
                   output_shape_ := output_shape_ model |} w1 rest)
      as (w' & new_layers & Hloop & Hall & Hext & Ht & Hlim).
    { eapply Forall_impl; [exact Hok|]. intros image'. by apply image_ok_limit. }
    exists w', (layer :: new_layers). split; [|split; [|split; [|split]]].
    + refine (eq_trans Hloop _). simpl. by rewrite <- app_assoc.
    + constructor; [|done]. by apply (layer_loaded_mono w1).
    + intros a Ha. rewrite Hext.
      * by apply Hext1.
      * rewrite Hext1 by done. done.
    + congruence.
    + congruence.
Qed.

(** X19. A file laid out as the format says loads into the model it
    describes: a header declaring between 1 and 1000 layers, the layers
    (a type byte, and for a linear layer the weights of shape
    [[in; out]] and the bias of shape [[out]], each with its dtype byte,
    rank, dimensions and four bytes per float), then the input and the
    output shape. The load returns a model with one layer per layer of the
    file, in order and of the same type, a linear layer owning live arrays
    that hold the floats of the file and satisfy the invariants; the shapes
    are those of the file; bytes after the output shape are not read; and no
    array that was live is touched. *)
Theorem load_encoded_model (images : list LayerImage) (input_shape output_shape : list N)
    (rest : list byte) (w : World) :
  Forall (image_ok w) images -> 1 <= length images <= 1000 ->
  dims_ok input_shape -> dims_ok output_shape ->
  exists w' model,
    loadFromFile (Some (encode_model images input_shape output_shape ++ rest)) w
    = (w', Ok model) /\
    Forall2 (layer_loaded w') (layers_ model) images /\
    getInputShape model = input_shape /\ getOutputShape model = output_shape /\
    (forall a, is_Some (w_heap w !! a) -> w_heap w' !! a = w_heap w !! a) /\
    w_ticks w' = w_ticks w.
Proof.
  intros Hok Hn [Hri Hdi] [Hro Hdo].
  destruct (load_layers_encoded images 0%N Model_default w
              (encode_dims input_shape ++ encode_dims output_shape ++ rest) Hok)
    as (w' & layers & Hloop & Hall & Hext & Ht & _).
  exists w', {| layers_ := layers; input_shape_ := input_shape;
                output_shape_ := output_shape |}.
  split; [|done].
  assert (loadFromFile_body (w, encode_model images input_shape output_shape ++ rest)
          = ((w', rest), Ok {| layers_ := layers; input_shape_ := input_shape;
                               output_shape_ := output_shape |})) as Hbody.
  { unfold loadFromFile_body, encode_model. rewrite <- !app_assoc.
    erewrite bind_ok by (apply readBinary_Header_encoded; lia).
    erewrite bind_ok.
    2: { unfold validateHeader. cbn [magic version_major num_layers].
         rewrite decide_False by (intros ?; done).
         rewrite decide_False by (intros ?; done).
         rewrite decide_False by lia. rewrite decide_False by lia. done. }
    unfold for_range. simpl num_layers. rewrite Nat2N.id.
    erewrite bind_ok by exact Hloop.
    apply on_throw_ok. unfold encode_dims. rewrite <- !app_assoc.
    erewrite bind_ok by (by apply readBinary_u32_encoded).
    erewrite bind_ok by (by apply read_dims_encoded).
    erewrite bind_ok by (by apply readBinary_u32_encoded).
    erewrite bind_ok by (by apply read_dims_encoded).
    erewrite bind_ok.
    2: { apply with_local_ok. unfold setInputShape, setOutputShape.
         unfold bind, set_self, self. simpl. done. }
    done. }
  unfold loadFromFile, catch_wrap. by rewrite Hbody.
Qed.

(** A load whose layers are read until one fails. *)
Lemma load_fails_at_layer (images : list LayerImage) (bad rest : list byte) (n : N)
    (e : Error) (w : World) :
  Forall (image_ok w) images -> (N.of_nat (length images) < n <= 1000)%N ->
  (forall w1, w_alloc_limit w1 = w_alloc_limit w ->
     exists s2, loadLayer (w1, bad ++ rest) = (s2, Err e)) ->
  e <> UndefinedBehavior ->
  exists w',
    loadFromFile (Some (encode_header n ++ flat_map encode_layer images ++ bad ++ rest)) w
    = (w', Err (LoadFailed e)).
Proof.
  intros Hok Hn Hbad He.
  destruct (load_layers_encoded images 0%N Model_default w (bad ++ rest) Hok)
    as (w1 & layers & Hloop & _ & _ & _ & Hlim1).
  destruct (Hbad w1 Hlim1) as ([w2 rest2] & Hfail).
  set (model1 := {| layers_ := layers_ Model_default ++ layers;
                    input_shape_ := input_shape_ Model_default;
                    output_shape_ := output_shape_ Model_default |}) in *.
  assert (exists s3,
            loadFromFile_body
              (w, encode_header n ++ flat_map encode_layer images ++ bad ++ rest)
            = (s3, Err e)) as ([w3 rest3] & Hbody).
  { unfold loadFromFile_body.
    erewrite bind_ok by (apply readBinary_Header_encoded; lia).
    erewrite bind_ok.
    2: { unfold validateHeader. cbn [magic version_major num_layers].
         rewrite decide_False by (intros ?; done).
         rewrite decide_False by (intros ?; done).
         rewrite decide_False by lia. rewrite decide_False by lia. done. }
    unfold for_range. cbn [num_layers].
    eexists. eapply bind_err.
    eapply (for_loop_throw _ (length images)); [lia | exact Hloop |].
    eapply bind_err. unfold on_throw. rewrite Hfail. done. }
  exists w3. unfold loadFromFile, catch_wrap. rewrite Hbody. by destruct e.
Qed.

(** X20. What makes a load fail inside the layers, wherever the layer
    sits after layers that load: a layer type byte above 3 fails with
    UnknownLayerType; in a linear layer, a tensor of rank 0 or of rank above
    8 fails with InvalidRank, a tensor with a zero dimension fails with
    InvalidShape, and a tensor whose dtype byte is not that of FLOAT32 fails
    with UnsupportedDType once its shape has been accepted, before any of
    its data is read. Each failure is wrapped as a failure of the load. *)
Theorem load_rejects_bad_layer (images : list LayerImage) (rest : list byte) (n : N)
    (w : World) :
  Forall (image_ok w) images -> (N.of_nat (length images) < n <= 1000)%N ->
  (forall code, (4 <= code < 256)%N ->
     exists w',
       loadFromFile
         (Some (encode_header n ++ flat_map encode_layer images ++
                le_encode 1 code ++ rest)) w
       = (w', Err (LoadFailed UnknownLayerType))) /\
  (forall dtype_code r, (dtype_code < 256)%N -> (r = 0 \/ 8 < r < 2 ^ 32)%N ->
     exists w',
       loadFromFile
         (Some (encode_header n ++ flat_map encode_layer images ++
                (le_encode 1 0 ++ le_encode 1 dtype_code ++ le_encode 4 r) ++ rest)) w
       = (w', Err (LoadFailed InvalidRank))) /\
  (forall dtype_code dims, (dtype_code < 256)%N ->
     dims <> [] -> length dims <= 8 -> Forall (fun d => (d < 2 ^ 32)%N) dims -> 0%N ∈ dims ->
     exists w',
       loadFromFile
         (Some (encode_header n ++ flat_map encode_layer images ++
                (le_encode 1 0 ++ le_encode 1 dtype_code ++ encode_dims dims) ++ rest)) w
       = (w', Err (LoadFailed InvalidShape))) /\
  (forall dtype_code dims, (0 < dtype_code < 256)%N ->
     dims <> [] -> length dims <= 8 -> Forall (fun d => (0 < d < 2 ^ 32)%N) dims ->
     (product dims <= max_array_len w)%N ->
     exists w',
       loadFromFile
         (Some (encode_header n ++ flat_map encode_layer images ++
                (le_encode 1 0 ++ le_encode 1 dtype_code ++ encode_dims dims) ++ rest)) w
       = (w', Err (LoadFailed UnsupportedDType))).
Proof.
  intros Hok Hn. split; [|split; [|split]].
  - intros code Hcode. apply load_fails_at_layer; try done.
    intros w1 Hlim1. eexists. unfold loadLayer.
    erewrite bind_ok by (apply readBinary_u8_encoded; lia).
    destruct code as [|p]; [lia|].
    do 2 (destruct p as [p|p|]; try lia; try done).
  - intros dtype_code r Hd Hr. apply load_fails_at_layer; try done.
    intros w1 Hlim1. eexists. unfold loadLayer. rewrite <- !app_assoc.
    erewrite bind_ok by (by apply readBinary_u8_encoded). cbv beta iota.
    eapply bind_err. unfold loadTensor.
    erewrite bind_ok by (by apply readBinary_u8_encoded).
    erewrite bind_ok by (apply readBinary_u32_encoded; lia).
    by rewrite decide_True by lia.
  - intros dtype_code dims Hd Hne Hrank Hdims Hz. apply load_fails_at_layer; try done.
    intros w1 Hlim1. eexists. unfold loadLayer, encode_dims. rewrite <- !app_assoc.
    erewrite bind_ok by (by apply readBinary_u8_encoded). cbv beta iota.
    eapply bind_err. unfold loadTensor.
    erewrite bind_ok by (by apply readBinary_u8_encoded).
    erewrite bind_ok by (apply readBinary_u32_encoded; lia).
    rewrite decide_False.
    2: { destruct dims; [done|]. simpl in *. lia. }
    erewrite bind_ok by (by apply read_dims_encoded).
    eapply bind_err. unfold lift, Tensor_new. simpl.
    erewrite bind_err by (by apply validateShape_zero). done.
  - intros dtype_code dims Hd Hne Hrank Hdims Hmax. apply load_fails_at_layer; try done.
    intros w1 Hlim1. eexists. unfold loadLayer, encode_dims. rewrite <- !app_assoc.
    erewrite bind_ok by (by apply readBinary_u8_encoded). cbv beta iota.
    eapply bind_err. unfold loadTensor.
    erewrite bind_ok by (apply readBinary_u8_encoded; lia).
    erewrite bind_ok by (apply readBinary_u32_encoded; lia).
    rewrite decide_False.
    2: { destruct dims; [done|]. simpl in *. lia. }
    erewrite bind_ok.
    2: { apply read_dims_encoded. eapply Forall_impl; [exact Hdims|]. simpl. intros. lia. }
    erewrite bind_ok.
    2: { apply lift_ok. apply Tensor_new_ok; try done.
         - eapply Forall_impl; [exact Hdims|]. simpl. intros. lia.
         - unfold max_array_len in *. by rewrite Hlim1. }
    eapply bind_err. unfold on_throw.
    rewrite decide_True; [done|].
    destruct dtype_code as [|p]; [lia|]. simpl.
    destruct p as [p|p|]; try done; destruct p; done.
Qed.

(** ** InferenceEngine: validation of the input, batches *)

Lemma zip_differs (xs : list N) : forall ys,
  length xs = length ys ->
  existsb (fun d => negb (fst d =? snd d)%N) (zip xs ys) = false <-> xs = ys.
Proof.
  induction xs as [|x xs IH]; intros [|y ys] Hlen; simpl in *; try done.
  rewrite orb_false_iff, negb_false_iff, N.eqb_eq, IH by lia.
  split; [intros [-> ->]; done | intros [= -> ->]; done].
Qed.

Lemma validateInput_spec {S} (e : InferenceEngine) (input : Tensor) (s : S) :
  validateInput e input s
  = (s, if decide (shape input = getInputShape (model_ e))
        then if decide (dtype input = FLOAT32) then Ok tt else Err UnsupportedDType
        else Err ShapeMismatch).
Proof.
  unfold validateInput, rank, shape.
  destruct (decide (shape_ input = getInputShape (model_ e))) as [Heq|Hne].
  - rewrite decide_False by (rewrite Heq; intros ?; done).
    assert (existsb (fun d => negb (fst d =? snd d)%N)
              (zip (shape_ input) (getInputShape (model_ e))) = false) as ->.
    { apply zip_differs; [by rewrite Heq | done]. }
    destruct (decide (dtype input = FLOAT32)) as [Hd|Hd].
    + by rewrite decide_False by (intros ?; done).
    + by rewrite decide_True.
  - destruct (decide (N.of_nat (length (shape_ input))
                      <> N.of_nat (length (getInputShape (model_ e))))) as [?|Hlen]; [done|].
    destruct (existsb _ _) eqn:Hex; [done|].
    apply zip_differs in Hex; [done | lia].
Qed.

Section Engine.
Context `{Platform}.

(** X21. [predict] validates its input before anything else but the
    reading of the clock and, when profiling is enabled, the reset of the
    statistics: an input whose shape is not the input shape of the model is
    refused with ShapeMismatch, and one of that shape whose dtype is not
    FLOAT32 with UnsupportedDType. The heap is then untouched and the clock
    has been read once; with profiling disabled the engine is as it was,
    with profiling enabled its statistics are zero, with one zero per layer
    in the layer times. *)
Theorem predict_validates_input (input : Tensor) (w : World) (e : InferenceEngine) :
  let w1 := {| w_heap := w_heap w; w_ticks := S (w_ticks w);
                 w_alloc_limit := w_alloc_limit w |} in
  let e1 :=
    if profiling_enabled_ e
    then set_last_stats
           {| total_time := 0;
              layer_times := replicate (length (getLayers (model_ e))) 0%Z;
              memory_usage_bytes := 0 |} e
    else e in
  (shape input <> getInputShape (model_ e) ->
     predict input (w, e) = ((w1, e1), Err ShapeMismatch)) /\
  (shape input = getInputShape (model_ e) -> dtype input <> FLOAT32 ->
     predict input (w, e) = ((w1, e1), Err UnsupportedDType)).
Proof.
  intros w1 e1.
  assert (forall err,
            validateInput e1 input (w1, e1) = ((w1, e1), Err err) ->
            predict input (w, e) = ((w1, e1), Err err)) as Hrun.
  { intros err Hv. unfold predict.
    unfold bind at 1, now at 1. cbn [fst snd]. fold w1.
    rewrite bind_self.
    assert ((if profiling_enabled_ e
             then set_self
                    (set_last_stats
                       {| total_time := 0;
                          layer_times := replicate (length (getLayers (model_ e))) 0%Z;
                          memory_usage_bytes := 0 |} e)
             else ret tt) (w1, e) = ((w1, e1), Ok tt)) as Hreset.
    { unfold e1. by destruct (profiling_enabled_ e). }
    erewrite bind_ok by exact Hreset.
    rewrite bind_self. erewrite bind_err by exact Hv. done. }
  assert (getInputShape (model_ e1) = getInputShape (model_ e)) as Hshape.
  { unfold e1. by destruct (profiling_enabled_ e). }
  split.
  - intros Hne. apply Hrun. rewrite validateInput_spec, Hshape.
    by rewrite decide_False.
  - intros Heq Hd. apply Hrun. rewrite validateInput_spec, Hshape.
    rewrite decide_True by done. by rewrite decide_False.
Qed.

(** The loop of [predictBatch] from the outputs gathered so far. *)
Lemma batch_fold_err (inputs : list Tensor) :
  forall (acc : St (World * InferenceEngine) (list Tensor)) s s' err,
    acc s = (s', Err err) ->
    fold_left
      (fun acc input =>
         let* outputs := acc in
         let* output := on_throw (predict input) (lift (destroy_tensors outputs)) in
         ret (outputs ++ [output]))
      inputs acc s = (s', Err err).
Proof.
  induction inputs as [|input inputs IH]; intros acc s s' err Hacc; [done|].
  simpl. apply IH. by erewrite bind_err.
Qed.

Lemma batch_fold_length (inputs : list Tensor) :
  forall (acc : St (World * InferenceEngine) (list Tensor)) (k : nat) s s' outputs,
    (forall s1 outs, acc s = (s1, Ok outs) -> length outs = k) ->
    fold_left
      (fun acc input =>
         let* outputs := acc in
         let* output := on_throw (predict input) (lift (destroy_tensors outputs)) in
         ret (outputs ++ [output]))
      inputs acc s = (s', Ok outputs) ->
    length outputs = k + length inputs.
Proof.
  induction inputs as [|input inputs IH]; intros acc k s s' outputs Hacc Hrun.
  - simpl in *. rewrite (Hacc _ _ Hrun). lia.
  - simpl in Hrun. apply (IH _ (S k)) in Hrun; [simpl; lia|].
    intros s1 outs Hstep.
    apply bind_inv_ok in Hstep as (s2 & outs0 & Hacc0 & Hstep).
    apply bind_inv_ok in Hstep as (s3 & output & _ & Hret).
    unfold ret in Hret. injection Hret as _ <-.
    rewrite length_app, (Hacc _ _ Hacc0). simpl. lia.
Qed.

(** X22. [predictBatch] fails with EmptyBatch on an empty sequence and
    touches nothing; a batch of one input gives what [predict] gives on it;
    a failure of [predict] on the first input is the failure of the whole
    batch; and a batch that succeeds returns one output per input. *)
Theorem predictBatch_spec (inputs : list Tensor) (s : World * InferenceEngine) :
  predictBatch [] s = (s, Err EmptyBatch) /\
  (forall input,
     predictBatch [input] s
     = match predict input s with
       | (s', Ok output) => (s', Ok [output])
       | (s', Err err) => (s', Err err)
       end) /\
  (forall input s' err,
     predict input s = (s', Err err) -> predictBatch (input :: inputs) s = (s', Err err)) /\
  (forall s' outputs,
     predictBatch inputs s = (s', Ok outputs) -> length outputs = length inputs).
Proof.
  split; [done|]. split; [|split].
  - intros input. unfold predictBatch. simpl. rewrite bind_ret_l.
    unfold bind, on_throw. destruct (predict input s) as [s' [output|err]]; [done|].
    by destruct s'.
  - intros input s' err Hfail. unfold predictBatch.
    simpl. apply batch_fold_err. rewrite bind_ret_l.
    erewrite bind_err; [done|]. unfold on_throw. rewrite Hfail. by destruct s'.
  - intros s' outputs Hrun. destruct inputs as [|input inputs]; [done|].
    unfold predictBatch in Hrun.
    apply (batch_fold_length _ _ 0) in Hrun; [done|].
    intros s1 outs [= _ <-]. done.
Qed.
End Engine.

(** ** Computations that do not read the clock *)

Section Ticks.
Context {S : Type} (world : S -> World).

Lemma keeps_ticks_ret {A} (a : A) : keeps_ticks world (ret a).
Proof. intros s s' r [= <- _]. done. Qed.

Lemma keeps_ticks_throw {A} (e : Error) : keeps_ticks world (@throw S A e).
Proof. intros s s' r [= <- _]. done. Qed.

Lemma keeps_ticks_bind {A B} (m : St S A) (k : A -> St S B) :
  keeps_ticks world m -> (forall a, keeps_ticks world (k a)) -> keeps_ticks world (bind m k).
Proof.
  intros Hm Hk s s' r. unfold bind. destruct (m s) as [s1 [a|e]] eqn:E.
  - intros Hr. rewrite (Hk a _ _ _ Hr). by apply (Hm _ _ _ E).
  - intros [= <- _]. by apply (Hm _ _ _ E).
Qed.

Lemma keeps_ticks_on_throw {A} (m : St S A) (h : St S unit) :
  keeps_ticks world m -> keeps_ticks world h -> keeps_ticks world (on_throw m h).
Proof.
  intros Hm Hh s s' r. unfold on_throw. destruct (m s) as [s1 [a|e]] eqn:E.
  - intros [= <- _]. by apply (Hm _ _ _ E).
  - destruct (h s1) as [s2 r2] eqn:E2. simpl. intros [= <- _].
    rewrite (Hh _ _ _ E2). by apply (Hm _ _ _ E).
Qed.

Lemma keeps_ticks_for_loop {A} (body : N -> A -> St S A) :
  (forall i acc, keeps_ticks world (body i acc)) ->
  forall count i acc, keeps_ticks world (for_loop count i body acc).
Proof.
  intros Hbody count. induction count as [|count IH]; intros i acc.
  - apply keeps_ticks_ret.
  - simpl. apply keeps_ticks_bind; [apply Hbody | intros; apply IH].
Qed.

Lemma keeps_ticks_for_each (n : N) (body : N -> St S unit) :
  (forall i, keeps_ticks world (body i)) -> keeps_ticks world (for_each n body).
Proof. intros Hbody. apply keeps_ticks_for_loop. intros. apply Hbody. Qed.

Lemma keeps_ticks_vector_at (v : list N) (i : nat) : keeps_ticks world (vector_at v i).
Proof.
  unfold vector_at. destruct (v !! i); [apply keeps_ticks_ret | apply keeps_ticks_throw].
Qed.

Lemma keeps_ticks_if {A} (b : bool) (m1 m2 : St S A) :
  keeps_ticks world m1 -> keeps_ticks world m2 -> keeps_ticks world (if b then m1 else m2).
Proof. by destruct b. Qed.
End Ticks.

Lemma keeps_ticks_lift {T A} (m : M A) :
  keeps_ticks id m -> keeps_ticks (@fst World T) (lift m).
Proof.
  intros Hm [w t] s' r. unfold lift. simpl. destruct (m w) as [w' r'] eqn:E.
  intros [= <- _]. simpl. by apply (Hm _ _ _ E).
Qed.

Lemma keeps_ticks_self {T} : keeps_ticks (@fst World T) self.
Proof. intros s s' r [= <- _]. done. Qed.

Lemma keeps_ticks_set_self {T} (t : T) : keeps_ticks (@fst World T) (set_self t).
Proof. intros s s' r [= <- _]. done. Qed.

Lemma keeps_ticks_with_local {T T' A} (obj : T') (m : St (World * T') A)
    (dtor : T' -> M unit) :
  keeps_ticks fst m -> (forall o, keeps_ticks id (dtor o)) ->
  keeps_ticks (@fst World T) (with_local obj m dtor).
Proof.
  intros Hm Hd [w t] s' r. unfold with_local. simpl.
  destruct (m (w, obj)) as [[w1 obj1] [a|e]] eqn:E.
  - intros [= <- _]. simpl. by apply (Hm _ _ _ E).
  - destruct (dtor obj1 w1) as [w2 r2] eqn:E2. simpl. intros [= <- _]. simpl.
    transitivity (w_ticks w1); [exact (Hd _ _ _ _ E2) | exact (Hm _ _ _ E)].
Qed.

(** The heap primitives. *)
Lemma keeps_ticks_make_unique (n : N) : keeps_ticks id (make_unique n).
Proof.
  intros w w' r. unfold make_unique. destruct (_ <? _)%N; by intros [= <- _].
Qed.

Lemma keeps_ticks_release (p : option nat) : keeps_ticks id (release p).
Proof.
  intros w w' r. unfold release. destruct p as [a|]; [|by intros [= <- _]].
  destruct (w_heap w !! a); by intros [= <- _].
Qed.

Lemma keeps_ticks_load (p : option nat) (i : N) : keeps_ticks id (load p i).
Proof.
  intros w w' r. unfold load. destruct p as [a|]; [|by intros [= <- _]].
  destruct (w_heap w !! a) as [buf|]; [|by intros [= <- _]].
  destruct (buf !! N.to_nat i); by intros [= <- _].
Qed.

Lemma keeps_ticks_store (p : option nat) (i : N) (v : float32) : keeps_ticks id (store p i v).
Proof.
  intros w w' r. unfold store. destruct p as [a|]; [|by intros [= <- _]].
  destruct (w_heap w !! a) as [buf|]; [|by intros [= <- _]].
  destruct (decide _); by intros [= <- _].
Qed.

Lemma keeps_ticks_load_range (p : option nat) (n : N) : keeps_ticks id (load_range p n).
Proof.
  intros w w' r. unfold load_range. destruct (n =? 0)%N; [by intros [= <- _]|].
  destruct p as [a|]; [|by intros [= <- _]].
  destruct (w_heap w !! a) as [buf|]; [|by intros [= <- _]].
  destruct (decide _); by intros [= <- _].
Qed.

Lemma keeps_ticks_store_range (p : option nat) (vals : list float32) :
  keeps_ticks id (store_range p vals).
Proof.
  intros w w' r. unfold store_range. destruct vals as [|v vals]; [by intros [= <- _]|].
  destruct p as [a|]; [|by intros [= <- _]].
  destruct (w_heap w !! a) as [buf|]; [|by intros [= <- _]].
  destruct (decide _); by intros [= <- _].
Qed.

Lemma keeps_ticks_validateShape {S} (world : S -> World) (shape : list N) :
  keeps_ticks world (validateShape shape).
Proof.
  unfold validateShape. destruct shape; [apply keeps_ticks_throw|].
  apply keeps_ticks_if; [apply keeps_ticks_throw | apply keeps_ticks_ret].
Qed.

Lemma keeps_ticks_calculateIndex {S} (world : S -> World) (t : Tensor) (indices : list N) :
  keeps_ticks world (calculateIndex t indices).
Proof.
  intros s s' r Hc. by rewrite (calculateIndex_state _ _ _ _ _ Hc).
Qed.

Create HintDb ticks.
#[local] Hint Resolve keeps_ticks_ret keeps_ticks_throw keeps_ticks_on_throw
  keeps_ticks_vector_at keeps_ticks_lift keeps_ticks_self keeps_ticks_set_self
  keeps_ticks_make_unique keeps_ticks_release keeps_ticks_load keeps_ticks_store
  keeps_ticks_load_range keeps_ticks_store_range keeps_ticks_validateShape
  keeps_ticks_calculateIndex keeps_ticks_if : ticks.

Ltac ticks :=
  repeat first
    [ apply keeps_ticks_bind; [|intros ?]
    | apply keeps_ticks_for_each; intros ?
    | apply keeps_ticks_for_loop; intros ? ?
    | apply keeps_ticks_with_local; [|intros ?]
    | apply keeps_ticks_on_throw
    | apply keeps_ticks_if
    | apply keeps_ticks_lift
    | solve [eauto with ticks]
    | match goal with |- keeps_ticks _ (if decide _ then _ else _) => case_decide end
    | match goal with |- keeps_ticks _ (match ?x with _ => _ end) => destruct x end ].

Lemma keeps_ticks_Tensor_new (shape : list N) (dt : DataType) :
  keeps_ticks id (Tensor_new shape dt).
Proof. unfold Tensor_new. ticks. Qed.

Lemma keeps_ticks_Tensor_destroy (t : Tensor) : keeps_ticks id (Tensor_destroy t).
Proof. unfold Tensor_destroy. ticks. Qed.

Lemma keeps_ticks_Tensor_copy (t : Tensor) : keeps_ticks id (Tensor_copy t).
Proof. unfold Tensor_copy. ticks. Qed.

Lemma keeps_ticks_Tensor_copy_assign (self other : Tensor) :
  keeps_ticks id (Tensor_copy_assign self other).
Proof. unfold Tensor_copy_assign. ticks. Qed.

Lemma keeps_ticks_Tensor_move_assign (self other : Tensor) :
  keeps_ticks id (Tensor_move_assign self other).
Proof. unfold Tensor_move_assign. ticks. Qed.

Lemma keeps_ticks_Tensor_at (t : Tensor) (indices : list N) :
  keeps_ticks id (Tensor_at t indices).
Proof. unfold Tensor_at. ticks. Qed.

Lemma keeps_ticks_Tensor_at_put (t : Tensor) (indices : list N) (v : float32) :
  keeps_ticks id (Tensor_at_put t indices v).
Proof. unfold Tensor_at_put. ticks. Qed.

#[local] Hint Resolve keeps_ticks_Tensor_new keeps_ticks_Tensor_destroy
  keeps_ticks_Tensor_copy keeps_ticks_Tensor_copy_assign keeps_ticks_Tensor_move_assign
  keeps_ticks_Tensor_at keeps_ticks_Tensor_at_put : ticks.

Lemma keeps_ticks_matmul (tensor1 tensor2 : Tensor) :
  keeps_ticks fst (matmul tensor1 tensor2).
Proof. unfold matmul, matmul_cell, for_range. ticks. Qed.

Lemma keeps_ticks_relu (t : Tensor) : keeps_ticks id (relu t).
Proof. unfold relu, relu_body. ticks. Qed.

Lemma keeps_ticks_LinearLayer_forward (weights_ bias_ input : Tensor) :
  keeps_ticks fst (LinearLayer_forward weights_ bias_ input).
Proof.
  pose proof keeps_ticks_matmul.
  unfold LinearLayer_forward. ticks.
Qed.

Lemma keeps_ticks_assign_output (input : Tensor) : keeps_ticks fst (assign_output input).
Proof. unfold assign_output. ticks. Qed.

Section TicksPlatform.
Context `{Platform}.

Lemma keeps_ticks_sigmoid (t : Tensor) : keeps_ticks id (sigmoid t).
Proof. unfold sigmoid. ticks. Qed.

Lemma keeps_ticks_softmax (t : Tensor) : keeps_ticks id (softmax t).
Proof. unfold softmax, for_range. ticks. Qed.

Lemma keeps_ticks_forward (layer : Layer) (input : Tensor) :
  keeps_ticks fst (forward layer input).
Proof.
  pose proof keeps_ticks_LinearLayer_forward. pose proof keeps_ticks_assign_output.
  pose proof keeps_ticks_relu. pose proof keeps_ticks_sigmoid.
  pose proof keeps_ticks_softmax.
  destruct layer; simpl;
    unfold ReLULayer_forward, SigmoidLayer_forward, SoftmaxLayer_forward; ticks.
Qed.
End TicksPlatform.

(** ** InferenceEngine: the statistics of a profiled call *)

(** A loop that returns has kept an invariant that every turn that returns
    keeps. *)
Lemma for_loop_inv_ok {St_ A} (body : N -> A -> St St_ A) (count : nat) :
  forall (I : nat -> St_ -> A -> Prop) (i : N) (acc : A) (s s' : St_) (acc' : A),
    I 0 s acc ->
    (forall k s1 acc1 s2 acc2,
       k < count -> I k s1 acc1 ->
       body (i + N.of_nat k)%N acc1 s1 = (s2, Ok acc2) -> I (S k) s2 acc2) ->
    for_loop count i body acc s = (s', Ok acc') -> I count s' acc'.
Proof.
  induction count as [|count IH]; intros I i acc s s' acc' H0 Hstep Hrun.
  - simpl in Hrun. unfold ret in Hrun. by simplify_eq.
  - rewrite for_loop_S in Hrun.
    apply bind_inv_ok in Hrun as (s1 & acc1 & Hbody & Hrun).
    apply (IH (fun k => I (S k)) (N.succ i) acc1 s1); [| |done].
    + apply (Hstep 0 s acc); [lia | done |]. by rewrite N.add_0_r.
    + intros k s2 acc2 s3 acc3 Hk HI Hb. apply (Hstep (S k) s2 acc2); [lia | done |].
      rewrite <- Hb. f_equal. lia.
Qed.

Lemma catch_wrap_inv_ok {S A} (m : St S A) (wrap : Error -> Error) (s s' : S) (a : A) :
  catch_wrap m wrap s = (s', Ok a) -> m s = (s', Ok a).
Proof.
  unfold catch_wrap. destruct (m s) as [s1 [a1|e]]; [done|]. by destruct e.
Qed.

Lemma with_local_inv_ok {T T' A} (obj : T') (m : St (World * T') A) (dtor : T' -> M unit)
    (w : World) (t : T) (s' : World * T) (r : T' * A) :
  with_local obj m dtor (w, t) = (s', Ok r) ->
  exists w', m (w, obj) = ((w', fst r), Ok (snd r)) /\ s' = (w', t).
Proof.
  unfold with_local. simpl. destruct (m (w, obj)) as [[w1 obj1] [a|e]]; [|done].
  intros [= <- <-]. by exists w1.
Qed.

Lemma with_out_inv_ok {T T' A} (obj : T') (m : St (World * (T * T')) A)
    (dtor : T' -> M unit) (w : World) (t : T) (s' : World * T) (r : T' * A) :
  with_out obj m dtor (w, t) = (s', Ok r) ->
  m (w, (t, obj)) = ((fst s', (snd s', fst r)), Ok (snd r)).
Proof.
  unfold with_out. simpl. destruct (m (w, (t, obj))) as [[w1 [t1 obj1]] [a|e]]; [|done].
  by intros [= <- <-].
Qed.

(** A computation over the world and an object that leaves the object
    alone. *)
Lemma lift_object {T A} (m : M A) (w : World) (t : T) (s' : World * T) (r : Result A) :
  lift m (w, t) = (s', r) -> snd s' = t.
Proof. unfold lift. simpl. destruct (m w). by intros [= <- _]. Qed.

Lemma updateMemoryUsage_stats (e : InferenceEngine) :
  updateMemoryUsage e
  = set_last_stats
      {| total_time := total_time (last_stats_ e);
         layer_times := layer_times (last_stats_ e);
         memory_usage_bytes := memory_estimate e |} e.
Proof.
  unfold updateMemoryUsage, memory_estimate. do 2 f_equal.
  assert (forall layers acc,
            (acc < 2 ^ 64)%N ->
            fold_left
              (fun total_bytes layer =>
                 match getType layer with
                 | LINEAR => wrap64 (total_bytes + 1000000)
                 | _ => total_bytes
                 end) layers acc
            = ((acc + 1000000 * N.of_nat (length (List.filter is_linear layers)))
               mod 2 ^ 64)%N) as Hlayers.
  { induction layers as [|l layers IH]; intros acc Hacc.
    - simpl. rewrite N.mul_0_r, N.add_0_r. by rewrite N.mod_small.
    - simpl. unfold is_linear at 1.
      destruct (getType l); simpl; try (by apply IH).
      rewrite IH by (apply N.mod_lt; done). unfold wrap64.
      rewrite N.Div0.add_mod_idemp_l. f_equal. lia. }
  assert (forall ts acc,
            fold_left
              (fun total_bytes tensor => wrap64 (total_bytes + wrap64 (size tensor * 4)))
              ts (acc mod 2 ^ 64)%N
            = ((acc + 4 * fold_right N.add 0 (map size ts)) mod 2 ^ 64)%N) as Hts.
  { induction ts as [|t ts IH]; intros acc.
    - simpl. by rewrite N.mul_0_r, N.add_0_r.
    - cbn [fold_left map fold_right].
      replace (wrap64 (acc mod 2 ^ 64 + wrap64 (size t * 4)))
        with ((acc + size t * 4) mod 2 ^ 64)%N
        by (unfold wrap64; by rewrite <- N.Div0.add_mod).
      rewrite IH. f_equal. lia. }
  rewrite Hlayers by done. rewrite N.add_0_l. apply Hts.
Qed.

Section Stats.
Context `{Platform}.

Lemma layer_durations_length (t n : nat) : length (layer_durations t n) = n.
Proof. unfold layer_durations. by rewrite length_map, length_seq. Qed.

Lemma layer_durations_lookup (t n k : nat) :
  k < n ->
  layer_durations t n !! k
  = Some (clock_now (t + 2 * k + 1) - clock_now (t + 2 * k))%Z.
Proof.
  intros Hk. unfold layer_durations. rewrite list_lookup_fmap, lookup_seq_lt by done.
  done.
Qed.

(** One turn of the loop of [executeForwardPass] with profiling enabled,
    when it returns: the clock was read twice, and the difference of the
    readings is the time of the layer. *)
Lemma run_layer_profiled (i : N) (locals locals' : Tensor * Tensor) (w w' : World)
    (e e' : InferenceEngine) (o o' : Tensor) :
  profiling_enabled_ e = true ->
  run_layer i locals (w, (e, o)) = ((w', (e', o')), Ok locals') ->
  o' = o /\ w_ticks w' = 2 + w_ticks w /\
  N.to_nat i < length (layer_times (last_stats_ e)) /\
  e' = set_last_stats
         {| total_time := total_time (last_stats_ e);
            layer_times :=
              <[N.to_nat i := (clock_now (S (w_ticks w)) - clock_now (w_ticks w))%Z]>
                (layer_times (last_stats_ e));
            memory_usage_bytes := memory_usage_bytes (last_stats_ e) |} e.
Proof.
  intros He Hrun. unfold run_layer in Hrun. rewrite bind_self in Hrun. cbn [fst] in Hrun.
  destruct (getLayers (model_ e) !! N.to_nat i) as [layer|]; [|done].
  unfold bind at 1, now at 1 in Hrun. cbn [fst snd] in Hrun.
  apply on_throw_inv_ok, catch_wrap_inv_ok in Hrun.
  apply bind_inv_ok in Hrun as (s1 & ran & Hfwd & Hrun).
  apply with_local_inv_ok in Hfwd as (w1 & Hfwd & ->).
  apply keeps_ticks_forward in Hfwd. simpl in Hfwd.
  rewrite He in Hrun.
  apply bind_inv_ok in Hrun as (s2 & [] & Hprof & Hrun).
  unfold bind at 1, now at 1 in Hprof. cbn [fst snd] in Hprof.
  destruct (decide (N.to_nat i < length (layer_times (last_stats_ e)))) as [Hi|]; [|done].
  rewrite bind_self in Hprof. unfold set_self in Hprof. cbn [fst snd] in Hprof.
  injection Hprof as Hs2. subst s2.
  apply bind_inv_ok in Hrun as (s3 & moved & Hmove1 & Hrun).
  apply bind_inv_ok in Hrun as (s4 & cleared & Hmove2 & Hrun).
  unfold ret in Hrun. injection Hrun as -> _.
  pose proof (lift_object _ _ _ _ _ Hmove1) as Ho1.
  pose proof (keeps_ticks_lift _ (keeps_ticks_Tensor_move_assign _ _) _ _ _ Hmove1) as Ht1.
  destruct s3 as [w3 t3]. simpl in Ho1, Ht1. subst t3.
  pose proof (lift_object _ _ _ _ _ Hmove2) as Ho2.
  pose proof (keeps_ticks_lift _ (keeps_ticks_Tensor_move_assign _ _) _ _ _ Hmove2) as Ht2.
  simpl in Ho2, Ht2. injection Ho2 as -> ->.
  split; [done|]. split; [lia|]. split; [done|].
  by rewrite Hfwd.
Qed.

Lemma executeForwardPass_profiled (input : Tensor) (w w' : World)
    (e e' : InferenceEngine) (o o' : Tensor) :
  profiling_enabled_ e = true ->
  length (layer_times (last_stats_ e)) = length (getLayers (model_ e)) ->
  executeForwardPass input (w, (e, o)) = ((w', (e', o')), Ok tt) ->
  w_ticks w' = 2 * length (getLayers (model_ e)) + w_ticks w /\
  e' = set_last_stats
         {| total_time := total_time (last_stats_ e);
            layer_times := layer_durations (w_ticks w) (length (getLayers (model_ e)));
            memory_usage_bytes := memory_usage_bytes (last_stats_ e) |} e.
Proof.
  intros He Hlen Hrun. set (n := length (getLayers (model_ e))) in *.
  set (t := w_ticks w). set (D := layer_durations t n).
  set (times := layer_times (last_stats_ e)) in *.
  set (engine_after := fun k : nat =>
         set_last_stats
           {| total_time := total_time (last_stats_ e);
              layer_times := take k D ++ drop k times;
              memory_usage_bytes := memory_usage_bytes (last_stats_ e) |} e).
  unfold executeForwardPass in Hrun. rewrite bind_self in Hrun. cbn [fst] in Hrun.
  apply bind_inv_ok in Hrun as ([w1 t1] & current_input & Hcopy & Hrun).
  pose proof (lift_object _ _ _ _ _ Hcopy) as Ho1.
  pose proof (keeps_ticks_lift _ (keeps_ticks_Tensor_copy _) _ _ _ Hcopy) as Ht1.
  simpl in Ho1, Ht1. subst t1.
  apply bind_inv_ok in Hrun as ([w2 [e2 o2]] & locals & Hloop & Hrun).
  unfold for_range in Hloop. rewrite Nat2N.id in Hloop. fold n in Hloop.
  apply (for_loop_inv_ok run_layer n
           (fun k s _ => snd s = (engine_after k, o) /\ w_ticks (fst s) = 2 * k + t))
    in Hloop.
  - simpl in Hloop. destruct Hloop as [[= -> ->] Ht2].
    rewrite bind_self in Hrun. cbn [fst snd] in Hrun.
    apply bind_inv_ok in Hrun as ([w3 t3] & moved & Hmove & Hrun).
    pose proof (lift_object _ _ _ _ _ Hmove) as Ho3.
    pose proof (keeps_ticks_lift _ (keeps_ticks_Tensor_move_assign _ _) _ _ _ Hmove) as Ht3.
    simpl in Ho3, Ht3. subst t3.
    rewrite bind_set_self in Hrun.
    destruct (decide _) in Hrun; [done|]. unfold ret in Hrun.
    injection Hrun as <- <- _. split; [lia|].
    unfold engine_after. do 2 f_equal.
    rewrite firstn_all2 by (unfold D; rewrite layer_durations_length; lia).
    rewrite drop_ge by lia. apply app_nil_r.
  - simpl. split; [|lia]. f_equal. unfold engine_after. simpl. rewrite drop_0.
    unfold times. by destruct e as [? ? [] ? ?].
  - intros k [wk [ek ok]] locals1 [wk' [ek' ok']] locals2 Hk [[= -> ->] Htk] Hstep.
    simpl in Htk. rewrite N.add_0_l in Hstep.
    apply run_layer_profiled in Hstep as (-> & Htk' & Hi & ->); [|done].
    simpl. split; [|lia]. f_equal. unfold engine_after, set_last_stats. simpl.
    do 2 f_equal. rewrite Nat2N.id.
    apply take_drop_step; [|lia].
    unfold D. rewrite layer_durations_lookup by done.
    do 3 f_equal; lia.
Qed.

(** X23. The statistics after a call of [predict] that returns with
    profiling enabled: the clock has been read twice per layer and twice
    around the whole pass; the layer times hold one duration per layer, the
    difference of the two readings around that layer; the total time is the
    difference of the last and the first reading; the memory usage is the
    estimate of a million bytes per linear layer plus four bytes per
    element of the intermediate tensors; the rest of the engine is as it
    was. *)
Theorem profiled_predict_stats (input output : Tensor) (w w' : World)
    (e e' : InferenceEngine) :
  profiling_enabled_ e = true ->
  predict input (w, e) = ((w', e'), Ok output) ->
  w_ticks w' = 2 * length (getLayers (model_ e)) + 2 + w_ticks w /\
  e' = set_last_stats
         {| total_time :=
              clock_now (2 * length (getLayers (model_ e)) + 1 + w_ticks w)
              - clock_now (w_ticks w);
            layer_times :=
              layer_durations (S (w_ticks w)) (length (getLayers (model_ e)));
            memory_usage_bytes := memory_estimate e |} e.
Proof.
  intros He Hrun. unfold predict in Hrun.
  unfold bind at 1, now at 1 in Hrun. cbn [fst snd] in Hrun.
  rewrite bind_self, He in Hrun. rewrite bind_set_self, bind_self in Hrun.
  apply bind_inv_ok in Hrun as (s1 & [] & Hvalid & Hrun).
  rewrite validateInput_spec in Hvalid. injection Hvalid as <- _.
  apply bind_inv_ok in Hrun as ([w2 e2] & ran & Hpass & Hrun).
  apply with_out_inv_ok in Hpass. cbn [fst snd] in Hpass.
  destruct ran as [out []]. cbn [fst snd] in *.
  apply executeForwardPass_profiled in Hpass as [Ht2 ->]; [|done|].
  2: { simpl. by rewrite length_replicate. }
  simpl in Ht2. rewrite bind_self in Hrun. simpl profiling_enabled_ in Hrun.
  rewrite He in Hrun.
  unfold bind at 1 2, now at 1 in Hrun. cbn [fst snd] in Hrun.
  unfold set_self, ret in Hrun. cbn [fst snd] in Hrun.
  injection Hrun as <- <- _. simpl. split; [lia|].
  rewrite updateMemoryUsage_stats. unfold set_last_stats. simpl.
  rewrite Ht2. do 4 f_equal. lia.
Qed.
End Stats.

(** ** softmax *)




Section Softmax.
Context `{Platform}.





End Softmax.

(** ** The theorems on concrete tensors *)

(** A tensor whose fields and array are given is checked by computation. *)
Lemma tensor_ok_concrete (w : World) (t : Tensor) (a : nat) (buf : list float32) :
  data_ t = Some a -> w_heap w !! a = Some buf ->
  shape_ t <> [] -> forallb (fun d => negb (d =? 0)%N) (shape_ t) = true ->
  total_size_ t = product (shape_ t) ->
  N.of_nat (length buf) = total_size_ t ->
  (total_size_ t <= max_array_len w)%N -> (rank t < 2 ^ 31)%N ->
  tensor_ok w t.
Proof.
  intros Hd Ha Hne Hnz Hts Hlen Hmax Hrank. split; [split|..]; try done.
  - apply Forall_forall. intros d Hin.
    rewrite forallb_forall in Hnz. specialize (Hnz d).
    rewrite <- list_elem_of_In in Hnz. specialize (Hnz Hin).
    destruct (N.eqb_spec d 0); [done | done].
  - by exists a, buf.
Qed.

Ltac concrete_tensor a buf :=
  apply (tensor_ok_concrete _ _ a buf); by vm_compute.

(** C7 on the [2 x 3] tensor holding 1, ..., 6: the element [(1, 2)] is at
    position 5 and is 6. *)
Lemma at_row_major_witness :
  tensor_backed example_world example_tensor /\
  Forall2 (fun i d => (i < d)%N) [1; 2]%N (shape example_tensor) /\
  row_major [1; 2]%N (shape example_tensor) = 5%N /\
  Tensor_at example_tensor [1; 2]%N example_world = (example_world, Ok (f32_of_Z 6)).
Proof.
  assert (tensor_backed example_world example_tensor) as Hok.
  { split; [|by vm_compute..]. exists (map f32_of_Z [1; 2; 3; 4; 5; 6]%Z). by vm_compute. }
  assert (Forall2 (fun i d => (i < d)%N) [1; 2]%N (shape example_tensor)) as Hin.
  { repeat constructor. }
  split; [done|]. split; [done|]. split; [done|].
  destruct (at_row_major example_tensor [1; 2]%N example_world) as (_ & _ & H & _).
  destruct (H Hok Hin) as (buf & v & Hb & Hv & Hat).
  vm_compute in Hb. injection Hb as <-. vm_compute in Hv. injection Hv as <-.
  exact Hat.
Defined.

(** C10 on [2,2,3,4] divided by [2,0,3,4]: the first element is divided,
    the others are as they were, and [operator/] leaves the world alone. *)
Lemma div_assign_stops_at_first_zero_witness :
  Tensor_div_assign dividend divisor division_world
  = (set_heap (<[0 := map f32_of_Z [1; 2; 3; 4]%Z]> (w_heap division_world)) division_world,
     Err DivisionByZero) /\
  Tensor_div dividend divisor division_world = (division_world, Err DivisionByZero).
Proof.
  destruct (div_assign_stops_at_first_zero dividend divisor division_world
              (map f32_of_Z [2; 2; 3; 4]%Z) (map f32_of_Z [2; 0; 3; 4]%Z) 1 f32_zero)
    as ((a & Ha & Hassign) & _ & _ & Hdiv).
  - concrete_tensor 0 (map f32_of_Z [2; 2; 3; 4]%Z).
  - concrete_tensor 1 (map f32_of_Z [2; 0; 3; 4]%Z).
  - reflexivity.
  - by vm_compute.
  - by vm_compute.
  - reflexivity.
  - reflexivity.
  - intros [|j] z Hj; [|lia]. intros [= <-]. reflexivity.
  - injection Ha as <-. split; [exact Hassign | exact Hdiv].
Defined.

(** C9 on the tensor [-1, 0, 2]. *)
Lemma relu_idempotent_witness :
  relu relu_input relu_world
  = (set_heap (<[0 := map f32_of_Z [0; 0; 2]%Z]> (w_heap relu_world)) relu_world, Ok tt) /\
  (relu relu_input >> relu relu_input) relu_world = relu relu_input relu_world.
Proof.
  destruct (relu_idempotent relu_input relu_world) as (Htwice & Honce & _).
  split; [|exact Htwice].
  destruct (Honce (map f32_of_Z [-1; 0; 2]%Z)) as (a & Ha & Hrun).
  - concrete_tensor 0 (map f32_of_Z [-1; 0; 2]%Z).
  - by vm_compute.
  - injection Ha as <-. exact Hrun.
Defined.


(** C2 on the layer and the input of the example. *)
Lemma affine_forward_witness :
  exists w' y,
    LinearLayer_forward affine_weights affine_bias affine_input (affine_world, Tensor_default)
    = ((w', y), Ok tt) /\
    shape y = [3%N] /\
    Tensor_at y [0%N] w' = (w', Ok (f32_lit 91 10)).
Proof.
  destruct (affine_forward affine_weights affine_bias affine_input Tensor_default
              affine_world 2 3) as (H & _).
  destruct (H (map f32_of_Z [1; 2]%Z) (map f32_of_Z [1; 2; 3; 4; 5; 6]%Z)
              [f32_lit 1 10; f32_lit 2 10; f32_lit 3 10])
    as (w' & y & Hrun & Hshape & _ & Hat); try done.
  - split; [done | done | |].
    + concrete_tensor 0 (map f32_of_Z [1; 2; 3; 4; 5; 6]%Z).
    + concrete_tensor 1 [f32_lit 1 10; f32_lit 2 10; f32_lit 3 10].
  - concrete_tensor 2 (map f32_of_Z [1; 2]%Z).
  - exists w', y. split; [exact Hrun|]. split; [exact Hshape|].
    rewrite Hat by lia. reflexivity.
Defined.

(** C4 on sixteen bytes with a wrong magic, on a file with one ReLU
    layer, and on a file with a linear layer whose bias has rank 2: whole,
    that file is refused for the rank of its bias; cut after two bytes of
    the payload of the bias, for being truncated. *)
Lemma loadFromFile_strict_witness :
  loadFromFile (Some bad_magic_file) empty_world
  = (empty_world, Err (LoadFailed FormatError)) /\
  (exists model used rest,
     loadFromFile (Some relu_model_file) empty_world = (empty_world, Ok model) /\
     length (layers_ model) = 1 /\
     relu_model_file = used ++ rest /\
     loadFromFile (Some used) empty_world = (empty_world, Ok model)) /\
  snd (loadFromFile (Some rank2_bias_file) empty_world) = Err (LoadFailed InvalidRank) /\
  bytes_read rank2_bias_file empty_world = 51 /\
  (exists w', loadFromFile (Some (take 49 rank2_bias_file)) empty_world
              = (w', Err (LoadFailed TruncatedFile))).
Proof.
  split; [|split; [|split; [|split]]].
  - destruct (loadFromFile_strict bad_magic_file empty_world) as (_ & H & _).
    apply H; [vm_compute; lia | vm_compute; discriminate].
  - destruct (loadFromFile_strict relu_model_file empty_world)
      as (_ & _ & _ & _ & _ & H & _).
    destruct (H empty_world
                {| layers_ := [ReLULayer]; input_shape_ := [2%N]; output_shape_ := [2%N] |})
      as (Hlen & used & rest & Hsplit & _ & Hused & _).
    + by vm_compute.
    + eexists _, used, rest. split; [by vm_compute|]. split; [exact Hlen|].
      split; [exact Hsplit | exact Hused].
  - by vm_compute.
  - by vm_compute.
  - destruct (loadFromFile_strict rank2_bias_file empty_world)
      as (_ & _ & _ & _ & _ & _ & H & _).
    apply (H 49). vm_compute. lia.
Defined.

(** C5 on an engine with one ReLU layer that was never profiled. *)
Lemma predict_unprofiled_keeps_stats_witness :
  profiling_enabled_ relu_engine = false /\
  snd (@predict ticking_platform relu_input (relu_world, relu_engine))
  = Ok {| shape_ := [3%N]; total_size_ := 3; dtype_ := FLOAT32; data_ := Some 2 |} /\
  getLastInferenceStats
    (snd (fst (@predict ticking_platform relu_input (relu_world, relu_engine))))
  = InferenceStats_default.
Proof.
  split; [reflexivity|]. split; [by vm_compute|].
  apply (@predict_unprofiled_keeps_stats ticking_platform relu_input relu_world relu_engine);
    reflexivity.
Defined.

(** C6 on a move assignment between two [2 x 2] matrices. *)
Lemma move_transfers_buffer_witness :
  exists w',
    Tensor_move_assign matrix_I matrix_A matrix_world = (w', Ok (Tensor_move matrix_A)) /\
    w_heap w' = released (Some 1) (w_heap matrix_world) /\
    buffer_of w' (fst (Tensor_move matrix_A)) = Some (map f32_of_Z [1; 2; 3; 4]%Z) /\
    shape (fst (Tensor_move matrix_A)) = [2; 2]%N /\
    shape (snd (Tensor_move matrix_A)) = [] /\
    size (snd (Tensor_move matrix_A)) = 4%N.
Proof.
  destruct (move_transfers_buffer matrix_A matrix_I matrix_world) as (_ & H).
  destruct H as (w' & Hrun & Hheap & Hbuf).
  - apply (mk_is_Some _ (identity_values 2)). by vm_compute.
  - done.
  - exists w'. split; [exact Hrun|]. split; [exact Hheap|]. split; [|done].
    rewrite Hbuf. by vm_compute.
Defined.

(** ** Counterexamples *)


(** C5. After a profiled call of [predict] on the engine of the fixture and
    then a call with profiling disabled, the statistics are still those of
    the profiled call, not the defaults. *)
Lemma unprofiled_predict_keeps_stale_stats :
  snd (stale_stats_scenario empty_world)
  = Ok ({| total_time := 5; layer_times := [1; 1]%Z; memory_usage_bytes := 1000000 |},
        {| total_time := 5; layer_times := [1; 1]%Z; memory_usage_bytes := 1000000 |}).
Proof. by vm_compute. Qed.

(** C6. The source of a move still reports the size it had. *)
Lemma moved_from_keeps_size :
  shape (snd (Tensor_move example_tensor)) = [] /\
  data (snd (Tensor_move example_tensor)) = None /\
  size (snd (Tensor_move example_tensor)) = 6%N.
Proof. by vm_compute. Qed.

(** C7. On a default-constructed tensor and on a moved-from tensor the
    empty index vector passes both checks of [at], and the read goes
    through the null buffer: no element of a buffer is returned. *)
Lemma at_reads_null_buffer :
  length ([] : list N) = length (shape Tensor_default) /\
  Tensor_at Tensor_default [] empty_world = (empty_world, Err UndefinedBehavior) /\
  length ([] : list N) = length (shape (snd (Tensor_move example_tensor))) /\
  Tensor_at (snd (Tensor_move example_tensor)) [] example_world
  = (example_world, Err UndefinedBehavior).
Proof. by vm_compute. Qed.



(** ** Further theorems on concrete tensors *)

Lemma example_tensor_ok : tensor_ok example_world example_tensor.
Proof. concrete_tensor 0 (map f32_of_Z [1; 2; 3; 4; 5; 6]%Z). Qed.

Lemma matrix_A_ok : tensor_ok matrix_world matrix_A.
Proof. concrete_tensor 0 (map f32_of_Z [1; 2; 3; 4]%Z). Qed.

Lemma matrix_I_ok : tensor_ok matrix_world matrix_I.
Proof. concrete_tensor 1 (identity_values 2). Qed.

Lemma relu_input_ok : tensor_ok relu_world relu_input.
Proof. concrete_tensor 0 (map f32_of_Z [-1; 0; 2]%Z). Qed.

Lemma small_input_ok : tensor_ok small_world small_input.
Proof. concrete_tensor 0 (map f32_of_Z [0; 1; 2]%Z). Qed.

(** The copy of the [2 x 3] tensor. *)
Lemma copy_is_deep_witness :
  exists w' c,
    Tensor_copy example_tensor example_world = (w', Ok c) /\
    data c <> data example_tensor /\
    buffer_of w' c = Some (map f32_of_Z [1; 2; 3; 4; 5; 6]%Z) /\
    buffer_of w' example_tensor = Some (map f32_of_Z [1; 2; 3; 4; 5; 6]%Z).
Proof.
  destruct (copy_is_deep example_tensor example_world
              (map f32_of_Z [1; 2; 3; 4; 5; 6]%Z) example_tensor_ok eq_refl)
    as (w' & c & Hcopy & _ & _ & _ & Hne & _ & _ & Hc & _ & Ht & _).
  by exists w', c.
Defined.

(** Writing 0 at [(1, 2)] of the [2 x 3] tensor and reading it back. *)
Lemma at_put_get_witness :
  exists w',
    Tensor_at_put example_tensor [1; 2]%N f32_zero example_world = (w', Ok tt) /\
    Tensor_at example_tensor [1; 2]%N w' = (w', Ok f32_zero).
Proof.
  destruct (at_put_get example_tensor [1; 2]%N f32_zero example_world example_tensor_ok)
    as (w' & Hput & _ & Hget & _).
  - repeat constructor.
  - by exists w'.
Defined.

(** The identity divided in place by [[1,2],[3,4]]. *)
Lemma div_assign_quotients_witness :
  exists w',
    Tensor_div_assign matrix_I matrix_A matrix_world = (w', Ok tt) /\
    w_heap w'
    = <[1 := zip_with f32_div (identity_values 2) (map f32_of_Z [1; 2; 3; 4]%Z)]>
        (w_heap matrix_world).
Proof.
  destruct (div_assign_quotients matrix_I matrix_A matrix_world (identity_values 2)
              (map f32_of_Z [1; 2; 3; 4]%Z) matrix_I_ok matrix_A_ok eq_refl eq_refl eq_refl)
    as (a & w' & Ha & Hrun & Hheap & _).
  - intros y Hy. simpl in Hy.
    repeat (apply elem_of_cons in Hy as [->|Hy]; [reflexivity|]).
    by apply elem_of_nil in Hy.
  - injection Ha as <-. by exists w'.
Defined.

(** [[1,2],[3,4]] plus the identity. *)
Lemma binary_operators_pure_witness :
  exists q,
    w_heap matrix_world !! q = None /\
    Tensor_add matrix_A matrix_I matrix_world
    = (set_heap (<[q := zip_with f32_add (map f32_of_Z [1; 2; 3; 4]%Z) (identity_values 2)]>
                   (w_heap matrix_world)) matrix_world,
       Ok {| shape_ := [2; 2]%N; total_size_ := 4; dtype_ := FLOAT32; data_ := Some q |}).
Proof.
  destruct (binary_operators_pure matrix_A matrix_I matrix_world
              (map f32_of_Z [1; 2; 3; 4]%Z) (identity_values 2)
              matrix_A_ok matrix_I_ok eq_refl eq_refl) as (_ & H).
  destruct (H eq_refl) as (q & Hq & Hadd & _).
  by exists q.
Defined.

(** [relu] on the tensor [-1, 0, 2]. *)
Lemma relu_clamps_witness :
  exists w',
    relu relu_input relu_world = (w', Ok tt) /\
    buffer_of w' relu_input = Some (map f32_of_Z [0; 0; 2]%Z).
Proof.
  destruct (relu_clamps relu_input relu_world (map f32_of_Z [-1; 0; 2]%Z)
              relu_input_ok eq_refl)
    as (w' & buf' & Hrun & Hbuf & _ & Hlen & _ & Hel & _).
  exists w'. split; [exact Hrun|]. rewrite Hbuf. f_equal.
  apply list_eq. intros i.
  destruct i as [|[|[|i]]];
    [by rewrite (Hel 0 (f32_of_Z (-1)) eq_refl)
    |by rewrite (Hel 1 (f32_of_Z 0) eq_refl)
    |by rewrite (Hel 2 (f32_of_Z 2) eq_refl)|].
  rewrite !lookup_ge_None_2; [done | simpl; lia | rewrite Hlen; simpl; lia].
Defined.

(** [sigmoid] on the tensor [0, 1, 2] with an [exp] that is correctly
    rounded: the first element becomes 0.5. *)
Lemma sigmoid_map_witness :
  @sigmoid rounded_exp_platform small_input small_world
  = (set_heap (<[0 := map (@sigmoid_elem rounded_exp_platform) (map f32_of_Z [0; 1; 2]%Z)]>
                 (w_heap small_world)) small_world, Ok tt) /\
  @sigmoid_elem rounded_exp_platform f32_zero = f32_lit 1 2.
Proof.
  destruct (@sigmoid_map rounded_exp_platform small_input small_world
              (map f32_of_Z [0; 1; 2]%Z) small_input_ok eq_refl)
    as ((a & Ha & Hrun) & Hhalf & _).
  injection Ha as <-. split; [exact Hrun|]. apply Hhalf. reflexivity.
Defined.

(** The linear layer of the example, built from its weight and bias. *)
Lemma LinearLayer_new_spec_witness :
  exists w' weights_ bias_,
    LinearLayer_new affine_weights affine_bias affine_world
    = (w', Ok (LinearLayer weights_ bias_)) /\
    buffer_of w' weights_ = Some (map f32_of_Z [1; 2; 3; 4; 5; 6]%Z) /\
    buffer_of w' bias_ = Some [f32_lit 1 10; f32_lit 2 10; f32_lit 3 10] /\
    data weights_ <> data affine_weights.
Proof.
  destruct (LinearLayer_new_spec affine_weights affine_bias affine_world
              (map f32_of_Z [1; 2; 3; 4; 5; 6]%Z) [f32_lit 1 10; f32_lit 2 10; f32_lit 3 10])
    as (_ & _ & H).
  - concrete_tensor 0 (map f32_of_Z [1; 2; 3; 4; 5; 6]%Z).
  - concrete_tensor 1 [f32_lit 1 10; f32_lit 2 10; f32_lit 3 10].
  - reflexivity.
  - reflexivity.
  - destruct (H 2%N 3%N eq_refl eq_refl)
      as (w' & weights_ & bias_ & Hrun & _ & HW & Hb & HWfresh & _).
    exists w', weights_, bias_. split; [exact Hrun|]. split; [exact HW|].
    split; [exact Hb|].
    intros E. unfold buffer_of in HWfresh. unfold data in E. rewrite E in HWfresh.
    by vm_compute in HWfresh.
Defined.

(** A ReLU layer run on the tensor [-1, 0, 2] into an empty output. *)
Lemma activation_forward_witness :
  exists q,
    w_heap relu_world !! q = None /\
    ReLULayer_forward relu_input (relu_world, Tensor_default)
    = ((set_heap (<[q := map f32_of_Z [0; 0; 2]%Z]> (w_heap relu_world)) relu_world,
        {| shape_ := [3%N]; total_size_ := 3; dtype_ := FLOAT32; data_ := Some q |}),
       Ok tt).
Proof.
  destruct (@activation_forward rounded_exp_platform relu_input Tensor_default relu_world
              (map f32_of_Z [-1; 0; 2]%Z) relu_input_ok eq_refl I)
    as (q & Hq & _ & Hrelu & _).
  - done.
  - by exists q.
Defined.

(** A file with a linear layer of one weight and one bias, both 1.0,
    followed by a ReLU layer, for vectors of length 1. *)
Lemma load_encoded_model_witness :
  exists w' model,
    loadFromFile
      (Some (encode_model
               [LinearImage 1 1 (le_encode 4 0x3F800000) (le_encode 4 0x3F800000);
                ActivationImage RELU] [1%N] [1%N] ++ []))
      empty_world
    = (w', Ok model) /\
    length (layers_ model) = 2 /\
    getInputShape model = [1%N] /\ getOutputShape model = [1%N].
Proof.
  destruct (load_encoded_model
              [LinearImage 1 1 (le_encode 4 0x3F800000) (le_encode 4 0x3F800000);
               ActivationImage RELU] [1%N] [1%N] [] empty_world)
    as (w' & model & Hload & Hall & Hin & Hout & _).
  - repeat constructor; try (by vm_compute); try lia.
  - simpl. lia.
  - split; [by vm_compute | repeat constructor; lia].
  - split; [by vm_compute | repeat constructor; lia].
  - exists w', model. split; [exact Hload|]. split; [|split; [exact Hin | exact Hout]].
    rewrite (Forall2_length _ _ _ Hall). reflexivity.
Defined.

(** A file that declares two layers: a ReLU layer, then a layer of the
    unknown type 4. *)
Lemma load_rejects_bad_layer_witness :
  exists w',
    loadFromFile
      (Some (encode_header 2 ++ flat_map encode_layer [ActivationImage RELU] ++
             le_encode 1 4 ++ []))
      empty_world
    = (w', Err (LoadFailed UnknownLayerType)).
Proof.
  destruct (load_rejects_bad_layer [ActivationImage RELU] [] 2 empty_world) as (H & _).
  - repeat constructor. done.
  - simpl. lia.
  - apply (H 4%N). lia.
Defined.

(** A profiled call of [predict] on the engine with one ReLU layer, with a
    clock that advances by one tick at every reading: four readings, one
    tick for the layer, three ticks in all. *)
Lemma profiled_predict_stats_witness :
  w_ticks (fst (fst (@predict ticking_platform relu_input
                       (relu_world, enableProfiling true relu_engine)))) = 4 /\
  last_stats_ (snd (fst (@predict ticking_platform relu_input
                           (relu_world, enableProfiling true relu_engine))))
  = {| total_time := 3; layer_times := [1%Z]; memory_usage_bytes := 0 |}.
Proof.
  destruct (@predict ticking_platform relu_input
              (relu_world, enableProfiling true relu_engine))
    as [[w' e'] [output|err]] eqn:E.
  - destruct (@profiled_predict_stats ticking_platform relu_input output relu_world w'
                (enableProfiling true relu_engine) e' eq_refl E) as [Ht ->].
    split; [exact Ht | reflexivity].
  - vm_compute in E. discriminate.
Defined.

(** The constructor on the shape [[2; 3]]. *)
Lemma Tensor_new_invariants_witness :
  exists w' t,
    Tensor_new [2; 3]%N FLOAT32 empty_world = (w', Ok t) /\ Tensor_invariants w' t.
Proof.
  apply (Tensor_new_invariants [2; 3]%N FLOAT32 empty_world).
  - done.
  - repeat constructor; done.
  - by vm_compute.
Defined.
